(** * The chat webview bridge of the VS Code client

    A shallow embedding of [clients/vscode/src/chat/webview.ts]: the
    [ChatWebview] class with its deferred-action queue and version-keyed
    panel handle, the query handlers it hands to the panel
    ([lookupSymbol], [listSymbols], [getChanges], [fetchSessionState],
    [storeSessionState], [readWorkspaceGitRepositories]), the edit of
    [applyInEditor], and the life cycle of the page ([init], [dispose],
    [checkStatusAndLoadContent] with [checkStatusInfo], [isFocused]).

    Conventions.
    - JavaScript strings are [string]s of 8-bit code units; [toLowerCase]
      acts on the ASCII letters.
    - JavaScript numbers that the code uses as counts, limits and line
      numbers are [Z] or [nat].
    - A JavaScript object used as a dictionary is a [gmap] over its own
      properties; where the code tests a key with [in], the names that a
      plain object inherits from [Object.prototype] pass the test too.
    - A rejected promise or a thrown exception is the [Throw] outcome of
      [Completion]; [try]/[catch] is a match on it.
    - Collaborators that live outside the file (the host's commands, the git
      provider, the helpers of [./utils], the [semver] package) are fields of
      the records [Host], [GitProvider], [GitWorkspace], [Utils],
      [Versioning] and [SemverPackage].
    - A line of a document ends at a line feed.
    - What the class reads from its environment at a call (the current
      status and configuration of the language client, the id that
      [uuid()] gives) is an argument of the function. *)

From Stdlib Require Import ZArith List String Ascii Bool Lia Permutation Sorted.
From stdpp Require Import gmap strings list pretty sorting.

Import ListNotations.
Local Open Scope string_scope.
Local Open Scope Z_scope.
Local Open Scope list_scope.

(** ** Completions: normal return or exception *)

Inductive JsError :=
  | TypeError (what : string)
  | HostError (what : string).

Inductive Completion (A : Type) :=
  | Return (a : A)
  | Throw (e : JsError).
Arguments Return {A} a.
Arguments Throw {A} e.

Definition bindC {A B} (c : Completion A) (k : A -> Completion B) : Completion B :=
  match c with
  | Return a => k a
  | Throw e => Throw e
  end.

(** [try { c } catch { handler }] *)
Definition tryCatch {A} (c : Completion A) (handler : JsError -> A) : A :=
  match c with
  | Return a => a
  | Throw e => handler e
  end.

(** ** Values stored in the session state ([unknown] in the source) *)

Inductive JsValue :=
  | JNull
  | JBool (b : bool)
  | JNum (n : Z)
  | JStr (s : string).

(** ** Server configuration, [Config["server"]] *)

Record ServerConfig := {
  endpoint : string;
  token : string
}.

(** ** The panel handle, [ServerApiList]

    A handle maps version keys to the operation set exposed under that key. *)

Inductive Method :=
  | M_init
  | M_updateTheme
  | M_updateActiveSelection
  | M_addRelevantContext
  | M_executeCommand
  | M_navigate.

#[global] Instance Method_eq_dec : EqDecision Method.
Proof. solve_decision. Defined.

Definition ServerApi := list Method.
Definition ServerApiList := gmap string ServerApi.

Inductive ContextKind := KindFile | KindTerminal.

Record EditorContext := {
  kind : ContextKind;
  content : string
}.

Definition ChatCommand := string.
Definition ChatView := string.

(** Arguments carried by a call on the panel. *)
Inductive Arg :=
  | ArgSelection (selection : option EditorContext)
  | ArgContext (context : EditorContext)
  | ArgCommand (command : ChatCommand)
  | ArgView (view : ChatView)
  | ArgInit (authorization : string) (useMacOSKeyboardEventHandler : bool).

(** The lines written through [this.logger.info]. *)
Inductive LogLine :=
  | LogSetActiveSelection (selection : EditorContext)
  | LogSetPendingActiveSelection (selection : EditorContext)
  | LogAddingRelevantContext (context : EditorContext)
  | LogAddingPendingRelevantContext (context : EditorContext)
  | LogExecutingCommand (command : ChatCommand)
  | LogExecutingPendingCommand (command : ChatCommand)
  | LogNavigate (view : ChatView).

(** What the class does to the outside, in order. *)
Inductive Event :=
  | LogInfo (line : LogLine)
  | PanelCall (version : string) (m : Method) (a : Arg)
  | Emit (event status : string)
  | PostMessage (action : string).

(** The closures pushed on [pendingActions], one constructor per closure
    body in the source; each captures its argument. *)
Inductive PendingAction :=
  | PendingSetActiveSelection (selection : EditorContext)
  | PendingAddRelevantContext (context : EditorContext)
  | PendingExecuteCommand (command : ChatCommand).

(** ** The state of a [ChatWebview]

    The fields of the class that the operations below use, the [trace] of
    what the class did to the outside, and [rejected]: the errors of the
    promises that were rejected with nobody awaiting them, in the order of
    their rejection.  When the runtime reports those is not part of the
    model. *)

Record ChatWebview := {
  client : option ServerApiList;
  currentConfig : option ServerConfig;
  createClientTimeout : bool;
  pendingActions : list PendingAction;
  sessionStateMap : gmap string (gmap string JsValue);
  trace : list Event;
  rejected : list JsError
}.

Definition with_client (c : option ServerApiList) (w : ChatWebview) : ChatWebview :=
  {| client := c; currentConfig := currentConfig w;
     createClientTimeout := createClientTimeout w;
     pendingActions := pendingActions w;
     sessionStateMap := sessionStateMap w; trace := trace w;
     rejected := rejected w |}.

Definition with_createClientTimeout (b : bool) (w : ChatWebview) : ChatWebview :=
  {| client := client w; currentConfig := currentConfig w;
     createClientTimeout := b;
     pendingActions := pendingActions w;
     sessionStateMap := sessionStateMap w; trace := trace w;
     rejected := rejected w |}.

Definition with_pendingActions (q : list PendingAction) (w : ChatWebview) : ChatWebview :=
  {| client := client w; currentConfig := currentConfig w;
     createClientTimeout := createClientTimeout w;
     pendingActions := q;
     sessionStateMap := sessionStateMap w; trace := trace w;
     rejected := rejected w |}.

Definition with_sessionStateMap (m : gmap string (gmap string JsValue))
    (w : ChatWebview) : ChatWebview :=
  {| client := client w; currentConfig := currentConfig w;
     createClientTimeout := createClientTimeout w;
     pendingActions := pendingActions w;
     sessionStateMap := m; trace := trace w; rejected := rejected w |}.

Definition emit (es : list Event) (w : ChatWebview) : ChatWebview :=
  {| client := client w; currentConfig := currentConfig w;
     createClientTimeout := createClientTimeout w;
     pendingActions := pendingActions w;
     sessionStateMap := sessionStateMap w; trace := trace w ++ es;
     rejected := rejected w |}.

(** A promise that nobody awaits is rejected with [e]: the runtime reports
    it at some later time, and nothing of the class sees it. *)
Definition reject (e : JsError) (w : ChatWebview) : ChatWebview :=
  {| client := client w; currentConfig := currentConfig w;
     createClientTimeout := createClientTimeout w;
     pendingActions := pendingActions w;
     sessionStateMap := sessionStateMap w; trace := trace w;
     rejected := rejected w ++ [e] |}.

(** ** Calls through the handle *)

(** [entry.m(a)] where [entry] is [client[version]]: reading a property of
    [undefined], or calling a property that is not there, is a TypeError. *)
Definition callMethod (entry : option ServerApi) (version : string)
    (m : Method) (a : Arg) : Completion (list Event) :=
  match entry with
  | None => Throw (TypeError "Cannot read properties of undefined")
  | Some api =>
      if bool_decide (m ∈ api) then Return [PanelCall version m a]
      else Throw (TypeError "is not a function")
  end.

(** [entry?.m(a)]: the call is skipped when [entry] is [undefined]. *)
Definition callMethodOpt (entry : option ServerApi) (version : string)
    (m : Method) (a : Arg) : Completion (list Event) :=
  match entry with
  | None => Return []
  | Some _ => callMethod entry version m a
  end.

(** Append the events of a completed call to the trace; a throw leaves the
    trace as it is and is handed to the caller. *)
Definition perform (c : Completion (list Event)) (w : ChatWebview)
    : ChatWebview * Completion unit :=
  match c with
  | Return es => (emit es w, Return tt)
  | Throw e => (w, Throw e)
  end.

(** ** Host-to-panel operations *)

Definition setActiveSelection (selection : EditorContext) (w : ChatWebview)
    : ChatWebview * Completion unit :=
  match client w with
  | Some c =>
      let w1 := emit [LogInfo (LogSetActiveSelection selection)] w in
      perform (callMethod (c !! "0.8.0") "0.8.0" M_updateActiveSelection
                 (ArgSelection (Some selection))) w1
  | None =>
      (with_pendingActions
         (pendingActions w ++ [PendingSetActiveSelection selection]) w,
       Return tt)
  end.

Definition addRelevantContext (context : EditorContext) (w : ChatWebview)
    : ChatWebview * Completion unit :=
  match client w with
  | Some c =>
      let w1 := emit [LogInfo (LogAddingRelevantContext context)] w in
      match kind context with
      | KindTerminal =>
          perform (callMethodOpt (c !! "0.10.0") "0.10.0" M_addRelevantContext
                     (ArgContext context)) w1
      | KindFile =>
          perform (callMethod (c !! "0.8.0") "0.8.0" M_addRelevantContext
                     (ArgContext context)) w1
      end
  | None =>
      (with_pendingActions
         (pendingActions w ++ [PendingAddRelevantContext context]) w,
       Return tt)
  end.

Definition executeCommand (command : ChatCommand) (w : ChatWebview)
    : ChatWebview * Completion unit :=
  match client w with
  | Some c =>
      let w1 := emit [LogInfo (LogExecutingCommand command)] w in
      if String.eqb command "explain-terminal" then
        perform (callMethodOpt (c !! "0.10.0") "0.10.0" M_executeCommand
                   (ArgCommand command)) w1
      else
        perform (callMethod (c !! "0.8.0") "0.8.0" M_executeCommand
                   (ArgCommand command)) w1
  | None =>
      (with_pendingActions
         (pendingActions w ++ [PendingExecuteCommand command]) w,
       Return tt)
  end.

Definition navigate (view : ChatView) (w : ChatWebview)
    : ChatWebview * Completion unit :=
  match client w with
  | Some c =>
      let w1 := emit [LogInfo (LogNavigate view)] w in
      perform (callMethod (c !! "0.8.0") "0.8.0" M_navigate (ArgView view)) w1
  | None => (w, Return tt)
  end.

(** [this.client?.[version].m(a)]: the whole chain is skipped when
    [this.client] is [undefined]. *)
Definition callOnClient (w : ChatWebview) (version : string) (m : Method)
    (a : Arg) : Completion (list Event) :=
  match client w with
  | None => Return []
  | Some c => callMethod (c !! version) version m a
  end.

(** [this.client?.[version]?.m(a)] *)
Definition callOnClientOpt (w : ChatWebview) (version : string) (m : Method)
    (a : Arg) : Completion (list Event) :=
  match client w with
  | None => Return []
  | Some c => callMethodOpt (c !! version) version m a
  end.

(** The body of a queued closure, run against the state at the time of the
    call. *)
Definition runPending (fn : PendingAction) (w : ChatWebview)
    : ChatWebview * Completion unit :=
  match fn with
  | PendingSetActiveSelection selection =>
      let w1 := emit [LogInfo (LogSetPendingActiveSelection selection)] w in
      perform (callOnClient w1 "0.8.0" M_updateActiveSelection
                 (ArgSelection (Some selection))) w1
  | PendingAddRelevantContext context =>
      let w1 := emit [LogInfo (LogAddingPendingRelevantContext context)] w in
      match kind context with
      | KindTerminal =>
          perform (callOnClientOpt w1 "0.10.0" M_addRelevantContext
                     (ArgContext context)) w1
      | KindFile =>
          perform (callOnClient w1 "0.8.0" M_addRelevantContext
                     (ArgContext context)) w1
      end
  | PendingExecuteCommand command =>
      let w1 := emit [LogInfo (LogExecutingPendingCommand command)] w in
      if String.eqb command "explain-terminal" then
        perform (callOnClientOpt w1 "0.10.0" M_executeCommand
                   (ArgCommand command)) w1
      else
        perform (callOnClient w1 "0.8.0" M_executeCommand
                   (ArgCommand command)) w1
  end.

(** One round of [this.pendingActions.forEach(async (fn) => { await fn(); })]:
    the closure runs up to its call on the panel; a throw inside it rejects
    a promise that nobody awaits, and the iteration goes on. *)
Definition forEachStep (w : ChatWebview) (fn : PendingAction) : ChatWebview :=
  match runPending fn w with
  | (w', Return _) => w'
  | (w', Throw e) => reject e w'
  end.

(** [initChatPanel], from the point where [createChatPanelApiClient] has
    resolved to the handle [c]. *)
Definition initChatPanel (isMac : bool) (c : ServerApiList) (w : ChatWebview)
    : ChatWebview * Completion unit :=
  let w1 := with_client (Some c) w in
  let w2 := emit [Emit "didChangedStatus" "ready"] w1 in
  let w3 := with_createClientTimeout false w2 in
  let w4 := fold_left forEachStep (pendingActions w3) w3 in
  let w5 := with_pendingActions [] w4 in
  let authorization :=
    match currentConfig w5 with Some cfg => token cfg | None => EmptyString end in
  match perform (callMethod (c !! "0.8.0") "0.8.0" M_init
                   (ArgInit authorization isMac)) w5 with
  | (w6, Return _) => (emit [PostMessage "showChatPanel"] w6, Return tt)
  | (w6, Throw e) => (w6, Throw e)
  end.

(** ** Version probing *)

(** The [semver] package and [isCompatible] of [./utils]. *)
Record Versioning := {
  semver_valid : string -> bool;
  isCompatible : string -> string -> bool
}.

(** [Object.keys(this.client ?? {}).filter((key) => semver.valid(key))];
    the keys come in the order of the map, which [some] below does not
    depend on. *)
Definition getApiVersions (V : Versioning) (w : ChatWebview) : list string :=
  List.filter (semver_valid V)
    (map fst (map_to_list (default (∅ : ServerApiList) (client w)))).

Definition isTerminalContextEnabled (V : Versioning) (w : ChatWebview) : bool :=
  existsb (fun version => isCompatible V version "0.10.0") (getApiVersions V w).

(** ** Session state

    [private sessionStateMap = new Map<string, Record<string, unknown>>()] *)

(** [this.currentConfig?.endpoint], or the empty string *)
Definition sessionStateKey (w : ChatWebview) : string :=
  match currentConfig w with
  | Some cfg => endpoint cfg
  | None => EmptyString
  end.

(** [this.sessionStateMap.get(sessionStateKey) ?? {}] *)
Definition sessionStateOf (w : ChatWebview) : gmap string JsValue :=
  default ∅ (sessionStateMap w !! sessionStateKey w).

(** *** Plain objects and [Object.prototype]

    A session state is a plain object: the map holds its own properties,
    and behind them stands [Object.prototype], as for every object that an
    object literal makes. *)

(** The property names of [Object.prototype]. *)
Definition objectPrototypeNames : list string :=
  ["constructor"; "__defineGetter__"; "__defineSetter__"; "hasOwnProperty";
   "__lookupGetter__"; "__lookupSetter__"; "isPrototypeOf";
   "propertyIsEnumerable"; "toString"; "valueOf"; "__proto__";
   "toLocaleString"].

(** What a read of a property gives: the value stored under the name, or
    what an object inherits under the name from [Object.prototype] (the
    method of that name; for [__proto__] the prototype itself, an object). *)
Inductive PropertyValue :=
  | Stored (v : JsValue)
  | Inherited (name : string).

Inductive Prototype := ObjectPrototype | NullPrototype.

(** An object that the class builds and returns: its own properties and
    its prototype. *)
Record JsObject := {
  properties : gmap string PropertyValue;
  prototype : Prototype
}.

(** [key in sessionState]: own properties and inherited ones alike. *)
Definition hasProperty (sessionState : gmap string JsValue) (key : string) : bool :=
  match sessionState !! key with
  | Some _ => true
  | None => bool_decide (key ∈ objectPrototypeNames)
  end.

(** [sessionState[key]], for a key that passed the test above. *)
Definition getProperty (sessionState : gmap string JsValue) (key : string)
    : PropertyValue :=
  match sessionState !! key with
  | Some v => Stored v
  | None => Inherited key
  end.

(** [filtered[key] = value].  An own property is overwritten; otherwise the
    assignment makes an own property, except for [__proto__] on an object
    that still has [Object.prototype] behind it: there the inherited setter
    runs, which makes no property, sets the prototype when [value] is
    [null] or an object, and ignores any other value.  An inherited value
    reaches the setter only as the prototype itself, which is in place
    already. *)
Definition setProperty (key : string) (value : PropertyValue) (filtered : JsObject)
    : JsObject :=
  let assigned :=
    {| properties := <[key := value]> (properties filtered);
       prototype := prototype filtered |} in
  match properties filtered !! key, prototype filtered with
  | None, ObjectPrototype =>
      if String.eqb key "__proto__" then
        match value with
        | Stored JNull =>
            {| properties := properties filtered; prototype := NullPrototype |}
        | _ => filtered
        end
      else assigned
  | _, _ => assigned
  end.

(** The loop of [fetchSessionState]:
    [for (const key of keys) if (key in sessionState) filtered[key] = sessionState[key]] *)
Fixpoint fetchLoop (sessionState : gmap string JsValue) (keys : list string)
    (filtered : JsObject) : JsObject :=
  match keys with
  | [] => filtered
  | key :: rest =>
      if hasProperty sessionState key
      then fetchLoop sessionState rest
             (setProperty key (getProperty sessionState key) filtered)
      else fetchLoop sessionState rest filtered
  end.

(** [{ ...sessionState }]: the own properties, copied as own properties. *)
Definition copyOf (sessionState : gmap string JsValue) : JsObject :=
  {| properties := Stored <$> sessionState; prototype := ObjectPrototype |}.

(** [{}] *)
Definition emptyObject : JsObject :=
  {| properties := ∅; prototype := ObjectPrototype |}.

Definition fetchSessionState (keys : option (list string)) (w : ChatWebview)
    : JsObject :=
  let sessionState := sessionStateOf w in
  match keys with
  | None => copyOf sessionState
  | Some ks => fetchLoop sessionState ks emptyObject
  end.

(** [{ ...sessionState, ...state }]: the keys of [state] win. *)
Definition storeSessionState (state : gmap string JsValue) (w : ChatWebview)
    : ChatWebview :=
  let key := sessionStateKey w in
  let sessionState := sessionStateOf w in
  with_sessionStateMap (<[key := state ∪ sessionState]> (sessionStateMap w)) w.

(** Replacing the server configuration, as [checkStatusAndLoadContent] does
    with [this.currentConfig = config.server]. *)
Definition with_currentConfig (cfg : option ServerConfig) (w : ChatWebview)
    : ChatWebview :=
  {| client := client w; currentConfig := cfg;
     createClientTimeout := createClientTimeout w;
     pendingActions := pendingActions w;
     sessionStateMap := sessionStateMap w; trace := trace w;
     rejected := rejected w |}.

(** *** Versions written MAJOR.MINOR.PATCH *)

(** [\d] *)
Definition isDigit (c : ascii) : bool :=
  let n := nat_of_ascii c in ((48 <=? n) && (n <=? 57))%nat.

Fixpoint digitsValue (acc : N) (s : string) : option N :=
  match s with
  | EmptyString => Some acc
  | String c rest =>
      if isDigit c
      then digitsValue (acc * 10 + (N_of_ascii c - 48))%N rest
      else None
  end.

(** [0|[1-9]\d*] *)
Definition numericIdentifier (s : string) : option N :=
  match s with
  | EmptyString => None
  | String c rest =>
      if Ascii.eqb c "0"%char
      then match rest with EmptyString => Some 0%N | _ => None end
      else digitsValue 0%N s
  end.

Fixpoint splitOn (sep : ascii) (s : string) : list string :=
  match s with
  | EmptyString => [EmptyString]
  | String c rest =>
      if Ascii.eqb c sep then EmptyString :: splitOn sep rest
      else match splitOn sep rest with
           | [] => [String c EmptyString]
           | h :: t => String c h :: t
           end
  end.

Definition parseVersion (s : string) : option (N * N * N) :=
  match splitOn "."%char s with
  | [a; b; c] =>
      match numericIdentifier a, numericIdentifier b, numericIdentifier c with
      | Some x, Some y, Some z => Some (x, y, z)
      | _, _, _ => None
      end
  | _ => None
  end.

Definition versionGeb (a b : N * N * N) : bool :=
  let '(a1, a2, a3) := a in
  let '(b1, b2, b3) := b in
  ((b1 <? a1) || ((b1 =? a1) && ((b2 <? a2) || ((b2 =? a2) && (b3 <=? a3)))))%N.

(** Modelled from the spec: [isCompatible] of [./utils] is not part of this
    file, and neither is the [semver] package; the spec reads them as "a
    valid semantic version" and "greater-or-equal under semantic
    versioning".  [plainVersioning] is that reading on versions written
    MAJOR.MINOR.PATCH, the shape of every key the file names. *)
Definition plainVersioning : Versioning :=
  {| semver_valid := fun s =>
       match parseVersion s with Some _ => true | None => false end;
     isCompatible := fun current target =>
       match parseVersion current, parseVersion target with
       | Some a, Some b => versionGeb a b
       | _, _ => false
       end |}.

(** ** Change collection *)

Record ChangeItem := {
  change_content : string;
  staged : bool
}.

(** The git provider of [../git/GitProvider]; [getDiff] is taken where its
    promise resolves, to a list of diffs or to [undefined]. *)
Record GitProvider := {
  Repository : Type;
  isApiAvailable : bool;
  getRepositories : option (list Repository);
  getDiff : Repository -> bool -> option (list string)
}.

Definition strlen (s : string) : Z := Z.of_nat (String.length s).

(** [charLimit !== undefined && n > charLimit] *)
Definition exceedsLimit (charLimit : option Z) (n : Z) : bool :=
  match charLimit with
  | Some l => l <? n
  | None => false
  end.

(** [charLimit !== undefined && n >= charLimit] *)
Definition reachesLimit (charLimit : option Z) (n : Z) : bool :=
  match charLimit with
  | Some l => l <=? n
  | None => false
  end.

(** The inner loop [for (const diff of diffs)] with its [break]. *)
Fixpoint diffLoop (stagedFlag : bool) (charLimit : option Z) (diffs : list string)
    (res : list ChangeItem) (currentCharCount : Z) : list ChangeItem * Z :=
  match diffs with
  | [] => (res, currentCharCount)
  | diff :: rest =>
      let diffChars := strlen diff in
      if exceedsLimit charLimit (currentCharCount + diffChars)
      then (res, currentCharCount)
      else diffLoop stagedFlag charLimit rest
             (res ++ [{| change_content := diff; staged := stagedFlag |}])
             (currentCharCount + diffChars)
  end.

(** The outer loop [for (const repo of repos)]. *)
Fixpoint repoLoop (G : GitProvider) (stagedFlag : bool) (charLimit : option Z)
    (repos : list (Repository G)) (res : list ChangeItem)
    (currentCharCount : Z) : list ChangeItem :=
  match repos with
  | [] => res
  | repo :: rest =>
      match getDiff G repo stagedFlag with
      | None => repoLoop G stagedFlag charLimit rest res currentCharCount
      | Some diffs =>
          let '(res', count') :=
            diffLoop stagedFlag charLimit diffs res currentCharCount in
          if reachesLimit charLimit count' then res'
          else repoLoop G stagedFlag charLimit rest res' count'
      end
  end.

Definition getRepoChanges (G : GitProvider) (repos : list (Repository G))
    (stagedFlag : bool) (charLimit : option Z) : list ChangeItem :=
  if reachesLimit charLimit 0 then []
  else repoLoop G stagedFlag charLimit repos [] 0.

(** [stagedChanges.reduce((count, item) => count + item.content.length, 0)] *)
Definition charCount (items : list ChangeItem) : Z :=
  fold_left (fun count item => count + strlen (change_content item)) items 0.

Definition getChanges (G : GitProvider) (maxChars : option Z) : list ChangeItem :=
  if negb (isApiAvailable G) then []
  else
    match getRepositories G with
    | None => []
    | Some repositories =>
        let stagedChanges := getRepoChanges G repositories true maxChars in
        let stagedCharCount := charCount stagedChanges in
        let remainingChars :=
          match maxChars with
          | Some m => Some (m - stagedCharCount)
          | None => None
          end in
        let unstagedChanges :=
          getRepoChanges G repositories false remainingChars in
        stagedChanges ++ unstagedChanges
    end.

(** The policy in the words of the specification: one pass over all diffs of
    the phase, in repository and diff-list order, that ends at the first diff
    that does not fit. *)
Fixpoint firstFitOrStop (budget : Z) (diffs : list string) : list string :=
  match diffs with
  | [] => []
  | diff :: rest =>
      if budget <? strlen diff then []
      else diff :: firstFitOrStop (budget - strlen diff) rest
  end.

Definition allDiffs (G : GitProvider) (repos : list (Repository G))
    (stagedFlag : bool) : list string :=
  flat_map (fun repo => default [] (getDiff G repo stagedFlag)) repos.

(** ** Text documents of the host

    [Position], [Range] and [TextDocument] of the editor API, over a text
    whose only line terminator is the line feed. *)

Definition Uri := string.

Record Position := {
  line : nat;
  character : nat
}.

Record Range := {
  range_start : Position;
  range_end : Position
}.

Definition isBefore (a b : Position) : bool :=
  ((line a <? line b) || ((line a =? line b) && (character a <? character b)))%nat.

Definition positionEqb (a b : Position) : bool :=
  ((line a =? line b) && (character a =? character b))%nat.

(** [new Range(startLine, startCharacter, endLine, endCharacter)]: the
    constructor orders its two ends. *)
Definition newRange (startLine startCharacter endLine endCharacter : nat) : Range :=
  let a := {| line := startLine; character := startCharacter |} in
  let b := {| line := endLine; character := endCharacter |} in
  if isBefore a b then {| range_start := a; range_end := b |}
  else {| range_start := b; range_end := a |}.

(** [range.isEmpty] *)
Definition isEmpty (r : Range) : bool :=
  positionEqb (range_start r) (range_end r).

Record TextDocument := {
  document_uri : Uri;
  document_text : string
}.

Definition newline : ascii := "010"%char.

Fixpoint countNewlines (s : string) : nat :=
  match s with
  | EmptyString => O
  | String c rest =>
      if Ascii.eqb c newline then S (countNewlines rest) else countNewlines rest
  end.

(** [document.lineCount] *)
Definition lineCount (d : TextDocument) : nat :=
  S (countNewlines (document_text d)).

(** Offset of the first character of line [n]; the length of the text when
    the text has fewer lines. *)
Fixpoint offsetOfLine (s : string) (n : nat) {struct s} : nat :=
  match n with
  | O => O
  | S n' =>
      match s with
      | EmptyString => O
      | String c rest =>
          S (if Ascii.eqb c newline then offsetOfLine rest n'
             else offsetOfLine rest n)
      end
  end.

(** Number of characters up to the next line feed. *)
Fixpoint lineLengthFrom (s : string) : nat :=
  match s with
  | EmptyString => O
  | String c rest =>
      if Ascii.eqb c newline then O else S (lineLengthFrom rest)
  end.

Fixpoint dropString (n : nat) (s : string) : string :=
  match n with
  | O => s
  | S n' =>
      match s with
      | EmptyString => EmptyString
      | String _ rest => dropString n' rest
      end
  end.

Definition lineLength (s : string) (n : nat) : nat :=
  lineLengthFrom (dropString (offsetOfLine s n) s).

(** [document.validatePosition]: a line past the end becomes the end of the
    last line, a column past the end of its line becomes the end of the
    line. *)
Definition validatePosition (d : TextDocument) (p : Position) : Position :=
  let s := document_text d in
  if (lineCount d <=? line p)%nat
  then {| line := lineCount d - 1; character := lineLength s (lineCount d - 1) |}
  else {| line := line p; character := Nat.min (character p) (lineLength s (line p)) |}.

(** [document.offsetAt(position)] *)
Definition offsetAt (d : TextDocument) (p : Position) : nat :=
  let q := validatePosition d p in
  (offsetOfLine (document_text d) (line q) + character q)%nat.

(** [document.positionAt(offset)] *)
Definition positionAt (d : TextDocument) (offset : nat) : Position :=
  let s := document_text d in
  let o := Nat.min offset (String.length s) in
  let l := countNewlines (substring 0 o s) in
  {| line := l; character := o - offsetOfLine s l |}.

(** [document.getText(range?)] *)
Definition getText (d : TextDocument) (r : option Range) : string :=
  match r with
  | None => document_text d
  | Some r =>
      let a := offsetAt d (range_start r) in
      let b := offsetAt d (range_end r) in
      substring a (b - a) (document_text d)
  end.

(** ** Regular expressions of [lookupSymbol] *)

Definition isAlpha (c : ascii) : bool :=
  let n := nat_of_ascii c in
  (((65 <=? n) && (n <=? 90)) || ((97 <=? n) && (n <=? 122)))%nat.

Definition isUnderscore (c : ascii) : bool := Ascii.eqb c "_"%char.

(** [\w] *)
Definition isWordChar (c : ascii) : bool :=
  isAlpha c || isDigit c || isUnderscore c.

Fixpoint allWordChars (s : string) : bool :=
  match s with
  | EmptyString => true
  | String c rest => isWordChar c && allWordChars rest
  end.

(** [symbol.match(/^[a-zA-Z_][a-zA-Z0-9_]*$/)] *)
Definition isSimpleIdentifier (symbol : string) : bool :=
  match symbol with
  | EmptyString => false
  | String c rest => (isAlpha c || isUnderscore c) && allWordChars rest
  end.

(** The [\b] after the symbol: the next character is not a word character,
    or the content ends. *)
Definition boundaryAfter (symbol content : string) : bool :=
  match dropString (String.length symbol) content with
  | EmptyString => true
  | String c _ => negb (isWordChar c)
  end.

(** The indices at which [new RegExp(`\\b${symbol}\\b`, "g")] matches, in
    textual order.  [symbol] is made of word characters, so a match starts
    where the previous character is not a word character; two matches never
    overlap, which makes the scan by [lastIndex] and the scan of every index
    the same. *)
Fixpoint matchIndicesFrom (symbol : string) (prevIsWord : bool)
    (content : string) (index : nat) : list nat :=
  match content with
  | EmptyString => []
  | String c rest =>
      let here :=
        negb prevIsWord && String.prefix symbol content
        && boundaryAfter symbol content in
      (if here then [index] else [])
      ++ matchIndicesFrom symbol (isWordChar c) rest (S index)
  end.

Definition matchIndices (symbol content : string) : list nat :=
  matchIndicesFrom symbol false content 0.

(** ** Collaborators of the query handlers *)

(** What the definition provider returns: a [Location] or a [LocationLink]. *)
Inductive DefinitionResult :=
  | IsLocation (uri : Uri) (range : Range)
  | IsLocationLink (targetUri : Uri) (targetRange : Range)
      (targetSelectionRange : option Range).

Record Location := {
  location_uri : Uri;
  location_range : Range
}.

Record SymbolInformation := {
  symbol_name : string;
  symbol_kind : nat;
  containerName : option string;
  symbol_location : Location
}.

(** An element of the document symbol provider's answer: a [DocumentSymbol]
    with its children, or a [SymbolInformation]. *)
#[warnings="-register-all"]
Inductive SymbolNode :=
  | IsDocumentSymbol (name : string) (kind : nat) (detail : string)
      (range : Range) (children : list SymbolNode)
  | IsSymbolInformation (s : SymbolInformation).

Record TextEditor := {
  editor_document : TextDocument
}.

(** The commands and objects of the editor host. *)
Record Host := {
  activeTextEditor : option TextEditor;
  openTextDocument : Uri -> Completion (option TextDocument);
  executeDefinitionProvider :
    Uri -> Position -> Completion (option (list DefinitionResult));
  executeDocumentSymbolProvider : Uri -> Completion (option (list SymbolNode));
  executeWorkspaceSymbolProvider :
    string -> Completion (option (list SymbolInformation))
}.

(** [LineRange] of the panel's protocol. *)
Record LineRange := {
  lr_start : Z;
  lr_end : Z
}.

(** The types of the panel's protocol that the file only passes around, and
    the helpers of [./utils] that convert between them and the editor's.
    [Filepath_toString] is what a template literal makes of a [Filepath]. *)
Record Utils := {
  Filepath : Type;
  ChatLocation : Type;
  chatPanelFilepathToLocalUri : Filepath -> option Uri;
  localUriToChatPanelFilepath : Uri -> Filepath;
  chatPanelLocationToVSCodeRange : ChatLocation -> option Range;
  vscodePositionToChatPanelPosition : Position -> Position;
  vscodeRangeToChatPanelPositionRange : Range -> Range;
  vscodeRangeToChatPanelLineRange : Range -> LineRange;
  Filepath_toString : Filepath -> string
}.

Record LookupSymbolHint (U : Utils) := {
  hint_filepath : option (Filepath U);
  hint_location : option (ChatLocation U)
}.
Arguments hint_filepath {U} _.
Arguments hint_location {U} _.

Record SymbolInfo (U : Utils) := {
  source_filepath : Filepath U;
  source_location : Position;
  target_filepath : Filepath U;
  target_location : Range
}.
Arguments source_filepath {U} _.
Arguments source_location {U} _.
Arguments target_filepath {U} _.
Arguments target_location {U} _.

(** ** [lookupSymbol] *)

(** The object literal returned by [findSymbolInContent]. *)
Definition symbolInfoAt (U : Utils) (document : TextDocument) (position : Position)
    (location : DefinitionResult) : SymbolInfo U :=
  match location with
  | IsLocationLink targetUri targetRange targetSelectionRange =>
      let targetLocation := default targetRange targetSelectionRange in
      {| source_filepath := localUriToChatPanelFilepath U (document_uri document);
         source_location := vscodePositionToChatPanelPosition U position;
         target_filepath := localUriToChatPanelFilepath U targetUri;
         target_location := vscodeRangeToChatPanelPositionRange U targetLocation |}
  | IsLocation uri range =>
      {| source_filepath := localUriToChatPanelFilepath U (document_uri document);
         source_location := vscodePositionToChatPanelPosition U position;
         target_filepath := localUriToChatPanelFilepath U uri;
         target_location := vscodeRangeToChatPanelPositionRange U range |}
  end.

(** The [while ((match = matchRegExp.exec(content)) !== null)] loop, over the
    indices of the matches. *)
Fixpoint findSymbolLoop (U : Utils) (H : Host) (document : TextDocument)
    (offsetInDocument : nat) (matches : list nat)
    : Completion (option (SymbolInfo U)) :=
  match matches with
  | [] => Return None
  | index :: rest =>
      let offset := (offsetInDocument + index)%nat in
      let position := positionAt document offset in
      bindC (executeDefinitionProvider H (document_uri document) position)
        (fun locations =>
           match locations with
           | Some (location :: _) =>
               Return (Some (symbolInfoAt U document position location))
           | _ => findSymbolLoop U H document offsetInDocument rest
           end)
  end.

Definition findSymbolInContent (U : Utils) (H : Host) (symbol : string)
    (document : TextDocument) (content : string) (offsetInDocument : nat)
    : Completion (option (SymbolInfo U)) :=
  findSymbolLoop U H document offsetInDocument (matchIndices symbol content).

(** The search window of a hint location. *)
Definition hintRange (document : TextDocument) (location : Range) : Range :=
  if negb (isEmpty location) then location
  else newRange (line (range_start location)) 0 (lineCount document) 0.

(** The part of the loop body that starts at [if (hint.location)]. *)
Definition findInHint (U : Utils) (H : Host) (symbol : string)
    (document : TextDocument) (hint : LookupSymbolHint U)
    : Completion (option (SymbolInfo U)) :=
  bindC
    (match hint_location hint with
     | Some l =>
         match chatPanelLocationToVSCodeRange U l with
         | Some location =>
             let range := hintRange document location in
             let content := getText document (Some range) in
             let offset := offsetAt document (range_start range) in
             findSymbolInContent U H symbol document content offset
         | None => Return None
         end
     | None => Return None
     end)
    (fun symbolInfo =>
       match symbolInfo with
       | Some info => Return (Some info)
       | None =>
           findSymbolInContent U H symbol document (getText document None) 0
       end).

(** [for (const hint of hints ?? [])] *)
Fixpoint hintLoop (U : Utils) (H : Host) (symbol : string)
    (hints : list (LookupSymbolHint U)) : Completion (option (SymbolInfo U)) :=
  match hints with
  | [] => Return None
  | hint :: rest =>
      match hint_filepath hint with
      | None => hintLoop U H symbol rest
      | Some filepath =>
          match chatPanelFilepathToLocalUri U filepath with
          | None => hintLoop U H symbol rest
          | Some uri =>
              match tryCatch (openTextDocument H uri) (fun _ => None) with
              | None => hintLoop U H symbol rest
              | Some document =>
                  bindC (findInHint U H symbol document hint)
                    (fun symbolInfo =>
                       match symbolInfo with
                       | Some info => Return (Some info)
                       | None => hintLoop U H symbol rest
                       end)
              end
          end
      end
  end.

Definition lookupSymbol (U : Utils) (H : Host) (symbol : string)
    (hints : option (list (LookupSymbolHint U)))
    : Completion (option (SymbolInfo U)) :=
  if negb (isSimpleIdentifier symbol) then Return None
  else hintLoop U H symbol (default [] hints).

(** ** Strings of [listSymbols] *)

Definition lowerChar (c : ascii) : ascii :=
  let n := nat_of_ascii c in
  if ((65 <=? n) && (n <=? 90))%nat then ascii_of_nat (n + 32) else c.

(** [s.toLowerCase()] *)
Fixpoint toLowerCase (s : string) : string :=
  match s with
  | EmptyString => EmptyString
  | String c rest => String (lowerChar c) (toLowerCase rest)
  end.

(** [hay.startsWith(needle)] *)
Definition startsWith (hay needle : string) : bool := String.prefix needle hay.

(** [hay.includes(needle)] *)
Fixpoint includes (hay needle : string) : bool :=
  String.prefix needle hay
  || match hay with
     | EmptyString => false
     | String _ rest => includes rest needle
     end.

(** A number in a template literal. *)
Definition showNumber (n : Z) : string :=
  pretty n.

(** [array.slice(0, end)] *)
Definition slice0 {A} (l : list A) (endIndex : Z) : list A :=
  let len := Z.of_nat (length l) in
  let e := if endIndex <? 0 then Z.max (len + endIndex) 0 else Z.min endIndex len in
  firstn (Z.to_nat e) l.

(** [array.sort(compare)]: a stable sort; an element goes in front of the
    first sorted element that the comparison does not put before it. *)
Fixpoint insertSorted {A} (compare : A -> A -> Z) (x : A) (sorted : list A) : list A :=
  match sorted with
  | [] => [x]
  | y :: rest =>
      if 0 <? compare x y then y :: insertSorted compare x rest
      else x :: sorted
  end.

Definition stableSort {A} (compare : A -> A -> Z) (l : list A) : list A :=
  fold_right (insertSorted compare) [] l.

(** ** [listSymbols] *)

Record ListSymbolItem (U : Utils) := {
  item_filepath : Filepath U;
  item_range : LineRange;
  item_label : string
}.
Arguments item_filepath {U} _.
Arguments item_range {U} _.
Arguments item_label {U} _.

(** The commands [listSymbols] runs on the host, in order. *)
Inductive HostCommand :=
  | ExecuteDocumentSymbolProvider (uri : Uri)
  | ExecuteWorkspaceSymbolProvider (query : string).

(** [if (!limit || limit < 0) limit = 20] *)
Definition effectiveLimit (limit : option Z) : Z :=
  match limit with
  | None => 20
  | Some l => if (l =? 0) || (l <? 0) then 20 else l
  end.

(** [new SymbolInformation(current.name, current.kind, current.detail,
    new Location(editor.document.uri, current.range))] *)
Definition convertDocumentSymbol (uri : Uri) (name : string) (kind : nat)
    (detail : string) (range : Range) : SymbolInformation :=
  {| symbol_name := name; symbol_kind := kind; containerName := Some detail;
     symbol_location := {| location_uri := uri; location_range := range |} |}.

(** The loop [while (queue.length > 0 && result.length < limit)] of
    [getDocumentSymbols].  Every round pushes one symbol on [result], so
    [limit] rounds are enough; [fuel] counts them. *)
Fixpoint bfsLoop (uri : Uri) (limit : Z) (fuel : nat) (queue : list SymbolNode)
    (result : list SymbolInformation) : list SymbolInformation :=
  match fuel with
  | O => result
  | S fuel' =>
      match queue with
      | [] => result
      | current :: queue' =>
          if negb (Z.of_nat (length result) <? limit) then result
          else
            match current with
            | IsDocumentSymbol name kind detail range children =>
                let result' :=
                  result ++ [convertDocumentSymbol uri name kind detail range] in
                if limit <=? Z.of_nat (length result') then result'
                else bfsLoop uri limit fuel' (queue' ++ children) result'
            | IsSymbolInformation s =>
                let result' := result ++ [s] in
                if limit <=? Z.of_nat (length result') then result'
                else bfsLoop uri limit fuel' queue' result'
            end
      end
  end.

(** [getDocumentSymbols], after the provider has answered [symbols]. *)
Definition getDocumentSymbols (uri : Uri) (limit : Z) (symbols : list SymbolNode)
    : list SymbolInformation :=
  bfsLoop uri limit (Z.to_nat limit) symbols [].

Definition symbolToItem (U : Utils) (symbol : SymbolInformation)
    (filepath : Filepath U) : ListSymbolItem U :=
  {| item_filepath := filepath;
     item_range := vscodeRangeToChatPanelLineRange U
                     (location_range (symbol_location symbol));
     item_label := symbol_name symbol |}.

(** [getWorkspaceSymbols]: a failure of the provider gives no symbols. *)
Definition getWorkspaceSymbols (U : Utils) (H : Host) (query : string)
    : list (ListSymbolItem U) :=
  tryCatch
    (bindC (executeWorkspaceSymbolProvider H query)
       (fun symbols =>
          Return
            (map (fun symbol =>
                    {| item_filepath :=
                         localUriToChatPanelFilepath U
                           (location_uri (symbol_location symbol));
                       item_range :=
                         vscodeRangeToChatPanelLineRange U
                           (location_range (symbol_location symbol));
                       item_label := symbol_name symbol |})
               (default [] symbols))))
    (fun _ => []).

Definition filterSymbols (symbols : list SymbolInformation) (query : string)
    : list SymbolInformation :=
  let lowerQuery := toLowerCase query in
  List.filter
    (fun s =>
       includes (toLowerCase (symbol_name s)) lowerQuery
       || match containerName s with
          | Some c => includes (toLowerCase c) lowerQuery
          | None => false
          end)
    symbols.

(** [`${item.filepath}-${item.label}-${item.range.start}-${item.range.end}`] *)
Definition itemKey (U : Utils) (item : ListSymbolItem U) : string :=
  (Filepath_toString U (item_filepath item) ++ "-" ++ item_label item ++ "-"
   ++ showNumber (lr_start (item_range item)) ++ "-"
   ++ showNumber (lr_end (item_range item)))%string.

(** [for (const item of allItems) if (!seen.has(key)) { seen.add(key); uniqueItems.push(item) }] *)
Fixpoint uniqueLoop (U : Utils) (allItems : list (ListSymbolItem U))
    (seen : gset string) (uniqueItems : list (ListSymbolItem U))
    : list (ListSymbolItem U) :=
  match allItems with
  | [] => uniqueItems
  | item :: rest =>
      let key := itemKey U item in
      if bool_decide (key ∈ seen) then uniqueLoop U rest seen uniqueItems
      else uniqueLoop U rest ({[key]} ∪ seen) (uniqueItems ++ [item])
  end.

Definition getMatchScore (query label : string) : Z :=
  let lowerLabel := toLowerCase label in
  let lowerQuery := toLowerCase query in
  if String.eqb lowerLabel lowerQuery then 3
  else if startsWith lowerLabel lowerQuery then 2
  else if includes lowerLabel lowerQuery then 1
  else 0.

(** The comparison handed to [uniqueItems.sort]. *)
Definition compareItems (U : Utils) (query : string) (a b : ListSymbolItem U) : Z :=
  let scoreA := getMatchScore query (item_label a) in
  let scoreB := getMatchScore query (item_label b) in
  if negb (scoreB =? scoreA) then scoreB - scoreA
  else strlen (item_label a) - strlen (item_label b).

Definition mergeResults (U : Utils) (local workspace : list (ListSymbolItem U))
    (query : string) (limit : Z) : list (ListSymbolItem U) :=
  let allItems := local ++ workspace in
  let uniqueItems := uniqueLoop U allItems ∅ [] in
  slice0 (stableSort (compareItems U query) uniqueItems) limit.

(** [listSymbols]: the items returned and the commands run on the host. *)
Definition listSymbols (U : Utils) (H : Host) (query : string) (limit : option Z)
    : list (ListSymbolItem U) * list HostCommand :=
  match activeTextEditor H with
  | None => ([], [])
  | Some editor =>
      let limit := effectiveLimit limit in
      let uri := document_uri (editor_document editor) in
      match executeDocumentSymbolProvider H uri with
      | Throw _ => ([], [ExecuteDocumentSymbolProvider uri])
      | Return symbols =>
          let defaultSymbols := getDocumentSymbols uri limit (default [] symbols) in
          let filepath := localUriToChatPanelFilepath U uri in
          if String.eqb query EmptyString then
            (map (fun symbol => symbolToItem U symbol filepath)
               (slice0 defaultSymbols limit),
             [ExecuteDocumentSymbolProvider uri])
          else
            let filteredDefault := filterSymbols defaultSymbols query in
            let workspaceSymbols := getWorkspaceSymbols U H query in
            (mergeResults U
               (map (fun s => symbolToItem U s filepath) filteredDefault)
               workspaceSymbols query limit,
             [ExecuteDocumentSymbolProvider uri;
              ExecuteWorkspaceSymbolProvider query])
      end
  end.

(** The breadth-first flattening in the words of the specification: the
    symbols of depth 0 from left to right, then those of depth 1, and so
    on. *)
Definition childrenOf (n : SymbolNode) : list SymbolNode :=
  match n with
  | IsDocumentSymbol _ _ _ _ children => children
  | IsSymbolInformation _ => []
  end.

Fixpoint atDepth (d : nat) (forest : list SymbolNode) : list SymbolNode :=
  match d with
  | O => forest
  | S d' => atDepth d' (flat_map childrenOf forest)
  end.

Fixpoint nodeHeight (n : SymbolNode) : nat :=
  match n with
  | IsDocumentSymbol _ _ _ _ children =>
      S (fold_right (fun c h => Nat.max (nodeHeight c) h) O children)
  | IsSymbolInformation _ => 1%nat
  end.

Definition forestHeight (forest : list SymbolNode) : nat :=
  fold_right (fun c h => Nat.max (nodeHeight c) h) O forest.

Definition breadthFirst (forest : list SymbolNode) : list SymbolNode :=
  flat_map (fun d => atDepth d forest) (seq 0 (forestHeight forest)).

Definition nodeToSymbol (uri : Uri) (n : SymbolNode) : SymbolInformation :=
  match n with
  | IsDocumentSymbol name kind detail range _ =>
      convertDocumentSymbol uri name kind detail range
  | IsSymbolInformation s => s
  end.

(** ** [readWorkspaceGitRepositories] *)

(** What the handler reads besides the host: the workspace folders, the
    repository of a file and the default remote of a repository. *)
Record GitWorkspace (G : GitProvider) := {
  workspaceFolders : option (list Uri);
  getRepository : Uri -> option (Repository G);
  getDefaultRemoteUrl : Repository G -> option string
}.
Arguments workspaceFolders {G} _.
Arguments getRepository {G} _ _.
Arguments getDefaultRemoteUrl {G} _ _.

(** [if (gitRemoteUrl)]: a remote that is [undefined] or empty is none. *)
Definition truthyString (s : option string) : option string :=
  match s with
  | Some EmptyString => None
  | other => other
  end.

(** [gitRemoteUrl !== activeGitUrl] *)
Definition differsFrom (url : string) (activeGitUrl : option string) : bool :=
  match activeGitUrl with
  | Some active => negb (String.eqb url active)
  | None => true
  end.

(** [for (const folder of workspaceFolder)] *)
Fixpoint folderLoop (G : GitProvider) (W : GitWorkspace G)
    (activeGitUrl : option string) (folders : list Uri)
    (infoList : list string) : list string :=
  match folders with
  | [] => infoList
  | folder :: rest =>
      let infoList' :=
        match getRepository W folder with
        | Some repo =>
            match truthyString (getDefaultRemoteUrl W repo) with
            | Some gitRemoteUrl =>
                if differsFrom gitRemoteUrl activeGitUrl
                then infoList ++ [gitRemoteUrl]
                else infoList
            | None => infoList
            end
        | None => infoList
        end in
      folderLoop G W activeGitUrl rest infoList'
  end.

(** The URLs of the [GitRepository] objects returned.  [activeGitUrl] is
    declared and never assigned. *)
Definition readWorkspaceGitRepositories (G : GitProvider) (W : GitWorkspace G)
    (H : Host) : list string :=
  let activeGitUrl : option string := None in
  let infoList :=
    match activeTextEditor H with
    | Some editor =>
        match getRepository W (document_uri (editor_document editor)) with
        | Some repo =>
            match truthyString (getDefaultRemoteUrl W repo) with
            | Some gitRemoteUrl => [gitRemoteUrl]
            | None => []
            end
        | None => []
        end
    | None => []
    end in
  folderLoop G W activeGitUrl (default [] (workspaceFolders W)) infoList.

(** ** [applyInEditor] *)

(** [\s] on the code units below 256: tab, line feed, vertical tab, form
    feed, carriage return, space and no-break space. *)
Definition isSpace (c : ascii) : bool :=
  let n := nat_of_ascii c in
  (((9 <=? n) && (n <=? 13)) || (n =? 32) || (n =? 160))%nat.

(** The match of [lineText] against the pattern of leading white space. *)
Fixpoint leadingWhitespace (lineText : string) : string :=
  match lineText with
  | EmptyString => EmptyString
  | String c rest =>
      if isSpace c then String c (leadingWhitespace rest) else EmptyString
  end.

(** [unit.repeat(count)] *)
Fixpoint repeatChar (unit : ascii) (count : nat) : string :=
  match count with
  | O => EmptyString
  | S count' => String unit (repeatChar unit count')
  end.

(** [content.replaceAll("\n", "\n" + indent)] *)
Fixpoint indentFollowingLines (content indent : string) : string :=
  match content with
  | EmptyString => EmptyString
  | String c rest =>
      if Ascii.eqb c newline
      then String newline (indent ++ indentFollowingLines rest indent)%string
      else String c (indentFollowingLines rest indent)
  end.

(** [document.lineAt(n).text], for a line of the document. *)
Definition lineTextAt (d : TextDocument) (n : nat) : string :=
  substring (offsetOfLine (document_text d) n) (lineLength (document_text d) n)
    (document_text d).

(** The text that [applyInEditor] puts in place of the selection. *)
Definition indentedContent (d : TextDocument) (selection : Range)
    (content : string) : string :=
  let lineText := lineTextAt d (line (range_start selection)) in
  let indent := leadingWhitespace lineText in
  let indentUnit :=
    match indent with
    | String c _ => Some c
    | EmptyString => None
    end in
  (* [Math.max(indent.length - selection.start.character, 0)] *)
  let indentAmountForTheFirstLine :=
    (String.length indent - character (range_start selection))%nat in
  let indentForTheFirstLine :=
    match indentUnit with
    | Some unit => repeatChar unit indentAmountForTheFirstLine
    | None => EmptyString
    end in
  (indentForTheFirstLine ++ indentFollowingLines content indent)%string.

(** [editor.edit((editBuilder) => editBuilder.replace(selection, indentedContent))] *)
Record TextEdit := {
  edit_range : Range;
  edit_text : string
}.

Definition applyInEditor (d : TextDocument) (selection : Range)
    (content : string) : TextEdit :=
  {| edit_range := selection; edit_text := indentedContent d selection content |}.

(** ** Server status, [checkStatusInfo] *)

(** The [semver] package as far as [checkStatusInfo] uses it: the coercion
    of a string to a version, the comparison of a version with a version
    string, and the text of a version inside a template string. *)
Record SemverPackage := {
  SemVer : Type;
  semver_coerce : string -> option SemVer;
  semver_lt : SemVer -> string -> bool;
  SemVer_toString : SemVer -> string
}.

(** A value of [serverHealth], a [Record<string, unknown>]: a scalar or an
    object with fields of its own. *)
Inductive HealthValue :=
  | HealthScalar (v : JsValue)
  | HealthObject (fields : gmap string JsValue).

(** A value taken as a condition. *)
Definition truthy (v : JsValue) : bool :=
  match v with
  | JNull => false
  | JBool b => b
  | JNum n => negb (n =? 0)
  | JStr s => negb (String.eqb s EmptyString)
  end.

(** [health[key]] taken as a condition; a key that is not there reads
    [undefined], an object is always true. *)
Definition healthTruthy (v : option HealthValue) : bool :=
  match v with
  | None => false
  | Some (HealthScalar v) => truthy v
  | Some (HealthObject _) => true
  end.

Record StatusInfo := {
  status : string;
  serverHealth : option (gmap string HealthValue)
}.

Definition MIN_VERSION : string := "0.27.0".

Definition doubleQuote : string := String "034"%char EmptyString.

(** The version that [checkStatusInfo] reads out of a true
    [health["version"]]: a string is coerced, and so is the string under
    [git_describe] of an object; anything else gives no version. *)
Definition coercedVersion (SV : SemverPackage) (version : option HealthValue)
    : option (SemVer SV) :=
  match version with
  | Some (HealthScalar (JStr s)) => semver_coerce SV s
  | Some (HealthObject fields) =>
      match fields !! "git_describe" with
      | Some (JStr s) => semver_coerce SV s
      | _ => None
      end
  | _ => None
  end.

(** The error message, or [None] for [undefined]. *)
Definition checkStatusInfo (SV : SemverPackage) (statusInfo : option StatusInfo)
    : option string :=
  match statusInfo with
  | None =>
      Some ("Connecting to the Tabby server...<br/><span class=" ++ doubleQuote
            ++ "loader" ++ doubleQuote ++ "></span>")%string
  | Some info =>
      if String.eqb (status info) "connecting" then
        Some ("Connecting to the Tabby server...<br/><span class=" ++ doubleQuote
              ++ "loader" ++ doubleQuote ++ "></span>")%string
      else if String.eqb (status info) "unauthorized" then
        Some "Your token is invalid.<br/><a href='command:tabby.updateToken'><b>Update Token</b></a>"
      else if String.eqb (status info) "disconnected" then
        Some "Failed to connect to the Tabby server.<br/><a href='command:tabby.connectToServer'><b>Connect To Server</b></a>"
      else
        match serverHealth info with
        | None => Some "Cannot get the health status of the Tabby server."
        | Some health =>
            if negb (healthTruthy (health !! "webserver"))
               || negb (healthTruthy (health !! "chat_model"))
            then
              Some "You need to launch the server with the chat model enabled; for example, use `--chat-model Qwen2-1.5B-Instruct`."
            else if healthTruthy (health !! "version") then
              match coercedVersion SV (health !! "version") with
              | Some version =>
                  if semver_lt SV version MIN_VERSION then
                    Some ("Tabby Chat requires Tabby server version "
                          ++ MIN_VERSION
                          ++ " or later. Your server is running version "
                          ++ SemVer_toString SV version ++ ".")%string
                  else None
              | None => None
              end
            else None
        end
  end.

(** ** The page and the life cycle *)

(** [webview.html]: which template was filled, and what was put for
    [{{RELOAD_COUNT}}] and for [{{SERVER_ENDPOINT}}] or [{{ERROR_MESSAGE}}].
    The two asset addresses are the same at every load of a webview. *)
Inductive Html :=
  | MainHtml (count : N) (serverEndpoint : string)
  | ErrorHtml (count : N) (errorMessage : string).

(** The webview handed to [init]; [html] is [None] until a page is assigned. *)
Record Webview := {
  html : option Html
}.

(** What the entries of [disposables] unregister. *)
Inductive Listener :=
  | StatusListener
  | ActiveEditorListener
  | SelectionListener
  | MessageListener.

(** [Config], of which the class reads [server]. *)
Record Config := {
  server : ServerConfig
}.

(** The whole state of the class: the fields of [ChatWebview] above, and
    the webview, the registered listeners, the reload counter and the
    callbacks waiting for a [jsCallback] message.  Each callback of
    [pendingCallbacks] resolves the promise of the [isFocused] call that
    registered it; [focusResolved] lists the promises resolved so far, by
    the id of their callback and with the value they were given. *)
Record Panel := {
  core : ChatWebview;
  webview : option Webview;
  disposables : list Listener;
  reloadCount : N;
  pendingCallbacks : gset string;
  focusResolved : list (string * option JsValue)
}.

Definition with_core (c : ChatWebview) (p : Panel) : Panel :=
  {| core := c; webview := webview p; disposables := disposables p;
     reloadCount := reloadCount p; pendingCallbacks := pendingCallbacks p;
     focusResolved := focusResolved p |}.

Definition with_webview (w : option Webview) (p : Panel) : Panel :=
  {| core := core p; webview := w; disposables := disposables p;
     reloadCount := reloadCount p; pendingCallbacks := pendingCallbacks p;
     focusResolved := focusResolved p |}.

Definition with_disposables (ds : list Listener) (p : Panel) : Panel :=
  {| core := core p; webview := webview p; disposables := ds;
     reloadCount := reloadCount p; pendingCallbacks := pendingCallbacks p;
     focusResolved := focusResolved p |}.

(** [this.reloadCount += 1; webview.html = page] with the new count. *)
Definition assignHtml (page : N -> Html) (p : Panel) : Panel :=
  let count := (reloadCount p + 1)%N in
  {| core := core p; webview := Some {| html := Some (page count) |};
     disposables := disposables p; reloadCount := count;
     pendingCallbacks := pendingCallbacks p;
     focusResolved := focusResolved p |}.

(** [loadChatPanel], up to the call of [initChatPanel], which waits for
    the handle and goes on later, see [clientCreated]. *)
Definition loadChatPanel (p : Panel) : Panel :=
  match webview p with
  | None => p
  | Some _ =>
      let p1 := with_core (with_client None (core p)) p in
      let p2 := with_core (emit [Emit "didChangedStatus" "loading"] (core p1)) p1 in
      let serverEndpoint :=
        match currentConfig (core p2) with
        | Some cfg => endpoint cfg
        | None => EmptyString
        end in
      assignHtml (fun count => MainHtml count serverEndpoint) p2
  end.

Definition loadErrorPage (message : string) (p : Panel) : Panel :=
  match webview p with
  | None => p
  | Some _ =>
      let p1 := with_core (with_client None (core p)) p in
      let p2 := with_core (emit [Emit "didChangedStatus" "error"] (core p1)) p1 in
      assignHtml (fun count => ErrorHtml count message) p2
  end.

(** [this.currentConfig?.endpoint !== config.server.endpoint ||
    this.currentConfig?.token !== config.server.token] *)
Definition configChanged (current : option ServerConfig) (config : Config) : bool :=
  match current with
  | None => true
  | Some cfg =>
      negb (String.eqb (endpoint cfg) (endpoint (server config)))
      || negb (String.eqb (token cfg) (token (server config)))
  end.

(** [checkStatusAndLoadContent]; [statusInfo] is what
    [this.lspClient.status.current] reads at the call, and [config] what
    [this.lspClient.agentConfig.current] reads. *)
Definition checkStatusAndLoadContent (SV : SemverPackage)
    (statusInfo : option StatusInfo) (config : option Config) (p : Panel) : Panel :=
  match truthyString (checkStatusInfo SV statusInfo) with
  | Some error =>
      loadErrorPage error (with_core (with_currentConfig None (core p)) p)
  | None =>
      match config with
      | None =>
          loadErrorPage "Cannot get the server configuration."
            (with_core (with_currentConfig None (core p)) p)
      | Some config =>
          if configChanged (currentConfig (core p)) config
          then loadChatPanel
                 (with_core (with_currentConfig (Some (server config)) (core p)) p)
          else p
      end
  end.

(** The rest of [initChatPanel], run when the handle [c] has arrived. *)
Definition clientCreated (isMac : bool) (c : ServerApiList) (p : Panel)
    : Panel * Completion unit :=
  let '(w, result) := initChatPanel isMac c (core p) in
  (with_core w p, result).

(** [init(webview)], as far as the status, the page and the callbacks go;
    the two editor listeners are registered and do nothing here. *)
Definition init (SV : SemverPackage) (w : Webview)
    (statusInfo : option StatusInfo) (config : option Config) (p : Panel) : Panel :=
  let p1 := with_webview (Some w) p in
  let p2 := with_disposables (disposables p1 ++ [StatusListener]) p1 in
  let p3 := checkStatusAndLoadContent SV statusInfo config p2 in
  with_disposables
    (disposables p3 ++ [ActiveEditorListener; SelectionListener; MessageListener])
    p3.

Definition dispose (p : Panel) : Panel :=
  {| core :=
       with_currentConfig None
         (with_createClientTimeout false (with_client None (core p)));
     webview := None; disposables := [];
     reloadCount := reloadCount p; pendingCallbacks := pendingCallbacks p;
     focusResolved := focusResolved p |}.

(** [lspClient.status] emits [didChange]: every listener registered by
    [init] and not disposed of runs [checkStatusAndLoadContent]. *)
Definition statusDidChange (SV : SemverPackage) (statusInfo : option StatusInfo)
    (config : option Config) (p : Panel) : Panel :=
  fold_left
    (fun p listener =>
       match listener with
       | StatusListener => checkStatusAndLoadContent SV statusInfo config p
       | _ => p
       end)
    (disposables p) p.

(** The outcome of a call of [isFocused]: the promise is resolved at once,
    or it waits for the callback registered under an id. *)
Inductive FocusAnswer :=
  | FocusResolved (focused : bool)
  | FocusPending (id : string).

(** [isFocused]; [id] is what [uuid()] gives at the call. *)
Definition isFocused (id : string) (p : Panel) : Panel * FocusAnswer :=
  match webview p with
  | None => (p, FocusResolved false)
  | Some _ =>
      ({| core := emit [PostMessage "checkFocused"] (core p);
          webview := webview p; disposables := disposables p;
          reloadCount := reloadCount p;
          pendingCallbacks := {[id]} ∪ pendingCallbacks p;
          focusResolved := focusResolved p |},
       FocusPending id)
  end.

(** The case [jsCallback] of the message handler:
    [this.pendingCallbacks.get(event.id)?.(...event.args)] resolves the
    promise with [args[0]], then the callback is deleted. *)
Definition onJsCallback (id : string) (args : list JsValue) (p : Panel) : Panel :=
  if bool_decide (id ∈ pendingCallbacks p) then
    {| core := core p; webview := webview p; disposables := disposables p;
       reloadCount := reloadCount p;
       pendingCallbacks := pendingCallbacks p ∖ {[id]};
       focusResolved := focusResolved p ++ [(id, head args)] |}
  else p.

(** The webview sends a [jsCallback] message: every message listener
    registered by [init] and not disposed of handles it. *)
Definition receiveJsCallback (id : string) (args : list JsValue) (p : Panel) : Panel :=
  fold_left
    (fun p listener =>
       match listener with
       | MessageListener => onJsCallback id args p
       | _ => p
       end)
    (disposables p) p.

(** * Notions used in the statements, and sample inputs *)

(** ** Session state *)

Definition blankWebview : ChatWebview :=
  {| client := None; currentConfig := None; createClientTimeout := false;
     pendingActions := []; sessionStateMap := ∅; trace := [];
     rejected := [] |}.

Definition serverA : ServerConfig :=
  {| endpoint := "http://a.example"; token := "ta" |}.
Definition serverB : ServerConfig :=
  {| endpoint := "http://b.example"; token := "tb" |}.

(** ** The deferred action queue *)

(** A host-to-panel operation that queues when there is no handle. *)
Inductive HostOperation :=
  | OpSetActiveSelection (selection : EditorContext)
  | OpAddRelevantContext (context : EditorContext)
  | OpExecuteCommand (command : ChatCommand).

Definition invoke (op : HostOperation) (w : ChatWebview)
    : ChatWebview * Completion unit :=
  match op with
  | OpSetActiveSelection selection => setActiveSelection selection w
  | OpAddRelevantContext context => addRelevantContext context w
  | OpExecuteCommand command => executeCommand command w
  end.

(** The closure that the operation pushes. *)
Definition deferred (op : HostOperation) : PendingAction :=
  match op with
  | OpSetActiveSelection selection => PendingSetActiveSelection selection
  | OpAddRelevantContext context => PendingAddRelevantContext context
  | OpExecuteCommand command => PendingExecuteCommand command
  end.

(** The call on the panel that an operation makes through the handle [c]. *)
Definition invocation (c : ServerApiList) (op : HostOperation)
    : Completion (list Event) :=
  match op with
  | OpSetActiveSelection selection =>
      callMethod (c !! "0.8.0") "0.8.0" M_updateActiveSelection
        (ArgSelection (Some selection))
  | OpAddRelevantContext context =>
      match kind context with
      | KindTerminal =>
          callMethodOpt (c !! "0.10.0") "0.10.0" M_addRelevantContext
            (ArgContext context)
      | KindFile =>
          callMethod (c !! "0.8.0") "0.8.0" M_addRelevantContext
            (ArgContext context)
      end
  | OpExecuteCommand command =>
      if String.eqb command "explain-terminal" then
        callMethodOpt (c !! "0.10.0") "0.10.0" M_executeCommand
          (ArgCommand command)
      else
        callMethod (c !! "0.8.0") "0.8.0" M_executeCommand (ArgCommand command)
  end.

Definition operationOf (fn : PendingAction) : HostOperation :=
  match fn with
  | PendingSetActiveSelection selection => OpSetActiveSelection selection
  | PendingAddRelevantContext context => OpAddRelevantContext context
  | PendingExecuteCommand command => OpExecuteCommand command
  end.

Definition pendingLogLine (fn : PendingAction) : LogLine :=
  match fn with
  | PendingSetActiveSelection selection => LogSetPendingActiveSelection selection
  | PendingAddRelevantContext context => LogAddingPendingRelevantContext context
  | PendingExecuteCommand command => LogExecutingPendingCommand command
  end.

(** What one queued closure adds to the trace when it runs with the handle
    [c] in place: its log line, then its call on the panel unless the call
    throws. *)
Definition pendingEvents (c : ServerApiList) (fn : PendingAction) : list Event :=
  LogInfo (pendingLogLine fn)
  :: match invocation c (operationOf fn) with
     | Return es => es
     | Throw e => []
     end.

(** The error that the promise of a queued closure is rejected with, when
    its call throws. *)
Definition pendingRejections (c : ServerApiList) (fn : PendingAction)
    : list JsError :=
  match invocation c (operationOf fn) with
  | Return es => []
  | Throw e => [e]
  end.

(** The events [es] and the rejections [errors] added to a state. *)
Definition settled (es : list Event) (errors : list JsError) (w : ChatWebview)
    : ChatWebview :=
  {| client := client w; currentConfig := currentConfig w;
     createClientTimeout := createClientTimeout w;
     pendingActions := pendingActions w;
     sessionStateMap := sessionStateMap w; trace := trace w ++ es;
     rejected := rejected w ++ errors |}.

(** The runs of queued closures that a trace records: every closure writes
    its own log line first. *)
Definition ranPending (e : Event) : option PendingAction :=
  match e with
  | LogInfo (LogSetPendingActiveSelection selection) =>
      Some (PendingSetActiveSelection selection)
  | LogInfo (LogAddingPendingRelevantContext context) =>
      Some (PendingAddRelevantContext context)
  | LogInfo (LogExecutingPendingCommand command) =>
      Some (PendingExecuteCommand command)
  | _ => None
  end.

Definition pendingRuns (tr : list Event) : list PendingAction :=
  omap ranPending tr.

Definition directLogLine (op : HostOperation) : LogLine :=
  match op with
  | OpSetActiveSelection selection => LogSetActiveSelection selection
  | OpAddRelevantContext context => LogAddingRelevantContext context
  | OpExecuteCommand command => LogExecutingCommand command
  end.

Definition allMethods : ServerApi :=
  [M_init; M_updateTheme; M_updateActiveSelection; M_addRelevantContext;
   M_executeCommand; M_navigate].

Definition baseHandle : ServerApiList := {["0.8.0" := allMethods]}.

Definition fileSelection : EditorContext :=
  {| kind := KindFile; content := "let x = 1;" |}.

(** ** Version probing *)

Definition terminalContext : EditorContext :=
  {| kind := KindTerminal; content := "npm test" |}.

(** A handle whose key 0.10.0 exposes the two terminal operations. *)
Definition terminalHandle : ServerApiList :=
  <["0.10.0" := [M_addRelevantContext; M_executeCommand]]> baseHandle.

(** ** Change collection *)

Definition changeItem (stagedFlag : bool) (diff : string) : ChangeItem :=
  {| change_content := diff; staged := stagedFlag |}.

Definition totalLength (diffs : list string) : Z :=
  fold_right (fun diff acc => strlen diff + acc) 0 diffs.

(** The result that the specification's policy gives: one first-fit-or-stop
    pass over the staged diffs of all repositories, then one over the
    unstaged diffs with what is left of the budget. *)
Definition claimedChanges (G : GitProvider) (repositories : list (Repository G))
    (maxChars : Z) : list ChangeItem :=
  let stagedDiffs := firstFitOrStop maxChars (allDiffs G repositories true) in
  let unstagedDiffs :=
    firstFitOrStop (maxChars - totalLength stagedDiffs)
      (allDiffs G repositories false) in
  map (changeItem true) stagedDiffs ++ map (changeItem false) unstagedDiffs.

(** Two repositories: the only staged diff of the first has 12 characters,
    the only staged diff of the second has 2; nothing is unstaged. *)
Definition twoRepositories : GitProvider :=
  {| Repository := string;
     isApiAvailable := true;
     getRepositories := Some ["first"; "second"];
     getDiff := fun repo stagedFlag =>
       if stagedFlag then
         if String.eqb repo "first" then Some ["123456789012"]
         else Some ["ab"]
       else Some [] |}.

(** ** The symbols of the active document *)

(** The order in which a queue hands out the nodes of a forest: the head,
    then what the rest of the queue followed by the head's children hands
    out. *)
Inductive queueOrder : list SymbolNode -> list SymbolNode -> Prop :=
  | queueOrder_nil : queueOrder [] []
  | queueOrder_cons (n : SymbolNode) (queue out : list SymbolNode) :
      queueOrder (queue ++ childrenOf n) out ->
      queueOrder (n :: queue) (n :: out).

Fixpoint nodeSize (n : SymbolNode) : nat :=
  match n with
  | IsDocumentSymbol _ _ _ _ children =>
      S (fold_right (fun c s => (nodeSize c + s)%nat) O children)
  | IsSymbolInformation _ => 1%nat
  end.

(** The number of symbols in a forest. *)
Definition forestSize (forest : list SymbolNode) : nat :=
  fold_right (fun c s => (nodeSize c + s)%nat) O forest.

(** An instance of the helpers in which a [Filepath] is the path itself and
    the panel counts lines from 1. *)
Definition pathUtils : Utils :=
  {| Filepath := string;
     ChatLocation := Range;
     chatPanelFilepathToLocalUri := fun filepath => Some filepath;
     localUriToChatPanelFilepath := fun uri => uri;
     chatPanelLocationToVSCodeRange := fun location => Some location;
     vscodePositionToChatPanelPosition := fun p =>
       {| line := S (line p); character := S (character p) |};
     vscodeRangeToChatPanelPositionRange := fun r =>
       {| range_start := {| line := S (line (range_start r));
                            character := S (character (range_start r)) |};
          range_end := {| line := S (line (range_end r));
                          character := S (character (range_end r)) |} |};
     vscodeRangeToChatPanelLineRange := fun r =>
       {| lr_start := Z.of_nat (line (range_start r)) + 1;
          lr_end := Z.of_nat (line (range_end r)) + 1 |};
     Filepath_toString := fun filepath => filepath |}.

Definition functionSymbol (n : nat) : SymbolNode :=
  IsDocumentSymbol "f" 11 EmptyString (newRange n 0 n 20) [].

Definition mainDocument : TextDocument :=
  {| document_uri := "/work/main.ts"; document_text := EmptyString |}.

(** A host whose active document has [count] top-level symbols. *)
Definition hostWithSymbols (count : nat) : Host :=
  {| activeTextEditor := Some {| editor_document := mainDocument |};
     openTextDocument := fun _ => Return None;
     executeDefinitionProvider := fun _ _ => Return None;
     executeDocumentSymbolProvider := fun _ =>
       Return (Some (map functionSymbol (seq 0 count)));
     executeWorkspaceSymbolProvider := fun _ => Return None |}.

(** The item that stands for a symbol of a document: the file path of the
    document, the line range of the symbol's range, and the symbol's name. *)
Definition nodeName (n : SymbolNode) : string :=
  match n with
  | IsDocumentSymbol name _ _ _ _ => name
  | IsSymbolInformation s => symbol_name s
  end.

Definition nodeRange (n : SymbolNode) : Range :=
  match n with
  | IsDocumentSymbol _ _ _ range _ => range
  | IsSymbolInformation s => location_range (symbol_location s)
  end.

Definition itemOfNode (U : Utils) (uri : Uri) (n : SymbolNode) : ListSymbolItem U :=
  {| item_filepath := localUriToChatPanelFilepath U uri;
     item_range := vscodeRangeToChatPanelLineRange U (nodeRange n);
     item_label := nodeName n |}.

(** A named symbol on the lines [first] to [last], with children. *)
Definition namedSymbol (name : string) (first last : nat)
    (children : list SymbolNode) : SymbolNode :=
  IsDocumentSymbol name 5 EmptyString (newRange first 0 last 0) children.

(** A host whose active document has the symbols [A] (with [A1], which has
    [A1x], and [A2]), [B] (with [B1]) and [C]. *)
Definition nestedSymbols : list SymbolNode :=
  [namedSymbol "A" 0 8
     [namedSymbol "A1" 1 4 [namedSymbol "A1x" 2 3 []];
      namedSymbol "A2" 5 7 []];
   namedSymbol "B" 10 14 [namedSymbol "B1" 11 13 []];
   namedSymbol "C" 16 18 []].

Definition nestedHost : Host :=
  {| activeTextEditor := Some {| editor_document := mainDocument |};
     openTextDocument := fun _ => Return None;
     executeDefinitionProvider := fun _ _ => Return None;
     executeDocumentSymbolProvider := fun _ => Return (Some nestedSymbols);
     executeWorkspaceSymbolProvider := fun _ => Return None |}.

(** ** Merging local and workspace symbols *)

Definition symbolItem (filepath label : string) (first last : Z)
    : ListSymbolItem pathUtils :=
  {| item_filepath := (filepath : Filepath pathUtils);
     item_range := {| lr_start := first; lr_end := last |};
     item_label := label |}.

(** The fields that the specification names as the key. *)
Definition compositeKey (U : Utils) (item : ListSymbolItem U)
    : Filepath U * string * Z * Z :=
  (item_filepath item, item_label item,
   lr_start (item_range item), lr_end (item_range item)).

(** An instance of the helpers in which a [Filepath] is an object: a
    template literal turns every object into the same text. *)
Record FilepathObject := {
  filepath_kind : string;
  filepath_path : string
}.

Definition objectUtils : Utils :=
  {| Filepath := FilepathObject;
     ChatLocation := Range;
     chatPanelFilepathToLocalUri := fun filepath => Some (filepath_path filepath);
     localUriToChatPanelFilepath := fun uri =>
       {| filepath_kind := "uri"; filepath_path := uri |};
     chatPanelLocationToVSCodeRange := fun location => Some location;
     vscodePositionToChatPanelPosition := vscodePositionToChatPanelPosition pathUtils;
     vscodeRangeToChatPanelPositionRange :=
       vscodeRangeToChatPanelPositionRange pathUtils;
     vscodeRangeToChatPanelLineRange := vscodeRangeToChatPanelLineRange pathUtils;
     Filepath_toString := fun _ => "[object Object]" |}.

Definition objectItem (path label : string) (first last : Z)
    : ListSymbolItem objectUtils :=
  {| item_filepath :=
       ({| filepath_kind := "uri"; filepath_path := path |} : Filepath objectUtils);
     item_range := {| lr_start := first; lr_end := last |};
     item_label := label |}.

(** ** [lookupSymbol] *)

Definition joinLines (lines : list string) : string :=
  match lines with
  | [] => EmptyString
  | first :: rest =>
      fold_left (fun text l => (text ++ String newline l)%string) rest first
  end.

(** Seven lines; [x] occurs on line 0 only. *)
Definition appDocument : TextDocument :=
  {| document_uri := "/work/app.ts";
     document_text := joinLines ["x = 1"; EmptyString; EmptyString; EmptyString; EmptyString; "y = 2"; "z = y"] |}.

Definition definitionOfX : DefinitionResult :=
  IsLocation "/work/defs.ts" (newRange 10 4 10 5).

(** A host that opens [/work/app.ts] only and whose definition provider
    answers every query with [definitionOfX]. *)
Definition definitionHost : Host :=
  {| activeTextEditor := None;
     openTextDocument := fun uri =>
       if String.eqb uri "/work/app.ts" then Return (Some appDocument)
       else Throw (HostError "cannot open file");
     executeDefinitionProvider := fun _ _ => Return (Some [definitionOfX]);
     executeDocumentSymbolProvider := fun _ => Return None;
     executeWorkspaceSymbolProvider := fun _ => Return None |}.

(** The same host with a definition provider whose command rejects. *)
Definition rejectingHost : Host :=
  {| activeTextEditor := None;
     openTextDocument := openTextDocument definitionHost;
     executeDefinitionProvider := fun _ _ =>
       Throw (HostError "definition provider failed");
     executeDocumentSymbolProvider := fun _ => Return None;
     executeWorkspaceSymbolProvider := fun _ => Return None |}.

Definition hintAtLine (n : nat) : LookupSymbolHint pathUtils :=
  {| hint_filepath := Some ("/work/app.ts" : Filepath pathUtils);
     hint_location := Some (newRange n 0 n 0 : ChatLocation pathUtils) |}.

Definition hintWithoutLocation : LookupSymbolHint pathUtils :=
  {| hint_filepath := Some ("/work/app.ts" : Filepath pathUtils);
     hint_location := None |}.

(** ** Sequences of operations *)

(** The operations of a list invoked one after the other. *)
Definition invokeAll (ops : list HostOperation) (w : ChatWebview) : ChatWebview :=
  fold_left (fun w op => fst (invoke op w)) ops w.

Definition isNavigateCall (e : Event) : bool :=
  match e with
  | PanelCall _ M_navigate _ => true
  | _ => false
  end.

Definition isShowChatPanel (e : Event) : bool :=
  match e with
  | PostMessage action => String.eqb action "showChatPanel"
  | _ => false
  end.

(** A handle that lacks the key 0.8.0. *)
Definition terminalOnlyHandle : ServerApiList :=
  {["0.10.0" := [M_addRelevantContext; M_executeCommand]]}.

(** ** Ranking *)

(** [a] may stand before [b] in the ranking for [query]: a higher score, or
    the same score and a label that is not longer. *)
Definition rankedBefore (U : Utils) (query : string) (a b : ListSymbolItem U) : Prop :=
  getMatchScore query (item_label b) < getMatchScore query (item_label a)
  \/ (getMatchScore query (item_label a) = getMatchScore query (item_label b)
      /\ strlen (item_label a) <= strlen (item_label b)).

(** ** A provider without definitions *)

(** The host that opens [/work/app.ts] only, with a definition provider
    that answers every query with an empty list. *)
Definition emptyDefinitionHost : Host :=
  {| activeTextEditor := None;
     openTextDocument := openTextDocument definitionHost;
     executeDefinitionProvider := fun _ _ => Return (Some []);
     executeDocumentSymbolProvider := fun _ => Return None;
     executeWorkspaceSymbolProvider := fun _ => Return None |}.

(** ** Remotes *)

(** The remote of the repository that holds a file, when it has one. *)
Definition remoteOf (G : GitProvider) (W : GitWorkspace G) (uri : Uri)
    : option string :=
  match getRepository W uri with
  | Some repo => truthyString (getDefaultRemoteUrl W repo)
  | None => None
  end.

(** One repository with the remote [https://example.org/app.git] that holds
    every file, opened as the single workspace folder [/work]. *)
Definition oneRepository : GitProvider :=
  {| Repository := unit;
     isApiAvailable := true;
     getRepositories := Some [tt];
     getDiff := fun _ _ => Some [] |}.

Definition oneFolder : GitWorkspace oneRepository :=
  {| workspaceFolders := Some ["/work"];
     getRepository := fun _ => Some (tt : Repository oneRepository);
     getDefaultRemoteUrl := fun _ => Some "https://example.org/app.git" |}.

(** ** Editing *)

(** A document whose second line is indented by four spaces. *)
Definition indentedDocument : TextDocument :=
  {| document_uri := "/work/app.ts";
     document_text := joinLines ["function f() {"; "    return 1;"; "}"] |}.

(** ** Server status and life cycle *)

(** A server that the chat panel can be loaded for: its status is none of
    the three that are reported, its health is known and names a web
    server and a chat model, and the version it reports, where the class
    can read one, is not below the minimum. *)
Definition usableServer (SV : SemverPackage) (statusInfo : option StatusInfo) : Prop :=
  exists info health,
    statusInfo = Some info
    /\ status info <> "connecting"
    /\ status info <> "unauthorized"
    /\ status info <> "disconnected"
    /\ serverHealth info = Some health
    /\ healthTruthy (health !! "webserver") = true
    /\ healthTruthy (health !! "chat_model") = true
    /\ (healthTruthy (health !! "version") = true ->
        forall version,
          coercedVersion SV (health !! "version") = Some version ->
          semver_lt SV version MIN_VERSION = false).

(** What happens to an instance between two calls of the panel. *)
Inductive LifecycleStep :=
  | StepInit (w : Webview) (statusInfo : option StatusInfo) (config : option Config)
  | StepDispose
  | StepStatusDidChange (statusInfo : option StatusInfo) (config : option Config)
  | StepClientCreated (isMac : bool) (c : ServerApiList)
  | StepInvoke (op : HostOperation)
  | StepNavigate (view : ChatView)
  | StepIsFocused (id : string)
  | StepJsCallback (id : string) (args : list JsValue).

Definition lifecycleStep (SV : SemverPackage) (p : Panel) (s : LifecycleStep) : Panel :=
  match s with
  | StepInit w statusInfo config => init SV w statusInfo config p
  | StepDispose => dispose p
  | StepStatusDidChange statusInfo config => statusDidChange SV statusInfo config p
  | StepClientCreated isMac c => fst (clientCreated isMac c p)
  | StepInvoke op => with_core (fst (invoke op (core p))) p
  | StepNavigate view => with_core (fst (navigate view (core p))) p
  | StepIsFocused id => fst (isFocused id p)
  | StepJsCallback id args => receiveJsCallback id args p
  end.

Definition lifecycle (SV : SemverPackage) (steps : list LifecycleStep) (p : Panel)
    : Panel :=
  fold_left (lifecycleStep SV) steps p.

Definition isClientCreated (s : LifecycleStep) : bool :=
  match s with
  | StepClientCreated _ _ => true
  | _ => false
  end.

(** A stand-in for the [semver] package on versions written
    MAJOR.MINOR.PATCH, for the sample inputs. *)
Definition plainSemver : SemverPackage :=
  {| SemVer := N * N * N;
     semver_coerce := parseVersion;
     semver_lt := fun version other =>
       match parseVersion other with
       | Some o => negb (versionGeb version o)
       | None => false
       end;
     SemVer_toString := fun '(major, minor, patch) =>
       (pretty major ++ "." ++ pretty minor ++ "." ++ pretty patch)%string |}.

Definition healthOf (version : string) : gmap string HealthValue :=
  {[ "webserver" := HealthScalar (JBool true);
     "chat_model" := HealthScalar (JStr "Qwen2-1.5B-Instruct");
     "version" := HealthObject {[ "git_describe" := JStr version ]} ]}.

Definition readyStatus : StatusInfo :=
  {| status := "ready"; serverHealth := Some (healthOf "0.30.0") |}.

Definition disconnectedStatus : StatusInfo :=
  {| status := "disconnected"; serverHealth := None |}.

Definition configA : Config := {| server := serverA |}.

Definition freshWebview : Webview := {| html := None |}.

(** An instance right after its construction. *)
Definition newPanel : Panel :=
  {| core := blankWebview; webview := None; disposables := [];
     reloadCount := 0; pendingCallbacks := ∅; focusResolved := [] |}.

(** An instance that shows the chat page of endpoint A and holds a draft
    stored by the panel. *)
Definition panelWithDraft : Panel :=
  let shown :=
    init plainSemver freshWebview (Some readyStatus) (Some configA) newPanel in
  with_core (storeSessionState {["draft" := JStr "hello"]} (core shown)) shown.

(** * Properties *)

(** Settle a boolean comparison of the goal by linear arithmetic. *)
Ltac settle_ltb a b :=
  first [ rewrite (proj2 (Z.ltb_lt a b)) by lia
        | rewrite (proj2 (Z.ltb_ge a b)) by lia ].

Ltac settle_leb a b :=
  first [ rewrite (proj2 (Z.leb_le a b)) by lia
        | rewrite (proj2 (Z.leb_gt a b)) by lia ].

(** ** Session state *)

Lemma setProperty_other (key : string) (value : PropertyValue)
    (filtered : JsObject) (k : string) :
  k <> key ->
  properties (setProperty key value filtered) !! k = properties filtered !! k.
Proof.
  intros Hne. unfold setProperty.
  destruct (properties filtered !! key), (prototype filtered); simpl;
    try (by rewrite lookup_insert_ne).
  destruct (String.eqb key "__proto__"); simpl; [|by rewrite lookup_insert_ne].
  by destruct value as [[]|].
Qed.

Lemma setProperty_same (key : string) (value : PropertyValue) (filtered : JsObject) :
  key <> "__proto__" ->
  properties (setProperty key value filtered) !! key = Some value.
Proof.
  intros Hne. unfold setProperty.
  apply String.eqb_neq in Hne. rewrite Hne.
  destruct (properties filtered !! key), (prototype filtered); simpl;
    by rewrite lookup_insert_eq.
Qed.

(** The loop at a key other than [__proto__]: a listed key that passes the
    test [in] gets what a read of it gives, every other key keeps what
    [filtered] held. *)
Lemma fetchLoop_lookup (sessionState : gmap string JsValue) (keys : list string)
    (filtered : JsObject) (k : string) :
  k <> "__proto__" ->
  properties (fetchLoop sessionState keys filtered) !! k =
    if bool_decide (k ∈ keys) && hasProperty sessionState k
    then Some (getProperty sessionState k)
    else properties filtered !! k.
Proof.
  intros Hproto. revert filtered.
  induction keys as [|key rest IH]; intros filtered; cbn [fetchLoop].
  - by rewrite bool_decide_eq_false_2 by apply not_elem_of_nil.
  - assert (Hcons : bool_decide (k ∈ key :: rest)
                    = bool_decide (k = key) || bool_decide (k ∈ rest)).
    { apply eq_true_iff_eq. rewrite orb_true_iff, !bool_decide_eq_true.
      apply elem_of_cons. }
    rewrite Hcons. clear Hcons.
    destruct (decide (k = key)) as [->|Hne].
    + rewrite (bool_decide_eq_true_2 (key = key)) by done. simpl.
      destruct (hasProperty sessionState key) eqn:Hhas; rewrite IH.
      * rewrite setProperty_same by done. by destruct (bool_decide _).
      * by rewrite andb_false_r.
    + rewrite (bool_decide_eq_false_2 (k = key)) by done. simpl.
      destruct (hasProperty sessionState key); rewrite IH; [|done].
      by rewrite setProperty_other.
Qed.

Lemma sessionStateOf_store (state : gmap string JsValue) (w : ChatWebview) :
  sessionStateOf (storeSessionState state w) = state ∪ sessionStateOf w.
Proof.
  unfold sessionStateOf, storeSessionState, sessionStateKey; simpl.
  by rewrite lookup_insert_eq.
Qed.

Lemma hasProperty_own (sessionState : gmap string JsValue) (k : string) :
  k ∉ objectPrototypeNames ->
  hasProperty sessionState k = bool_decide (is_Some (sessionState !! k)).
Proof.
  intros Hk. unfold hasProperty. destruct (sessionState !! k) as [v|].
  - by rewrite bool_decide_eq_true_2.
  - rewrite bool_decide_eq_false_2 by done.
    rewrite bool_decide_eq_false_2; [done|]. by intros [v Hv].
Qed.

Lemma proto_in_objectPrototypeNames : "__proto__" ∈ objectPrototypeNames.
Proof. apply (bool_decide_unpack _). vm_compute. exact I. Qed.

(** C7 fails on the code for the names that every object inherits.
    [fetchSessionState(keys)] tests a listed key with [in], which is true
    of the names of [Object.prototype] too: for every other name the result
    holds the value stored under a listed key and nothing for a key that the
    state lacks, and after [storeSessionState({a: 1, b: 2})],
    [fetchSessionState(["a"])] is [{a: 1}]; but a listed name of
    [Object.prototype] that the state lacks is in the result, with what the
    state inherits under it, so that [fetchSessionState(["toString"])] on a
    state where nothing was stored is not empty. *)
Theorem fetchSessionState_copies_inherited_names (w : ChatWebview)
    (keys : list string) :
  (forall k : string,
      k ∉ objectPrototypeNames ->
      properties (fetchSessionState (Some keys) w) !! k =
        if bool_decide (k ∈ keys) then Stored <$> (sessionStateOf w !! k)
        else None)
  /\ fetchSessionState (Some ["a"])
       (storeSessionState (<["a" := JNum 1]> (<["b" := JNum 2]> ∅)) w)
     = {| properties := {["a" := Stored (JNum 1)]};
          prototype := ObjectPrototype |}
  /\ (forall k : string,
        k ∈ keys -> k ∈ objectPrototypeNames -> k <> "__proto__" ->
        sessionStateOf w !! k = None ->
        properties (fetchSessionState (Some keys) w) !! k = Some (Inherited k))
  /\ fetchSessionState (Some ["toString"]) blankWebview
     = {| properties := {["toString" := Inherited "toString"]};
          prototype := ObjectPrototype |}.
Proof.
  split; [|split; [|split]].
  - intros k Hk. unfold fetchSessionState.
    assert (Hproto : k <> "__proto__")
      by (intros ->; apply Hk, proto_in_objectPrototypeNames).
    rewrite fetchLoop_lookup, hasProperty_own by done.
    unfold getProperty. simpl. rewrite lookup_empty.
    destruct (bool_decide (k ∈ keys)); simpl; [|done].
    destruct (sessionStateOf w !! k) as [v|] eqn:Hv.
    + by rewrite bool_decide_eq_true_2.
    + rewrite bool_decide_eq_false_2; [done|]. by intros [v Hv'].
  - unfold fetchSessionState. rewrite sessionStateOf_store.
    cbn [fetchLoop]. unfold hasProperty, getProperty.
    erewrite lookup_union_Some_l by (by rewrite lookup_insert_eq).
    reflexivity.
  - intros k Hin Hname Hproto Hlacks. unfold fetchSessionState.
    rewrite fetchLoop_lookup by done.
    rewrite (bool_decide_eq_true_2 _ Hin). unfold hasProperty, getProperty.
    rewrite Hlacks. by rewrite (bool_decide_eq_true_2 _ Hname).
  - reflexivity.
Qed.

(** C8 fails on the code for the same names.  With two distinct endpoints
    A and B, [storeSessionState] run while the current endpoint is A does
    not change what [fetchSessionState] returns while the current endpoint
    is B; but a listed name of [Object.prototype] that B's partition lacks
    is in the result under B all the same, also when it was stored under
    A. *)
Theorem storeSessionState_isolated_per_endpoint
    (w : ChatWebview) (cfgA cfgB : ServerConfig)
    (state : gmap string JsValue) (keys : option (list string)) :
  endpoint cfgA <> endpoint cfgB ->
  let stored := storeSessionState state (with_currentConfig (Some cfgA) w) in
  fetchSessionState keys (with_currentConfig (Some cfgB) stored)
    = fetchSessionState keys (with_currentConfig (Some cfgB) w)
  /\ forall (ks : list string) (k : string),
       keys = Some ks ->
       k ∈ ks -> k ∈ objectPrototypeNames -> k <> "__proto__" ->
       sessionStateOf (with_currentConfig (Some cfgB) w) !! k = None ->
       properties
         (fetchSessionState keys (with_currentConfig (Some cfgB) stored)) !! k
       = Some (Inherited k).
Proof.
  intros Hne stored.
  assert (Hpart : sessionStateOf (with_currentConfig (Some cfgB) stored)
                  = sessionStateOf (with_currentConfig (Some cfgB) w)).
  { unfold sessionStateOf, stored, storeSessionState, sessionStateKey; simpl.
    by rewrite lookup_insert_ne. }
  assert (Heq : fetchSessionState keys (with_currentConfig (Some cfgB) stored)
                = fetchSessionState keys (with_currentConfig (Some cfgB) w)).
  { unfold fetchSessionState. by rewrite Hpart. }
  split; [exact Heq|].
  intros ks k -> Hin Hname Hproto Hlacks. rewrite Heq.
  unfold fetchSessionState. rewrite fetchLoop_lookup by done.
  rewrite (bool_decide_eq_true_2 _ Hin). unfold hasProperty, getProperty.
  rewrite Hlacks. by rewrite (bool_decide_eq_true_2 _ Hname).
Qed.

(** The key [constructor] stored under A and asked for under B. *)
Lemma storeSessionState_isolated_witness :
  endpoint serverA <> endpoint serverB
  /\ fetchSessionState (Some ["constructor"])
       (with_currentConfig (Some serverB)
          (storeSessionState {["constructor" := JNum 1]}
             (with_currentConfig (Some serverA) blankWebview)))
     = fetchSessionState (Some ["constructor"])
         (with_currentConfig (Some serverB) blankWebview)
  /\ properties
       (fetchSessionState (Some ["constructor"])
          (with_currentConfig (Some serverB)
             (storeSessionState {["constructor" := JNum 1]}
                (with_currentConfig (Some serverA) blankWebview))))
     !! "constructor"
     = Some (Inherited "constructor").
Proof.
  assert (Hne : endpoint serverA <> endpoint serverB) by discriminate.
  assert (Hin : "constructor" ∈ ["constructor"]) by apply list_elem_of_here.
  assert (Hname : "constructor" ∈ objectPrototypeNames)
    by apply list_elem_of_here.
  assert (Hproto : "constructor" <> "__proto__") by discriminate.
  split; [exact Hne|]. split.
  - exact (proj1 (storeSessionState_isolated_per_endpoint blankWebview serverA
                    serverB {["constructor" := JNum 1]}
                    (Some ["constructor"]) Hne)).
  - exact (proj2 (storeSessionState_isolated_per_endpoint blankWebview serverA
                    serverB {["constructor" := JNum 1]}
                    (Some ["constructor"]) Hne)
             ["constructor"] "constructor" eq_refl Hin Hname Hproto eq_refl).
Defined.

(** ** The deferred action queue *)

Lemma emit_emit (es1 es2 : list Event) (w : ChatWebview) :
  emit es2 (emit es1 w) = emit (es1 ++ es2) w.
Proof. unfold emit; simpl. by rewrite app_assoc. Qed.

Lemma emit_nil (w : ChatWebview) : emit [] w = w.
Proof. destruct w. unfold emit; simpl. by rewrite app_nil_r. Qed.

Lemma settled_settled (es1 es2 : list Event) (errors1 errors2 : list JsError)
    (w : ChatWebview) :
  settled es2 errors2 (settled es1 errors1 w)
  = settled (es1 ++ es2) (errors1 ++ errors2) w.
Proof. unfold settled; simpl. by rewrite !app_assoc. Qed.

Lemma settled_nil (w : ChatWebview) : settled [] [] w = w.
Proof. destruct w. unfold settled; simpl. by rewrite !app_nil_r. Qed.

Lemma emit_settled (es : list Event) (w : ChatWebview) :
  emit es w = settled es [] w.
Proof. unfold emit, settled. by rewrite app_nil_r. Qed.

(** A closure that runs while the handle is [c] adds [pendingEvents c fn] to
    the trace, rejects its promise when its call throws, and changes
    nothing else. *)
Lemma forEachStep_events (c : ServerApiList) (fn : PendingAction) (w : ChatWebview) :
  client w = Some c ->
  forEachStep w fn = settled (pendingEvents c fn) (pendingRejections c fn) w.
Proof.
  intros Hc.
  unfold forEachStep, runPending, pendingEvents, pendingRejections,
    callOnClient, callOnClientOpt.
  destruct fn as [selection|context|command]; simpl; rewrite Hc.
  - destruct (callMethod _ _ _ _) as [es|e]; simpl;
      unfold settled, reject, emit; simpl;
      by rewrite <- ?app_assoc, ?app_nil_r.
  - destruct (kind context);
      [destruct (callMethod _ _ _ _) as [es|e]
      |destruct (callMethodOpt _ _ _ _) as [es|e]]; simpl;
      unfold settled, reject, emit; simpl;
      by rewrite <- ?app_assoc, ?app_nil_r.
  - destruct (String.eqb command "explain-terminal");
      [destruct (callMethodOpt _ _ _ _) as [es|e]
      |destruct (callMethod _ _ _ _) as [es|e]]; simpl;
      unfold settled, reject, emit; simpl;
      by rewrite <- ?app_assoc, ?app_nil_r.
Qed.

Lemma forEach_events (c : ServerApiList) (q : list PendingAction) (w : ChatWebview) :
  client w = Some c ->
  fold_left forEachStep q w
  = settled (flat_map (pendingEvents c) q) (flat_map (pendingRejections c) q) w.
Proof.
  revert w. induction q as [|fn q IH]; intros w Hc; simpl.
  - by rewrite settled_nil.
  - rewrite (forEachStep_events c) by done.
    rewrite IH by done. by rewrite settled_settled.
Qed.

Lemma pendingRuns_callMethod entry version m a es :
  callMethod entry version m a = Return es -> pendingRuns es = [].
Proof.
  unfold callMethod. destruct entry as [api|]; [|done].
  destruct (bool_decide _); [|done]. by intros [= <-].
Qed.

Lemma pendingRuns_callMethodOpt entry version m a es :
  callMethodOpt entry version m a = Return es -> pendingRuns es = [].
Proof.
  unfold callMethodOpt. destruct entry as [api|].
  - apply pendingRuns_callMethod.
  - by intros [= <-].
Qed.

Lemma pendingRuns_invocation c op es :
  invocation c op = Return es -> pendingRuns es = [].
Proof.
  destruct op as [selection|context|command]; simpl.
  - apply pendingRuns_callMethod.
  - destruct (kind context);
      [apply pendingRuns_callMethod | apply pendingRuns_callMethodOpt].
  - destruct (String.eqb _ _);
      [apply pendingRuns_callMethodOpt | apply pendingRuns_callMethod].
Qed.

Lemma pendingRuns_pendingEvents (c : ServerApiList) (fn : PendingAction) :
  pendingRuns (pendingEvents c fn) = [fn].
Proof.
  unfold pendingEvents.
  destruct (invocation c (operationOf fn)) as [es|e] eqn:Hinv.
  - apply pendingRuns_invocation in Hinv.
    unfold pendingRuns in *. destruct fn; simpl; f_equal; exact Hinv.
  - by destruct fn.
Qed.

Lemma pendingRuns_app (tr1 tr2 : list Event) :
  pendingRuns (tr1 ++ tr2) = pendingRuns tr1 ++ pendingRuns tr2.
Proof. apply omap_app. Qed.

Lemma pendingRuns_flush (c : ServerApiList) (q : list PendingAction) :
  pendingRuns (flat_map (pendingEvents c) q) = q.
Proof.
  induction q as [|fn q IH]; [done|]. cbn [flat_map].
  by rewrite pendingRuns_app, pendingRuns_pendingEvents, IH.
Qed.

(** The trace that [initChatPanel] leaves. *)
Lemma initChatPanel_trace (isMac : bool) (c : ServerApiList) (w : ChatWebview) :
  let w' := fst (initChatPanel isMac c w) in
  client w' = Some c
  /\ pendingActions w' = []
  /\ exists rest,
       trace w' =
         trace w ++ Emit "didChangedStatus" "ready"
                    :: flat_map (pendingEvents c) (pendingActions w) ++ rest
       /\ pendingRuns rest = [].
Proof.
  unfold initChatPanel. cbn zeta.
  rewrite (forEach_events c) by done.
  destruct (callMethod (c !! "0.8.0") "0.8.0" M_init _) as [es|e] eqn:Hinit;
    simpl.
  - repeat split.
    exists (es ++ [PostMessage "showChatPanel"]). split.
    + by rewrite <- !app_assoc.
    + rewrite pendingRuns_app.
      apply pendingRuns_callMethod in Hinit. by rewrite Hinit.
  - repeat split.
    exists []. split; [|done].
    rewrite <- !app_assoc. simpl. by rewrite app_nil_r.
Qed.

(** With a handle in place, the direct path and the queued closure make the
    same call; they differ in the log line only. *)
Lemma invoke_with_client (c : ServerApiList) (op : HostOperation) (w : ChatWebview) :
  client w = Some c ->
  invoke op w = perform (invocation c op) (emit [LogInfo (directLogLine op)] w).
Proof.
  intros Hc.
  destruct op as [selection|context|command]; simpl;
    unfold setActiveSelection, addRelevantContext, executeCommand;
    rewrite Hc; try done.
  - by destruct (kind context).
  - by destruct (String.eqb command "explain-terminal").
Qed.

Lemma runPending_with_client (c : ServerApiList) (op : HostOperation) (w : ChatWebview) :
  client w = Some c ->
  runPending (deferred op) w
  = perform (invocation c op) (emit [LogInfo (pendingLogLine (deferred op))] w).
Proof.
  intros Hc.
  destruct op as [selection|context|command]; simpl;
    unfold callOnClient, callOnClientOpt; simpl; rewrite Hc; try done.
  - by destruct (kind context).
  - by destruct (String.eqb command "explain-terminal").
Qed.

(** C1. An operation (set selection, add context, run a command) invoked
    while there is no handle only pushes its closure on the queue, and the
    closure makes the call the direct path would make.  When the handle is
    created, [initChatPanel] sets it, then runs the queued closures against
    it, each once and in the order they were pushed, and empties the queue:
    a later [initChatPanel] runs none of them again. *)
Theorem pending_actions_flushed_once_in_order
    (op : HostOperation) (w : ChatWebview) (c : ServerApiList) (isMac : bool) :
  client w = None ->
  let queued := fst (invoke op w) in
  let ready := fst (initChatPanel isMac c queued) in
  invoke op w
    = (with_pendingActions (pendingActions w ++ [deferred op]) w, Return tt)
  /\ (forall w', client w' = Some c ->
        invoke op w'
          = perform (invocation c op) (emit [LogInfo (directLogLine op)] w')
        /\ runPending (deferred op) w'
          = perform (invocation c op)
              (emit [LogInfo (pendingLogLine (deferred op))] w'))
  /\ client ready = Some c
  /\ pendingActions ready = []
  /\ (exists rest,
        trace ready =
          trace w ++ Emit "didChangedStatus" "ready"
                     :: flat_map (pendingEvents c) (pendingActions w ++ [deferred op])
                     ++ rest
        /\ pendingRuns rest = [])
  /\ pendingRuns (trace ready)
     = pendingRuns (trace w) ++ pendingActions w ++ [deferred op]
  /\ (forall isMac' c',
        pendingRuns (trace (fst (initChatPanel isMac' c' ready)))
        = pendingRuns (trace ready)).
Proof.
  intros Hnone queued ready.
  assert (Hinvoke : invoke op w
            = (with_pendingActions (pendingActions w ++ [deferred op]) w, Return tt)).
  { destruct op; simpl;
      unfold setActiveSelection, addRelevantContext, executeCommand;
      by rewrite Hnone. }
  assert (Hqueued : queued
            = with_pendingActions (pendingActions w ++ [deferred op]) w).
  { unfold queued. by rewrite Hinvoke. }
  destruct (initChatPanel_trace isMac c queued)
    as (Hclient & Hempty & rest & Htrace & Hrest).
  fold ready in Hclient, Hempty, Htrace.
  rewrite Hqueued in Htrace. simpl in Htrace.
  split; [exact Hinvoke|].
  split; [intros w' Hc; split;
            [by apply invoke_with_client | by apply runPending_with_client]|].
  split; [exact Hclient|].
  split; [exact Hempty|].
  split; [by exists rest|].
  split.
  - rewrite Htrace.
    change (Emit "didChangedStatus" "ready" :: ?l)
      with ([Emit "didChangedStatus" "ready"] ++ l).
    rewrite !pendingRuns_app, pendingRuns_flush, Hrest. simpl.
    by rewrite app_nil_r.
  - intros isMac' c'.
    destruct (initChatPanel_trace isMac' c' ready)
      as (_ & _ & rest' & Htrace' & Hrest').
    rewrite Htrace', Hempty. simpl.
    change (Emit "didChangedStatus" "ready" :: rest')
      with ([Emit "didChangedStatus" "ready"] ++ rest').
    rewrite !pendingRuns_app, Hrest'. simpl. by rewrite app_nil_r.
Qed.

Lemma pending_actions_flushed_witness :
  client blankWebview = None
  /\ pendingRuns
       (trace (fst (initChatPanel false baseHandle
                      (fst (invoke (OpSetActiveSelection fileSelection)
                              blankWebview)))))
     = pendingRuns (trace blankWebview) ++ pendingActions blankWebview
       ++ [deferred (OpSetActiveSelection fileSelection)].
Proof.
  split; [reflexivity|].
  exact (proj1 (proj2 (proj2 (proj2 (proj2 (proj2
    (pending_actions_flushed_once_in_order (OpSetActiveSelection fileSelection)
       blankWebview baseHandle false eq_refl))))))).
Defined.

(** ** Version probing *)

Lemma isTerminalContextEnabled_iff (V : Versioning) (w : ChatWebview) :
  isTerminalContextEnabled V w = true <->
  exists (c : ServerApiList) (version : string) (api : ServerApi),
    client w = Some c /\ c !! version = Some api
    /\ semver_valid V version = true
    /\ isCompatible V version "0.10.0" = true.
Proof.
  unfold isTerminalContextEnabled, getApiVersions.
  rewrite existsb_exists. split.
  - intros (version & Hin & Hcompat).
    apply filter_In in Hin as [Hin Hvalid].
    apply in_map_iff in Hin as ([k api] & Hk & Hin). simpl in Hk. subst k.
    apply list_elem_of_In, elem_of_map_to_list in Hin.
    destruct (client w) as [c|]; cbn [default] in Hin.
    + by exists c, version, api.
    + by apply lookup_empty_Some in Hin.
  - intros (c & version & api & Hc & Hlookup & Hvalid & Hcompat).
    exists version. split; [|done].
    apply filter_In. split; [|done].
    apply in_map_iff. exists (version, api). split; [done|].
    apply list_elem_of_In, elem_of_map_to_list. by rewrite Hc.
Qed.

(** C2, as the code has it.  The capability check of the file is
    [isTerminalContextEnabled]: it takes no operation and its version is
    fixed; on every state it is true iff there is a handle and some key of
    the handle is a valid semantic version compatible with 0.10.0, whatever
    that key exposes.  A terminal operation, whose owning key 0.10.0 is
    read with [?.], is skipped without an error when the handle lacks that
    key, on the direct path and in the queued closure alike: only the log
    line is written. *)
Theorem terminal_capability_probe_and_skip (V : Versioning) (w : ChatWebview) :
  (isTerminalContextEnabled V w = true <->
     exists (c : ServerApiList) (version : string) (api : ServerApi),
       client w = Some c /\ c !! version = Some api
       /\ semver_valid V version = true
       /\ isCompatible V version "0.10.0" = true)
  /\ (forall (c : ServerApiList) (context : EditorContext),
        client w = Some c ->
        c !! "0.10.0" = None ->
        kind context = KindTerminal ->
        addRelevantContext context w
        = (emit [LogInfo (LogAddingRelevantContext context)] w, Return tt)
        /\ executeCommand "explain-terminal" w
           = (emit [LogInfo (LogExecutingCommand "explain-terminal")] w,
              Return tt)
        /\ forEachStep w (PendingAddRelevantContext context)
           = emit [LogInfo (LogAddingPendingRelevantContext context)] w
        /\ forEachStep w (PendingExecuteCommand "explain-terminal")
           = emit [LogInfo (LogExecutingPendingCommand "explain-terminal")] w).
Proof.
  split; [apply isTerminalContextEnabled_iff|].
  intros c context Hc Hkey Hkind.
  split.
  { unfold addRelevantContext. rewrite Hc, Hkind, Hkey. simpl.
    by rewrite emit_nil. }
  split.
  { unfold executeCommand. rewrite Hc. simpl. rewrite Hkey. simpl.
    by rewrite emit_nil. }
  split.
  - rewrite (forEachStep_events c), emit_settled by done.
    unfold pendingEvents, pendingRejections. simpl. by rewrite Hkind, Hkey.
  - rewrite (forEachStep_events c), emit_settled by done.
    unfold pendingEvents, pendingRejections. simpl. by rewrite Hkey.
Qed.

(** The check on a handle that has the key 0.10.0, and the skip on one
    that lacks it. *)
Lemma terminal_capability_witness :
  isTerminalContextEnabled plainVersioning
    (with_client (Some terminalHandle) blankWebview) = true
  /\ isTerminalContextEnabled plainVersioning blankWebview <> true
  /\ addRelevantContext terminalContext (with_client (Some baseHandle) blankWebview)
     = (emit [LogInfo (LogAddingRelevantContext terminalContext)]
          (with_client (Some baseHandle) blankWebview), Return tt).
Proof.
  assert (Hkey : baseHandle !! "0.10.0" = None) by (vm_compute; reflexivity).
  assert (Hterminal : terminalHandle !! "0.10.0"
                      = Some [M_addRelevantContext; M_executeCommand])
    by (vm_compute; reflexivity).
  split; [|split].
  - apply (proj1 (terminal_capability_probe_and_skip plainVersioning
                    (with_client (Some terminalHandle) blankWebview))).
    exists terminalHandle, "0.10.0", [M_addRelevantContext; M_executeCommand].
    split; [reflexivity|]. split; [exact Hterminal|].
    split; vm_compute; reflexivity.
  - intros Htrue.
    apply (proj1 (terminal_capability_probe_and_skip plainVersioning
                    blankWebview)) in Htrue
      as (c & version & api & Hclient & _).
    discriminate Hclient.
  - exact (proj1 (proj2
      (terminal_capability_probe_and_skip plainVersioning
         (with_client (Some baseHandle) blankWebview))
      baseHandle terminalContext eq_refl Hkey eq_refl)).
Defined.

(** C2 as stated fails: the check is true on [terminalHandle] although no
    key at or above 0.10.0 exposes [navigate]; the check does not look at
    operations. *)
Lemma capability_check_ignores_operation :
  ~ (isTerminalContextEnabled plainVersioning
       (with_client (Some terminalHandle) blankWebview) = true
     <-> exists (version : string) (api : ServerApi),
           terminalHandle !! version = Some api
           /\ semver_valid plainVersioning version = true
           /\ isCompatible plainVersioning version "0.10.0" = true
           /\ M_navigate ∈ api).
Proof.
  intros [Hcheck _].
  destruct Hcheck as (version & api & Hlookup & _ & Hcompat & Hin).
  { vm_compute. reflexivity. }
  unfold terminalHandle, baseHandle in Hlookup.
  apply lookup_insert_Some in Hlookup as [[<- <-]|[_ Hlookup]].
  - apply elem_of_cons in Hin as [Hin|Hin]; [discriminate|].
    apply list_elem_of_singleton in Hin. discriminate.
  - apply lookup_singleton_Some in Hlookup as [<- <-].
    vm_compute in Hcompat. discriminate.
Qed.

(** The key 0.8.0 is read without a test: on a handle that lacks it, the
    direct path throws. *)
Example setActiveSelection_without_base_key :
  snd (setActiveSelection fileSelection
         (with_client (Some (∅ : ServerApiList)) blankWebview))
  = Throw (TypeError "Cannot read properties of undefined").
Proof. vm_compute. reflexivity. Qed.

(** ** Change collection *)

Lemma strlen_nonneg (s : string) : 0 <= strlen s.
Proof. unfold strlen. lia. Qed.

Lemma totalLength_nonneg (diffs : list string) : 0 <= totalLength diffs.
Proof.
  induction diffs as [|d diffs IH]; simpl; [lia|].
  pose proof (strlen_nonneg d). lia.
Qed.

Lemma totalLength_app (l1 l2 : list string) :
  totalLength (l1 ++ l2) = totalLength l1 + totalLength l2.
Proof. induction l1 as [|d l1 IH]; simpl; lia. Qed.

Lemma charCount_from (items : list ChangeItem) (start : Z) :
  fold_left (fun count item => count + strlen (change_content item)) items start
  = start + charCount items.
Proof.
  unfold charCount. revert start.
  induction items as [|item items IH]; intros start; simpl; [lia|].
  rewrite IH, (IH (0 + _)). lia.
Qed.

Lemma charCount_changeItems (stagedFlag : bool) (diffs : list string) :
  charCount (map (changeItem stagedFlag) diffs) = totalLength diffs.
Proof.
  induction diffs as [|d diffs IH]; [done|].
  unfold charCount in *. simpl. rewrite charCount_from.
  unfold charCount. rewrite IH. lia.
Qed.

(** The inner loop is a first-fit-or-stop pass over one diff list. *)
Lemma diffLoop_limit (stagedFlag : bool) (limit : Z) (diffs : list string)
    (res : list ChangeItem) (count : Z) :
  diffLoop stagedFlag (Some limit) diffs res count
  = (res ++ map (changeItem stagedFlag) (firstFitOrStop (limit - count) diffs),
     count + totalLength (firstFitOrStop (limit - count) diffs)).
Proof.
  revert res count.
  induction diffs as [|d diffs IH]; intros res count; simpl.
  - rewrite app_nil_r. f_equal. lia.
  - destruct (limit <? count + strlen d) eqn:Hover.
    + settle_ltb (limit - count) (strlen d).
      simpl. rewrite app_nil_r. f_equal. lia.
    + settle_ltb (limit - count) (strlen d).
      rewrite IH. simpl. rewrite <- app_assoc. simpl.
      replace (limit - (count + strlen d)) with (limit - count - strlen d) by lia.
      f_equal. lia.
Qed.

Lemma diffLoop_unlimited (stagedFlag : bool) (diffs : list string)
    (res : list ChangeItem) (count : Z) :
  diffLoop stagedFlag None diffs res count
  = (res ++ map (changeItem stagedFlag) diffs, count + totalLength diffs).
Proof.
  revert res count.
  induction diffs as [|d diffs IH]; intros res count; simpl.
  - rewrite app_nil_r. f_equal. lia.
  - rewrite IH, <- app_assoc. simpl. f_equal. lia.
Qed.

Section ChangeCollection.

Variable G : GitProvider.

(** The outer loop started with [count] characters used of [limit] is the
    loop started afresh with [limit - count]. *)
Lemma repoLoop_shift (stagedFlag : bool) (limit : Z)
    (repos : list (Repository G)) (res : list ChangeItem) (count : Z) :
  repoLoop G stagedFlag (Some limit) repos res count
  = res ++ repoLoop G stagedFlag (Some (limit - count)) repos [] 0.
Proof.
  revert limit res count.
  induction repos as [|repo repos IH]; intros limit res count; simpl.
  - by rewrite app_nil_r.
  - destruct (getDiff G repo stagedFlag) as [diffs|]; [|apply IH].
    rewrite !diffLoop_limit. simpl.
    replace (limit - count - 0) with (limit - count) by lia.
    set (taken := firstFitOrStop (limit - count) diffs).
    replace (0 + totalLength taken) with (totalLength taken) by lia.
    destruct (limit <=? count + totalLength taken) eqn:Hreach.
    + by settle_leb (limit - count) (totalLength taken).
    + settle_leb (limit - count) (totalLength taken).
      rewrite IH, (IH (limit - count) (map _ taken)), <- app_assoc.
      by replace (limit - count - totalLength taken)
        with (limit - (count + totalLength taken)) by lia.
Qed.

Lemma getRepoChanges_nonpositive (repos : list (Repository G))
    (stagedFlag : bool) (budget : Z) :
  budget <= 0 -> getRepoChanges G repos stagedFlag (Some budget) = [].
Proof.
  intros Hb. unfold getRepoChanges. simpl.
  by settle_leb budget 0.
Qed.

Lemma getRepoChanges_single (repo : Repository G)
    (stagedFlag : bool) (budget : Z) :
  0 < budget ->
  getRepoChanges G [repo] stagedFlag (Some budget)
  = map (changeItem stagedFlag)
      (firstFitOrStop budget (default [] (getDiff G repo stagedFlag))).
Proof.
  intros Hb. unfold getRepoChanges. simpl.
  settle_leb budget 0.
  destruct (getDiff G repo stagedFlag) as [diffs|]; [|done].
  rewrite diffLoop_limit. simpl.
  replace (budget - 0) with budget by lia.
  by destruct (budget <=? _).
Qed.

Lemma getRepoChanges_cons (repo : Repository G)
    (rest : list (Repository G)) (stagedFlag : bool) (budget : Z) :
  0 < budget ->
  getRepoChanges G (repo :: rest) stagedFlag (Some budget)
  = let first := getRepoChanges G [repo] stagedFlag (Some budget) in
    if budget <=? charCount first then first
    else first ++ getRepoChanges G rest stagedFlag (Some (budget - charCount first)).
Proof.
  intros Hb. cbn zeta. rewrite getRepoChanges_single by done.
  rewrite charCount_changeItems.
  unfold getRepoChanges. simpl.
  settle_leb budget 0.
  destruct (getDiff G repo stagedFlag) as [diffs|]; simpl.
  - rewrite diffLoop_limit. simpl.
    replace (budget - 0) with budget by lia.
    replace (0 + totalLength (firstFitOrStop budget diffs))
      with (totalLength (firstFitOrStop budget diffs)) by lia.
    destruct (budget <=? totalLength (firstFitOrStop budget diffs)) eqn:Hreach;
      [done|].
    rewrite repoLoop_shift.
    by settle_leb (budget - totalLength (firstFitOrStop budget diffs)) 0.
  - settle_leb budget 0.
    replace (budget - 0) with budget by lia.
    by settle_leb budget 0.
Qed.

(** What a first-fit-or-stop pass takes is the longest prefix that fits:
    whole diffs only, and the first diff left out is too long for what is
    left of the budget. *)
Lemma firstFitOrStop_prefix (budget : Z) (diffs : list string) :
  exists k : nat,
    firstFitOrStop budget diffs = take k diffs
    /\ (0 <= budget -> totalLength (take k diffs) <= budget)
    /\ (forall d, diffs !! k = Some d ->
          budget < totalLength (take k diffs) + strlen d).
Proof.
  revert budget.
  induction diffs as [|d diffs IH]; intros budget.
  - exists 0%nat. simpl. split; [done|]. split; [done|].
    intros d Hd. discriminate.
  - simpl. destruct (budget <? strlen d) eqn:Hfit.
    + exists 0%nat. simpl. split; [done|]. split; [done|].
      intros d' [= <-]. apply Z.ltb_lt in Hfit. lia.
    + apply Z.ltb_ge in Hfit.
      destruct (IH (budget - strlen d)) as (k & Heq & Hle & Hnext).
      exists (S k). simpl. rewrite Heq. split; [done|]. split.
      * intros _. lia.
      * intros d' Hd'. specialize (Hnext d' Hd'). lia.
Qed.

Lemma firstFitOrStop_all (budget : Z) (diffs : list string) :
  totalLength diffs <= budget -> firstFitOrStop budget diffs = diffs.
Proof.
  revert budget.
  induction diffs as [|d diffs IH]; intros budget Hfit; simpl in *; [done|].
  pose proof (totalLength_nonneg diffs).
  settle_ltb budget (strlen d).
  rewrite IH; [done | lia].
Qed.

Lemma getRepoChanges_nil (stagedFlag : bool) (limit : option Z) :
  getRepoChanges G [] stagedFlag limit = [].
Proof. unfold getRepoChanges. by destruct (reachesLimit limit 0). Qed.

(** When all diffs of the phase fit with room to spare, all are collected. *)
Lemma getRepoChanges_all_fit (repos : list (Repository G))
    (stagedFlag : bool) (budget : Z) :
  totalLength (allDiffs G repos stagedFlag) < budget ->
  getRepoChanges G repos stagedFlag (Some budget)
  = map (changeItem stagedFlag) (allDiffs G repos stagedFlag).
Proof.
  revert budget.
  induction repos as [|repo repos IH]; intros budget Hfit.
  - apply getRepoChanges_nil.
  - unfold allDiffs in *. simpl in *. rewrite totalLength_app in Hfit.
    set (diffs := default [] (getDiff G repo stagedFlag)) in *.
    pose proof (totalLength_nonneg diffs).
    pose proof (totalLength_nonneg
                  (flat_map (fun r => default [] (getDiff G r stagedFlag)) repos)).
    rewrite getRepoChanges_cons by lia. cbn zeta.
    rewrite getRepoChanges_single by lia. fold diffs.
    rewrite firstFitOrStop_all by lia.
    rewrite charCount_changeItems.
    settle_leb budget (totalLength diffs).
    rewrite IH by lia. by rewrite map_app.
Qed.

(** When no diff of the phase fits, none is collected. *)
Lemma getRepoChanges_none_fits (repos : list (Repository G))
    (stagedFlag : bool) (budget : Z) :
  (forall d, In d (allDiffs G repos stagedFlag) -> budget < strlen d) ->
  getRepoChanges G repos stagedFlag (Some budget) = [].
Proof.
  intros Hbig.
  destruct (Z.leb_spec budget 0) as [Hle|Hpos];
    [by apply getRepoChanges_nonpositive|].
  induction repos as [|repo repos IH].
  - apply getRepoChanges_nil.
  - unfold allDiffs in *. simpl in Hbig.
    rewrite getRepoChanges_cons by done. cbn zeta.
    rewrite getRepoChanges_single by done.
    assert (Hfirst : firstFitOrStop budget (default [] (getDiff G repo stagedFlag)) = []).
    { destruct (default [] (getDiff G repo stagedFlag)) as [|d diffs] eqn:Hd;
        [done|]. simpl.
      rewrite (proj2 (Z.ltb_lt budget (strlen d))); [done|].
      apply Hbig. apply in_or_app. left. by left. }
    rewrite Hfirst. simpl. unfold charCount. simpl.
    settle_leb budget 0.
    replace (budget - 0) with budget by lia.
    apply IH. intros d Hin. apply Hbig. apply in_or_app. by right.
Qed.

(** Without a budget every diff is collected, staged ones first. *)
Lemma repoLoop_unlimited (repos : list (Repository G)) (stagedFlag : bool)
    (res : list ChangeItem) (count : Z) :
  repoLoop G stagedFlag None repos res count
  = res ++ map (changeItem stagedFlag) (allDiffs G repos stagedFlag).
Proof.
  revert res count.
  induction repos as [|repo repos IH]; intros res count; simpl.
  - by rewrite app_nil_r.
  - unfold allDiffs in *. simpl.
    destruct (getDiff G repo stagedFlag) as [diffs|]; simpl.
    + rewrite diffLoop_unlimited. simpl.
      by rewrite IH, map_app, app_assoc.
    + apply IH.
Qed.

Lemma getChanges_unlimited (repositories : list (Repository G)) :
  isApiAvailable G = true ->
  getRepositories G = Some repositories ->
  getChanges G None
  = map (changeItem true) (allDiffs G repositories true)
    ++ map (changeItem false) (allDiffs G repositories false).
Proof.
  intros Havailable Hrepos. unfold getChanges, getRepoChanges.
  rewrite Havailable, Hrepos. simpl.
  by rewrite !repoLoop_unlimited.
Qed.

(** C4, as the code has it.  [getChanges] collects staged diffs first and
    unstaged diffs second, the second phase under the budget less the
    characters of the staged diffs collected.  Within one repository the
    diffs are taken whole, in list order, up to the first one that would
    exceed what is left of the budget; the phase then goes on with the next
    repository, under what is left, unless the budget is used up.  With a
    budget of 100, staged diffs of 80 characters in all and one unstaged
    diff of 50 characters, the result is the staged diffs alone. *)
Theorem getChanges_first_fit_within_repository
    (repositories : list (Repository G)) (maxChars : Z) :
  isApiAvailable G = true ->
  getRepositories G = Some repositories ->
  let stagedChanges := getRepoChanges G repositories true (Some maxChars) in
  getChanges G (Some maxChars)
    = stagedChanges
      ++ getRepoChanges G repositories false
           (Some (maxChars - charCount stagedChanges))
  /\ (forall stagedFlag budget repos,
        budget <= 0 -> getRepoChanges G repos stagedFlag (Some budget) = [])
  /\ (forall stagedFlag budget repo,
        0 < budget ->
        getRepoChanges G [repo] stagedFlag (Some budget)
        = map (changeItem stagedFlag)
            (firstFitOrStop budget (default [] (getDiff G repo stagedFlag))))
  /\ (forall stagedFlag budget repo rest,
        0 < budget ->
        getRepoChanges G (repo :: rest) stagedFlag (Some budget)
        = let first := getRepoChanges G [repo] stagedFlag (Some budget) in
          if budget <=? charCount first then first
          else first
               ++ getRepoChanges G rest stagedFlag
                    (Some (budget - charCount first)))
  /\ (forall budget diffs,
        exists k : nat,
          firstFitOrStop budget diffs = take k diffs
          /\ (0 <= budget -> totalLength (take k diffs) <= budget)
          /\ (forall d, diffs !! k = Some d ->
                budget < totalLength (take k diffs) + strlen d))
  /\ (forall d,
        maxChars = 100 ->
        totalLength (allDiffs G repositories true) = 80 ->
        allDiffs G repositories false = [d] ->
        strlen d = 50 ->
        getChanges G (Some maxChars)
        = map (changeItem true) (allDiffs G repositories true)).
Proof.
  intros Havailable Hrepos stagedChanges.
  assert (Hphases : getChanges G (Some maxChars)
            = stagedChanges
              ++ getRepoChanges G repositories false
                   (Some (maxChars - charCount stagedChanges))).
  { unfold getChanges. by rewrite Havailable, Hrepos. }
  split; [exact Hphases|].
  split; [intros; by apply getRepoChanges_nonpositive|].
  split; [intros; by apply getRepoChanges_single|].
  split; [intros; by apply getRepoChanges_cons|].
  split; [intros; apply firstFitOrStop_prefix|].
  intros d -> Htotal Hunstaged Hlen.
  rewrite Hphases. unfold stagedChanges.
  rewrite getRepoChanges_all_fit by lia.
  rewrite charCount_changeItems, Htotal.
  rewrite getRepoChanges_none_fits; [by rewrite app_nil_r|].
  intros d' Hin. rewrite Hunstaged in Hin.
  destruct Hin as [<-|[]]. lia.
Qed.

End ChangeCollection.

Lemma getChanges_first_fit_witness :
  isApiAvailable twoRepositories = true
  /\ getRepositories twoRepositories = Some ["first"; "second"]
  /\ getChanges twoRepositories (Some 10)
     = getRepoChanges twoRepositories ["first"; "second"] true (Some 10)
       ++ getRepoChanges twoRepositories ["first"; "second"] false
            (Some (10 - charCount
                          (getRepoChanges twoRepositories ["first"; "second"]
                             true (Some 10)))).
Proof.
  split; [reflexivity|]. split; [reflexivity|].
  exact (proj1 (getChanges_first_fit_within_repository twoRepositories
                  ["first"; "second"] 10 eq_refl eq_refl)).
Defined.

(** C4 as stated fails: with a budget of 10, the 12 characters of the first
    repository's diff end the pass over that repository only; the diff of
    the second repository is collected, where one pass over all diffs that
    stops at the first misfit collects nothing. *)
Lemma getChanges_goes_on_with_next_repository :
  getChanges twoRepositories (Some 10) = [changeItem true "ab"]
  /\ claimedChanges twoRepositories ["first"; "second"] 10 = []
  /\ getChanges twoRepositories (Some 10)
     <> claimedChanges twoRepositories ["first"; "second"] 10.
Proof.
  assert (Hcode : getChanges twoRepositories (Some 10) = [changeItem true "ab"])
    by (vm_compute; reflexivity).
  assert (Hclaim : claimedChanges twoRepositories ["first"; "second"] 10 = [])
    by (vm_compute; reflexivity).
  split; [exact Hcode|]. split; [exact Hclaim|].
  rewrite Hcode, Hclaim. discriminate.
Qed.

(** ** The symbols of the active document *)

Lemma nodeHeight_children (n : SymbolNode) :
  nodeHeight n = S (forestHeight (childrenOf n)).
Proof. by destruct n. Qed.

Lemma nodeSize_children (n : SymbolNode) :
  nodeSize n = S (forestSize (childrenOf n)).
Proof. by destruct n. Qed.

Lemma forestHeight_app (f1 f2 : list SymbolNode) :
  forestHeight (f1 ++ f2) = Nat.max (forestHeight f1) (forestHeight f2).
Proof.
  unfold forestHeight. induction f1 as [|n f1 IH]; simpl; [done|].
  rewrite IH. lia.
Qed.

Lemma forestSize_app (f1 f2 : list SymbolNode) :
  forestSize (f1 ++ f2) = (forestSize f1 + forestSize f2)%nat.
Proof.
  unfold forestSize. induction f1 as [|n f1 IH]; simpl; [done|].
  rewrite IH. lia.
Qed.

Lemma forestHeight_children (forest : list SymbolNode) :
  forestHeight (flat_map childrenOf forest) = (forestHeight forest - 1)%nat.
Proof.
  induction forest as [|n forest IH]; [done|].
  cbn [flat_map]. rewrite forestHeight_app, IH.
  change (forestHeight (n :: forest))
    with (Nat.max (nodeHeight n) (forestHeight forest)).
  rewrite nodeHeight_children. lia.
Qed.

Lemma forestHeight_zero (forest : list SymbolNode) :
  forestHeight forest = O -> forest = [].
Proof.
  destruct forest as [|n forest]; [done|].
  change (forestHeight (n :: forest))
    with (Nat.max (nodeHeight n) (forestHeight forest)).
  rewrite nodeHeight_children. lia.
Qed.

Lemma flat_map_seq_shift {A} (f : nat -> list A) (len : nat) :
  flat_map f (seq 1 len) = flat_map (fun d => f (S d)) (seq 0 len).
Proof.
  rewrite <- seq_shift. generalize (seq 0 len) as l.
  induction l as [|d l IH]; simpl; [done|]. by rewrite IH.
Qed.

(** Level by level: the forest itself, then the levels of its children. *)
Lemma breadthFirst_unfold (forest : list SymbolNode) :
  forest <> [] ->
  breadthFirst forest = forest ++ breadthFirst (flat_map childrenOf forest).
Proof.
  intros Hne. unfold breadthFirst.
  rewrite forestHeight_children.
  destruct (forestHeight forest) as [|h] eqn:Hh.
  - by apply forestHeight_zero in Hh.
  - cbn [seq flat_map atDepth]. rewrite flat_map_seq_shift.
    by replace (S h - 1)%nat with h by lia.
Qed.

Lemma queueOrder_append (queue rest out : list SymbolNode) :
  queueOrder (rest ++ flat_map childrenOf queue) out ->
  queueOrder (queue ++ rest) (queue ++ out).
Proof.
  revert rest.
  induction queue as [|n queue IH]; intros rest Hrest; simpl in *.
  - by rewrite app_nil_r in Hrest.
  - constructor. rewrite <- app_assoc. apply IH.
    by rewrite <- app_assoc.
Qed.

(** A queue hands out a forest level by level. *)
Lemma queueOrder_breadthFirst (forest : list SymbolNode) :
  queueOrder forest (breadthFirst forest).
Proof.
  remember (forestHeight forest) as h eqn:Hh.
  revert forest Hh.
  induction h as [|h IH]; intros forest Hh.
  - symmetry in Hh. apply forestHeight_zero in Hh. subst forest. constructor.
  - assert (Hne : forest <> []) by (intros ->; discriminate).
    rewrite breadthFirst_unfold by done.
    rewrite <- (app_nil_r forest) at 1.
    apply queueOrder_append. simpl.
    apply IH. rewrite forestHeight_children. lia.
Qed.

Lemma queueOrder_length (queue out : list SymbolNode) :
  queueOrder queue out -> length out = forestSize queue.
Proof.
  induction 1 as [|n queue out _ IH]; [done|].
  simpl. rewrite IH, forestSize_app.
  change (forestSize (n :: queue)) with (nodeSize n + forestSize queue)%nat.
  rewrite nodeSize_children. lia.
Qed.

(** The breadth-first flattening lists every symbol of the forest once. *)
Lemma breadthFirst_length (forest : list SymbolNode) :
  length (breadthFirst forest) = forestSize forest.
Proof. apply queueOrder_length, queueOrder_breadthFirst. Qed.

(** The loop of [getDocumentSymbols] adds to [result] the symbols that the
    queue hands out, up to the limit; no more than [limit] rounds are
    needed. *)
Lemma bfsLoop_queueOrder (uri : Uri) (limit : Z) (queue out : list SymbolNode) :
  queueOrder queue out ->
  forall (fuel : nat) (result : list SymbolInformation),
    (Z.to_nat limit - length result <= fuel)%nat ->
    bfsLoop uri limit fuel queue result
    = result
      ++ map (nodeToSymbol uri) (take (Z.to_nat limit - length result) out).
Proof.
  induction 1 as [|n queue out _ IH]; intros fuel result Hfuel.
  - destruct fuel; simpl; by rewrite take_nil, app_nil_r.
  - destruct fuel as [|fuel].
    + replace (Z.to_nat limit - length result)%nat with O by lia.
      simpl. by rewrite app_nil_r.
    + cbn [bfsLoop].
      destruct (Z.of_nat (length result) <? limit) eqn:Hroom; cbn [negb].
      2:{ apply Z.ltb_ge in Hroom.
          replace (Z.to_nat limit - length result)%nat with O by lia.
          simpl. by rewrite app_nil_r. }
      apply Z.ltb_lt in Hroom.
      destruct (Z.to_nat limit - length result)%nat as [|room] eqn:Hr; [lia|].
      cbn [take firstn map].
      assert (Hstep : forall s,
                 nodeToSymbol uri n = s ->
                 (if limit <=? Z.of_nat (length (result ++ [s]))
                  then result ++ [s]
                  else bfsLoop uri limit fuel (queue ++ childrenOf n) (result ++ [s]))
                 = result ++ s :: map (nodeToSymbol uri) (take room out)).
      { intros s Hs.
        rewrite length_app. simpl.
        destruct (limit <=? Z.of_nat (length result + 1)) eqn:Hfull.
        - apply Z.leb_le in Hfull.
          replace room with O by lia. by rewrite take_0.
        - apply Z.leb_gt in Hfull.
          rewrite IH by (rewrite length_app; simpl; lia).
          rewrite <- app_assoc, length_app. simpl.
          by replace (Z.to_nat limit - (length result + 1))%nat with room by lia. }
      destruct n as [name kind detail range children|s].
      * by apply Hstep.
      * specialize (Hstep s eq_refl).
        simpl in Hstep. rewrite app_nil_r in Hstep. exact Hstep.
Qed.

(** [getDocumentSymbols] returns the first [limit] symbols of the
    breadth-first flattening; more fuel changes nothing. *)
Lemma getDocumentSymbols_breadthFirst (uri : Uri) (limit : Z)
    (symbols : list SymbolNode) :
  getDocumentSymbols uri limit symbols
  = map (nodeToSymbol uri) (take (Z.to_nat limit) (breadthFirst symbols))
  /\ forall fuel, (Z.to_nat limit <= fuel)%nat ->
       bfsLoop uri limit fuel symbols [] = getDocumentSymbols uri limit symbols.
Proof.
  pose proof (queueOrder_breadthFirst symbols) as Horder.
  assert (Hany : forall fuel, (Z.to_nat limit <= fuel)%nat ->
            bfsLoop uri limit fuel symbols []
            = map (nodeToSymbol uri) (take (Z.to_nat limit) (breadthFirst symbols))).
  { intros fuel Hfuel.
    rewrite (bfsLoop_queueOrder uri limit symbols _ Horder) by (simpl; lia).
    simpl. by rewrite Nat.sub_0_r. }
  split.
  - unfold getDocumentSymbols. by apply Hany.
  - intros fuel Hfuel. unfold getDocumentSymbols.
    by rewrite !Hany by lia.
Qed.

Lemma effectiveLimit_positive (limit : option Z) : 0 < effectiveLimit limit.
Proof.
  unfold effectiveLimit. destruct limit as [l|]; [|lia].
  destruct (l =? 0) eqn:H0; destruct (l <? 0) eqn:Hneg; simpl; lia.
Qed.

Lemma slice0_take {A} (l : list A) (endIndex : Z) :
  0 <= endIndex -> slice0 l endIndex = take (Z.to_nat endIndex) l.
Proof.
  intros Hpos. unfold slice0.
  settle_ltb endIndex 0.
  destruct (Z.le_ge_cases endIndex (Z.of_nat (length l))) as [Hle|Hge].
  - by rewrite Z.min_l by lia.
  - rewrite Z.min_r by lia. rewrite Nat2Z.id.
    rewrite !firstn_all2; [done | lia | lia].
Qed.

(** What [listSymbols] does with an empty query. *)
Lemma listSymbols_empty_query (U : Utils) (H : Host) (editor : TextEditor)
    (limit : option Z) (symbols : option (list SymbolNode)) :
  activeTextEditor H = Some editor ->
  executeDocumentSymbolProvider H (document_uri (editor_document editor))
    = Return symbols ->
  listSymbols U H EmptyString limit
  = (map (fun n =>
            symbolToItem U (nodeToSymbol (document_uri (editor_document editor)) n)
              (localUriToChatPanelFilepath U (document_uri (editor_document editor))))
       (take (Z.to_nat (effectiveLimit limit))
          (breadthFirst (default [] symbols))),
     [ExecuteDocumentSymbolProvider (document_uri (editor_document editor))]).
Proof.
  intros Heditor Hprovider.
  pose proof (effectiveLimit_positive limit) as Hpos.
  unfold listSymbols. rewrite Heditor, Hprovider. cbn [String.eqb].
  f_equal.
  rewrite (proj1 (getDocumentSymbols_breadthFirst _ _ _)).
  rewrite slice0_take by lia.
  rewrite firstn_map, map_map, take_take, Nat.min_id. done.
Qed.

(** The item that the code makes of a symbol of the document. *)
Lemma symbolToItem_nodeToSymbol (U : Utils) (uri : Uri) (n : SymbolNode) :
  symbolToItem U (nodeToSymbol uri n) (localUriToChatPanelFilepath U uri)
  = itemOfNode U uri n.
Proof. by destruct n. Qed.

(** C5. With an empty query, [listSymbols] returns the first [limit]
    symbols of the breadth-first flattening of the active document's symbol
    tree, in that order, each as the item with the document's file path,
    the symbol's name and the line range of the symbol, and runs the
    document symbol provider only: no workspace symbol search.  When the
    tree holds more than [limit] symbols exactly [limit] items come back;
    with a limit of 5 and 8 top-level symbols these are the first 5
    top-level symbols. *)
Theorem listSymbols_empty_query_breadth_first (U : Utils) (H : Host)
    (editor : TextEditor) (limit : option Z) (symbols : option (list SymbolNode)) :
  activeTextEditor H = Some editor ->
  executeDocumentSymbolProvider H (document_uri (editor_document editor))
    = Return symbols ->
  let uri := document_uri (editor_document editor) in
  let forest := default [] symbols in
  listSymbols U H EmptyString limit
    = (map (itemOfNode U uri)
         (take (Z.to_nat (effectiveLimit limit)) (breadthFirst forest)),
       [ExecuteDocumentSymbolProvider uri])
  /\ length (breadthFirst forest) = forestSize forest
  /\ (effectiveLimit limit < Z.of_nat (forestSize forest) ->
        Z.of_nat (length (fst (listSymbols U H EmptyString limit))) = effectiveLimit limit)
  /\ (forall query', ~ In (ExecuteWorkspaceSymbolProvider query')
                         (snd (listSymbols U H EmptyString limit)))
  /\ (limit = Some 5 -> length forest = 8%nat ->
        fst (listSymbols U H EmptyString limit)
        = map (itemOfNode U uri) (take 5 forest)
        /\ length (fst (listSymbols U H EmptyString limit)) = 5%nat).
Proof.
  intros Heditor Hprovider uri forest.
  assert (Heq : listSymbols U H EmptyString limit
            = (map (itemOfNode U uri)
                 (take (Z.to_nat (effectiveLimit limit)) (breadthFirst forest)),
               [ExecuteDocumentSymbolProvider uri])).
  { rewrite (listSymbols_empty_query U H editor limit symbols Heditor Hprovider).
    f_equal. apply map_ext. intros n. apply symbolToItem_nodeToSymbol. }
  pose proof (effectiveLimit_positive limit) as Hpos.
  split; [exact Heq|].
  split; [apply breadthFirst_length|].
  split.
  { intros Hmore. rewrite Heq. simpl.
    rewrite length_map, length_take, breadthFirst_length. lia. }
  split.
  { intros query' Hin. rewrite Heq in Hin. simpl in Hin.
    destruct Hin as [Hin|[]]. discriminate. }
  intros -> Hlen. rewrite Heq. simpl.
  assert (Hne : forest <> []) by (intros Hnil; rewrite Hnil in Hlen; discriminate).
  rewrite breadthFirst_unfold by done.
  change (Z.to_nat (effectiveLimit (Some 5))) with 5%nat.
  rewrite take_app_le by lia.
  split; [done|].
  rewrite length_map, length_take. lia.
Qed.

(** C10. A limit that is missing, zero or negative is replaced by 20:
    [listSymbols] then behaves as with [limit = 20], and with an empty query
    on a document of at least 20 symbols a call with [limit = 0] returns 20
    items, not none. *)
Theorem listSymbols_limit_defaults_to_20 (U : Utils) (H : Host)
    (query : string) (limit : option Z) :
  (limit = None \/ exists z, limit = Some z /\ z <= 0) ->
  effectiveLimit limit = 20
  /\ listSymbols U H query limit = listSymbols U H query (Some 20)
  /\ (forall editor symbols,
        activeTextEditor H = Some editor ->
        executeDocumentSymbolProvider H (document_uri (editor_document editor))
          = Return symbols ->
        (20 <= forestSize (default [] symbols))%nat ->
        length (fst (listSymbols U H EmptyString limit)) = 20%nat).
Proof.
  intros Hlimit.
  assert (Heff : effectiveLimit limit = 20).
  { destruct Hlimit as [->|(z & -> & Hz)]; [done|].
    unfold effectiveLimit.
    destruct (z =? 0) eqn:H0; [done|].
    apply Z.eqb_neq in H0.
    by settle_ltb z 0. }
  split; [exact Heff|].
  split.
  { unfold listSymbols. by rewrite Heff. }
  intros editor symbols Heditor Hprovider Hsize.
  rewrite (listSymbols_empty_query U H editor limit symbols Heditor Hprovider).
  simpl. rewrite Heff, length_map, length_take, breadthFirst_length.
  change (Z.to_nat 20) with 20%nat. lia.
Qed.

(** Five of the seven symbols of [nestedSymbols]: the three of depth 0,
    then the first two of depth 1; and five of eight top-level symbols. *)
Lemma listSymbols_empty_query_witness :
  activeTextEditor nestedHost = Some {| editor_document := mainDocument |}
  /\ listSymbols pathUtils nestedHost EmptyString (Some 5)
     = ([symbolItem "/work/main.ts" "A" 1 9;
         symbolItem "/work/main.ts" "B" 11 15;
         symbolItem "/work/main.ts" "C" 17 19;
         symbolItem "/work/main.ts" "A1" 2 5;
         symbolItem "/work/main.ts" "A2" 6 8],
        [ExecuteDocumentSymbolProvider "/work/main.ts"])
  /\ fst (listSymbols pathUtils (hostWithSymbols 8) EmptyString (Some 5))
     = [symbolItem "/work/main.ts" "f" 1 1;
        symbolItem "/work/main.ts" "f" 2 2;
        symbolItem "/work/main.ts" "f" 3 3;
        symbolItem "/work/main.ts" "f" 4 4;
        symbolItem "/work/main.ts" "f" 5 5].
Proof.
  split; [reflexivity|]. split.
  - exact (proj1
      (listSymbols_empty_query_breadth_first pathUtils nestedHost
         {| editor_document := mainDocument |} (Some 5)
         (Some nestedSymbols) eq_refl eq_refl)).
  - exact (proj1 (proj2 (proj2 (proj2 (proj2
      (listSymbols_empty_query_breadth_first pathUtils (hostWithSymbols 8)
         {| editor_document := mainDocument |} (Some 5)
         (Some (map functionSymbol (seq 0 8))) eq_refl eq_refl))))
      eq_refl eq_refl)).
Defined.

Lemma listSymbols_limit_zero_witness :
  (Some 0 = None \/ exists z, Some 0 = Some z /\ z <= 0)
  /\ length (fst (listSymbols pathUtils (hostWithSymbols 25) EmptyString (Some 0))) = 20%nat.
Proof.
  assert (Hzero : Some 0 = None \/ exists z, Some 0 = Some z /\ z <= 0).
  { right. exists 0. split; [reflexivity | lia]. }
  split; [exact Hzero|].
  refine (proj2 (proj2
    (listSymbols_limit_defaults_to_20 pathUtils (hostWithSymbols 25) EmptyString
       (Some 0) Hzero))
    {| editor_document := mainDocument |}
    (Some (map functionSymbol (seq 0 25))) eq_refl eq_refl _).
  vm_compute. lia.
Defined.

(** ** Merging local and workspace symbols *)

(** Two items whose key strings are equal count as one, whatever their
    fields are. *)
Lemma uniqueLoop_same_key_string (U : Utils) (a b : ListSymbolItem U) :
  itemKey U a = itemKey U b -> uniqueLoop U [a; b] ∅ [] = [a].
Proof.
  intros Hkey. simpl. rewrite <- Hkey.
  rewrite bool_decide_eq_false_2 by apply not_elem_of_empty.
  rewrite bool_decide_eq_true_2; [done|].
  apply elem_of_union_l. by apply elem_of_singleton.
Qed.

Lemma insertSorted_Permutation {A} (compare : A -> A -> Z) (x : A) (l : list A) :
  Permutation (x :: l) (insertSorted compare x l).
Proof.
  induction l as [|y l IH]; simpl; [done|].
  destruct (0 <? compare x y); [|done].
  rewrite <- IH. apply perm_swap.
Qed.

Lemma stableSort_Permutation {A} (compare : A -> A -> Z) (l : list A) :
  Permutation l (stableSort compare l).
Proof.
  induction l as [|x l IH]; simpl; [done|].
  rewrite <- insertSorted_Permutation. by constructor.
Qed.

Lemma compareItems_swap (U : Utils) (query : string) (a b : ListSymbolItem U) :
  compareItems U query b a = - compareItems U query a b.
Proof.
  unfold compareItems.
  destruct (Z.eqb_spec (getMatchScore query (item_label b))
              (getMatchScore query (item_label a))) as [Heq|Hne].
  - rewrite Heq, Z.eqb_refl. simpl. lia.
  - rewrite (proj2 (Z.eqb_neq _ _)) by congruence. simpl. lia.
Qed.

Lemma insertSorted_Sorted (U : Utils) (query : string)
    (x : ListSymbolItem U) (l : list (ListSymbolItem U)) :
  Sorted (fun a b => compareItems U query a b <= 0) l ->
  Sorted (fun a b => compareItems U query a b <= 0)
    (insertSorted (compareItems U query) x l).
Proof.
  induction 1 as [|y l Hsorted IH Hhd]; simpl.
  - by repeat constructor.
  - destruct (0 <? compareItems U query x y) eqn:Hcmp.
    + apply Z.ltb_lt in Hcmp. constructor; [exact IH|].
      destruct l as [|z l]; simpl.
      * constructor. rewrite compareItems_swap. lia.
      * destruct (0 <? compareItems U query x z).
        -- constructor. by inversion Hhd.
        -- constructor. rewrite compareItems_swap. lia.
    + apply Z.ltb_ge in Hcmp. constructor; [by constructor|by constructor].
Qed.

(** The items come out by descending score, and by ascending label length
    among equal scores. *)
Lemma stableSort_Sorted (U : Utils) (query : string) (l : list (ListSymbolItem U)) :
  Sorted (fun a b => compareItems U query a b <= 0)
    (stableSort (compareItems U query) l).
Proof.
  induction l as [|x l IH]; simpl; [constructor|].
  by apply insertSorted_Sorted.
Qed.

(** A local [foo] and a workspace [Foo] both score 3 on the query [foo], and
    the local one stays in front. *)
Example mergeResults_foo_Foo :
  mergeResults pathUtils [symbolItem "/work/main.ts" "foo" 3 9]
    [symbolItem "/work/lib.ts" "Foo" 1 4] "foo" 20
  = [symbolItem "/work/main.ts" "foo" 3 9; symbolItem "/work/lib.ts" "Foo" 1 4]
  /\ getMatchScore "foo" "foo" = 3 /\ getMatchScore "foo" "Foo" = 3.
Proof. vm_compute. done. Qed.

(** With object file paths, two symbols of the same name on the same lines
    of two files have one key. *)
Example mergeResults_object_filepaths :
  mergeResults objectUtils [objectItem "/work/main.ts" "main" 1 5]
    [objectItem "/work/lib.ts" "main" 1 5] "main" 20
  = [objectItem "/work/main.ts" "main" 1 5].
Proof. vm_compute. reflexivity. Qed.

(** C6 fails on the code.  The key of [mergeResults] is the text
    [filepath-label-start-end], not the four fields: a local symbol [b-c] in
    [/work/a] and a workspace symbol [c] in [/work/a-b], both on lines 1 to
    2, differ in file and in name and have the same key text, and the
    workspace symbol is dropped as a duplicate. *)
Theorem mergeResults_drops_symbol_with_other_fields :
  compositeKey pathUtils (symbolItem "/work/a" "b-c" 1 2)
    <> compositeKey pathUtils (symbolItem "/work/a-b" "c" 1 2)
  /\ itemKey pathUtils (symbolItem "/work/a" "b-c" 1 2)
     = itemKey pathUtils (symbolItem "/work/a-b" "c" 1 2)
  /\ mergeResults pathUtils [symbolItem "/work/a" "b-c" 1 2]
       [symbolItem "/work/a-b" "c" 1 2] "c" 20
     = [symbolItem "/work/a" "b-c" 1 2].
Proof.
  split; [discriminate|].
  split; vm_compute; reflexivity.
Qed.

(** ** Offsets and lines *)

Lemma offsetOfLine_past_end (s : string) (n : nat) :
  (countNewlines s < n)%nat -> offsetOfLine s n = String.length s.
Proof.
  revert n. induction s as [|c s IH]; intros n Hn.
  - by destruct n.
  - destruct n as [|n]; [lia|]. simpl in *.
    destruct (Ascii.eqb c newline); f_equal; apply IH; lia.
Qed.

Lemma offsetOfLine_le (s : string) (n : nat) :
  (offsetOfLine s n <= String.length s)%nat.
Proof.
  revert n. induction s as [|c s IH]; intros n.
  - by destruct n.
  - destruct n as [|n]; simpl; [lia|].
    destruct (Ascii.eqb c newline); [specialize (IH n) | specialize (IH (S n))];
      lia.
Qed.

Lemma offsetOfLine_0 (s : string) : offsetOfLine s 0 = O.
Proof. by destruct s. Qed.

(** The last line ends where the text ends. *)
Lemma lastLine_end (s : string) :
  (offsetOfLine s (countNewlines s) + lineLength s (countNewlines s))%nat
  = String.length s.
Proof.
  unfold lineLength. induction s as [|c s IH]; [done|].
  cbn [countNewlines]. destruct (Ascii.eqb c newline) eqn:Hc.
  - cbn [offsetOfLine dropString]. rewrite Hc. cbn [dropString Nat.add length].
    simpl. by rewrite IH.
  - destruct (countNewlines s) as [|m].
    + rewrite offsetOfLine_0 in *.
      cbn [dropString lineLengthFrom] in *. rewrite Hc.
      simpl in *. by rewrite IH.
    + cbn [offsetOfLine]. rewrite Hc. cbn [dropString].
      simpl. by rewrite IH.
Qed.

Lemma substring_whole (s : string) : substring 0 (String.length s) s = s.
Proof. induction s as [|c s IH]; simpl; [done | by rewrite IH]. Qed.

Lemma substring_to_end (s : string) (a : nat) :
  substring a (String.length s - a) s = dropString a s.
Proof.
  revert a. induction s as [|c s IH]; intros a.
  - by destruct a.
  - destruct a as [|a].
    + rewrite Nat.sub_0_r. apply substring_whole.
    + simpl. apply IH.
Qed.

Lemma dropString_all (s : string) : dropString (String.length s) s = EmptyString.
Proof. induction s as [|c s IH]; simpl; [done | exact IH]. Qed.

Lemma dropString_nonempty (s : string) (a : nat) :
  dropString a s <> EmptyString -> (a < String.length s)%nat.
Proof.
  revert a. induction s as [|c s IH]; intros a Hne.
  - by destruct a.
  - destruct a as [|a]; simpl in *; [lia|]. specialize (IH a Hne). lia.
Qed.

(** An offset at or after the start of line [n] lies on line [n] or later. *)
Lemma countNewlines_before (s : string) (n o : nat) :
  (n <= countNewlines s)%nat ->
  (offsetOfLine s n <= o)%nat ->
  (n <= countNewlines (substring 0 o s))%nat.
Proof.
  revert n o. induction s as [|c s IH]; intros n o Hn Ho.
  - simpl in Hn. lia.
  - destruct n as [|n]; [lia|].
    simpl in Hn, Ho. destruct o as [|o]; [lia|].
    simpl. destruct (Ascii.eqb c newline).
    + apply le_n_S. apply IH; lia.
    + apply IH; lia.
Qed.

(** [document.offsetAt(new Position(n, 0))] is the start of line [n], or the
    end of the text. *)
Lemma offsetAt_line_start (d : TextDocument) (n : nat) :
  offsetAt d {| line := n; character := 0 |} = offsetOfLine (document_text d) n.
Proof.
  unfold offsetAt, validatePosition, lineCount. cbn [line character].
  destruct (S (countNewlines (document_text d)) <=? n)%nat eqn:Hpast;
    cbn [line character].
  - apply Nat.leb_le in Hpast.
    replace (S (countNewlines (document_text d)) - 1)%nat
      with (countNewlines (document_text d)) by lia.
    rewrite lastLine_end.
    symmetry. apply offsetOfLine_past_end. lia.
  - rewrite Nat.min_0_l. lia.
Qed.

Lemma newRange_lines (a b : nat) :
  newRange a 0 b 0
  = if (a <? b)%nat
    then {| range_start := {| line := a; character := 0 |};
            range_end := {| line := b; character := 0 |} |}
    else {| range_start := {| line := b; character := 0 |};
            range_end := {| line := a; character := 0 |} |}.
Proof.
  unfold newRange, isBefore. cbn [line character].
  change (0 <? 0)%nat with false.
  by rewrite andb_false_r, orb_false_r.
Qed.

(** The window of an empty hint location at line [n]: the text from the
    start of line [n] to its end. *)
Lemma hintRange_empty_window (d : TextDocument) (location : Range) :
  isEmpty location = true ->
  let n := line (range_start location) in
  let range := hintRange d location in
  getText d (Some range) = dropString (offsetOfLine (document_text d) n) (document_text d)
  /\ offsetAt d (range_start range) = offsetOfLine (document_text d) n.
Proof.
  intros Hempty n range. unfold range, hintRange. rewrite Hempty.
  cbn [negb]. fold n. rewrite newRange_lines. unfold getText.
  assert (Hend : offsetAt d {| line := lineCount d; character := 0 |}
                 = String.length (document_text d)).
  { rewrite offsetAt_line_start. apply offsetOfLine_past_end.
    unfold lineCount. lia. }
  destruct (n <? lineCount d)%nat eqn:Hin; cbn [range_start range_end].
  - rewrite Hend, !offsetAt_line_start. split; [|done].
    apply substring_to_end.
  - apply Nat.ltb_ge in Hin.
    assert (Hn : offsetOfLine (document_text d) n = String.length (document_text d)).
    { apply offsetOfLine_past_end. unfold lineCount in Hin. lia. }
    rewrite Hend, offsetAt_line_start, Hn, Nat.sub_diag, dropString_all.
    split; [|done].
    generalize (String.length (document_text d)) as k.
    generalize (document_text d) as s.
    intros s k. revert s. induction k as [|k IH]; intros s.
    + by destruct s.
    + destruct s as [|c s]; [done|]. simpl. apply IH.
Qed.

(** ** [lookupSymbol] *)

Section LookupSymbol.

Variable U : Utils.
Variable H : Host.

(** A hit of the scan is built at one of the matches, from a definition the
    provider returned there. *)
Lemma findSymbolLoop_hit (document : TextDocument)
    (offsetInDocument : nat) (matches : list nat) (info : SymbolInfo U) :
  findSymbolLoop U H document offsetInDocument matches = Return (Some info) ->
  exists (index : nat) (location : DefinitionResult),
    In index matches
    /\ info = symbolInfoAt U document
                (positionAt document (offsetInDocument + index)) location.
Proof.
  induction matches as [|index rest IH]; simpl; [discriminate|].
  destruct (executeDefinitionProvider H _ _) as [locations|e]; simpl;
    [|discriminate].
  destruct locations as [[|location others]|].
  - intros Hrest. destruct (IH Hrest) as (i & l & Hin & Heq).
    exists i, l. by split; [right|].
  - intros [= <-]. exists index, location. by split; [left|].
  - intros Hrest. destruct (IH Hrest) as (i & l & Hin & Heq).
    exists i, l. by split; [right|].
Qed.

(** When the provider knows no definition anywhere in the file, the scan
    finds nothing. *)
Lemma findSymbolLoop_no_definition (document : TextDocument)
    (offsetInDocument : nat) (matches : list nat) :
  (forall position,
      executeDefinitionProvider H (document_uri document) position = Return None
      \/ executeDefinitionProvider H (document_uri document) position
         = Return (Some [])) ->
  findSymbolLoop U H document offsetInDocument matches = Return None.
Proof.
  intros Hnone. induction matches as [|index rest IH]; simpl; [done|].
  by destruct (Hnone (positionAt document (offsetInDocument + index)))
    as [-> | ->].
Qed.

(** A name that is not a simple identifier is rejected at once. *)
Lemma lookupSymbol_rejects_name (symbol : string)
    (hints : option (list (LookupSymbolHint U))) :
  isSimpleIdentifier symbol = false ->
  lookupSymbol U H symbol hints = Return None.
Proof. intros Hname. unfold lookupSymbol. by rewrite Hname. Qed.

(** A hint without a file path, with a path that does not resolve, or with a
    document that fails to open is passed over. *)
Lemma hintLoop_skips_unresolved (symbol : string)
    (hint : LookupSymbolHint U) (rest : list (LookupSymbolHint U)) :
  hint_filepath hint = None
  \/ (exists filepath, hint_filepath hint = Some filepath
        /\ chatPanelFilepathToLocalUri U filepath = None)
  \/ (exists filepath uri, hint_filepath hint = Some filepath
        /\ chatPanelFilepathToLocalUri U filepath = Some uri
        /\ (openTextDocument H uri = Return None
            \/ exists e, openTextDocument H uri = Throw e)) ->
  hintLoop U H symbol (hint :: rest) = hintLoop U H symbol rest.
Proof.
  intros [Hnone|[(filepath & Hpath & Huri)|(filepath & uri & Hpath & Huri & Hopen)]];
    simpl.
  - by rewrite Hnone.
  - by rewrite Hpath, Huri.
  - rewrite Hpath, Huri. by destruct Hopen as [-> | [e ->]].
Qed.

(** When the provider knows no definition, the result is null. *)
Lemma lookupSymbol_no_definition (symbol : string)
    (hints : option (list (LookupSymbolHint U))) :
  (forall uri position,
      executeDefinitionProvider H uri position = Return None
      \/ executeDefinitionProvider H uri position = Return (Some [])) ->
  lookupSymbol U H symbol hints = Return None.
Proof.
  intros Hnone. unfold lookupSymbol.
  destruct (isSimpleIdentifier symbol); [|done]. simpl.
  induction (default [] hints) as [|hint rest IH]; simpl; [done|].
  destruct (hint_filepath hint) as [filepath|]; [|done].
  destruct (chatPanelFilepathToLocalUri U filepath) as [uri|]; [|done].
  destruct (tryCatch (openTextDocument H uri) _) as [document|]; [|done].
  unfold findInHint, findSymbolInContent.
  assert (Hscan : forall offset matches,
             findSymbolLoop U H document offset matches = Return None).
  { intros. apply findSymbolLoop_no_definition. intros. apply Hnone. }
  destruct (hint_location hint) as [l|]; simpl.
  - destruct (chatPanelLocationToVSCodeRange U l); simpl;
      rewrite ?Hscan; simpl; by rewrite ?Hscan.
  - by rewrite Hscan.
Qed.

(** C3, as the code has it.  For a hint whose location is an empty range on
    line [n], [lookupSymbol] first scans the text from the start of line [n]
    to the end of the hinted document, and a hit of that scan lies on line
    [n] or later.  When that scan finds no definition the whole document is
    scanned from its start; a hit of that second scan is the result, and
    only when it finds nothing either do the remaining hints get their
    turn. *)
Theorem lookupSymbol_empty_location_window_then_document
    (symbol : string) (hint : LookupSymbolHint U)
    (rest : list (LookupSymbolHint U))
    (filepath : Filepath U) (uri : Uri) (document : TextDocument)
    (l : ChatLocation U) (location : Range) :
  isSimpleIdentifier symbol = true ->
  hint_filepath hint = Some filepath ->
  chatPanelFilepathToLocalUri U filepath = Some uri ->
  openTextDocument H uri = Return (Some document) ->
  hint_location hint = Some l ->
  chatPanelLocationToVSCodeRange U l = Some location ->
  isEmpty location = true ->
  let n := line (range_start location) in
  let text := document_text document in
  let window := dropString (offsetOfLine text n) text in
  let inWindow :=
    findSymbolInContent U H symbol document window (offsetOfLine text n) in
  let inDocument := findSymbolInContent U H symbol document text 0 in
  lookupSymbol U H symbol (Some (hint :: rest))
    = match inWindow with
      | Return None =>
          match inDocument with
          | Return None => hintLoop U H symbol rest
          | found => found
          end
      | found => found
      end
  /\ forall info,
       inWindow = Return (Some info) ->
       exists (index : nat) (definition : DefinitionResult),
         In index (matchIndices symbol window)
         /\ info = symbolInfoAt U document
                     (positionAt document (offsetOfLine text n + index))
                     definition
         /\ (n <= line (positionAt document (offsetOfLine text n + index)))%nat.
Proof.
  intros Hname Hpath Huri Hopen Hloc Hrange Hempty n text window inWindow inDocument.
  destruct (hintRange_empty_window document location Hempty) as [Htext Hoffset].
  fold n text in Htext, Hoffset. fold window in Htext.
  split.
  - unfold lookupSymbol. rewrite Hname. simpl.
    rewrite Hpath, Huri, Hopen. simpl.
    unfold findInHint. rewrite Hloc, Hrange, Htext, Hoffset.
    fold inWindow. cbn [getText]. fold text. fold inDocument.
    destruct inWindow as [[info|]|e]; simpl; [done| |done].
    by destruct inDocument as [[info|]|e].
  - intros info Hhit. unfold inWindow, findSymbolInContent in Hhit.
    apply findSymbolLoop_hit in Hhit as (index & definition & Hin & Heq).
    exists index, definition. split; [exact Hin|]. split; [exact Heq|].
    assert (Hwindow : window <> EmptyString).
    { intros Hnil. rewrite Hnil in Hin. exact Hin. }
    apply dropString_nonempty in Hwindow.
    assert (Hn : (n <= countNewlines text)%nat).
    { destruct (Nat.le_gt_cases n (countNewlines text)) as [Hle|Hgt]; [done|].
      rewrite (offsetOfLine_past_end text n Hgt) in Hwindow. lia. }
    unfold positionAt. cbn [line]. fold text.
    apply countNewlines_before; [exact Hn|].
    pose proof (offsetOfLine_le text n). lia.
Qed.

End LookupSymbol.

Lemma lookupSymbol_empty_location_witness :
  isSimpleIdentifier "y" = true
  /\ isEmpty (newRange 5 0 5 0) = true
  /\ lookupSymbol pathUtils definitionHost "y" (Some [hintAtLine 5])
     = match findSymbolInContent pathUtils definitionHost "y" appDocument
               (dropString (offsetOfLine (document_text appDocument) 5)
                  (document_text appDocument))
               (offsetOfLine (document_text appDocument) 5) with
       | Return None =>
           match findSymbolInContent pathUtils definitionHost "y" appDocument
                   (document_text appDocument) 0 with
           | Return None => hintLoop pathUtils definitionHost "y" []
           | found => found
           end
       | found => found
       end.
Proof.
  split; [reflexivity|]. split; [reflexivity|].
  exact (proj1
    (lookupSymbol_empty_location_window_then_document pathUtils definitionHost
       "y" (hintAtLine 5) [] "/work/app.ts" "/work/app.ts" appDocument
       (newRange 5 0 5 0) (newRange 5 0 5 0)
       eq_refl eq_refl eq_refl eq_refl eq_refl eq_refl eq_refl)).
Defined.

(** C3 as stated fails: with a hint at the empty point of line 5 and [x]
    on line 0 only, the scan of lines 5 to 6 finds nothing, the whole
    document is scanned, and the returned [SymbolInfo] is the one of the
    occurrence on line 0. *)
Lemma lookupSymbol_returns_occurrence_before_hint_line :
  matchIndices "x"
    (dropString (offsetOfLine (document_text appDocument) 5)
       (document_text appDocument)) = []
  /\ positionAt appDocument 0 = {| line := 0; character := 0 |}
  /\ lookupSymbol pathUtils definitionHost "x" (Some [hintAtLine 5])
     = Return (Some (symbolInfoAt pathUtils appDocument
                       {| line := 0; character := 0 |} definitionOfX))
  /\ (line {| line := 0; character := 0 |} < 5)%nat.
Proof.
  split; [vm_compute; reflexivity|].
  split; [vm_compute; reflexivity|].
  split; [vm_compute; reflexivity|].
  simpl. lia.
Qed.

(** C9 fails on the code.  The query to the definition provider is awaited
    outside any [try]: when that command rejects, [lookupSymbol] rejects
    with the same error instead of returning null. *)
Theorem lookupSymbol_propagates_provider_error :
  isSimpleIdentifier "x" = true
  /\ openTextDocument rejectingHost "/work/app.ts" = Return (Some appDocument)
  /\ lookupSymbol pathUtils rejectingHost "x" (Some [hintWithoutLocation])
     = Throw (HostError "definition provider failed").
Proof. repeat split; vm_compute; reflexivity. Qed.

(** * Further properties *)

(** ** Session state: storing, fetching, switching *)

(** X1. What is stored can be fetched: after [storeSessionState(state)],
    [fetchSessionState()] gives, for every key of [state], the value just
    stored, and for every other key the value it gave before.  With a key
    list a listed key of [state] gets the value just stored, a key of
    [state] that is not listed gets nothing, and every other key gets what
    the fetch with that list gave before the store (for a listed name of
    [Object.prototype] that is what the state inherits).  The key
    [__proto__] is left out of the second part: its assignment goes to the
    setter of the prototype. *)
Theorem storeSessionState_then_fetch (state : gmap string JsValue)
    (w : ChatWebview) (k : string) :
  properties (fetchSessionState None (storeSessionState state w)) !! k
    = match state !! k with
      | Some v => Some (Stored v)
      | None => properties (fetchSessionState None w) !! k
      end
  /\ (k <> "__proto__" ->
      forall keys,
        properties (fetchSessionState (Some keys) (storeSessionState state w)) !! k
        = match state !! k with
          | Some v => if bool_decide (k ∈ keys) then Some (Stored v) else None
          | None => properties (fetchSessionState (Some keys) w) !! k
          end).
Proof.
  assert (Hmerge : (state ∪ sessionStateOf w) !! k
                   = match state !! k with
                     | Some v => Some v
                     | None => sessionStateOf w !! k
                     end).
  { rewrite lookup_union. destruct (state !! k) as [v|]; simpl.
    - by destruct (sessionStateOf w !! k).
    - by destruct (sessionStateOf w !! k). }
  unfold fetchSessionState. rewrite sessionStateOf_store. split.
  - unfold copyOf. simpl. rewrite !lookup_fmap, Hmerge.
    by destruct (state !! k).
  - intros Hproto keys. rewrite !fetchLoop_lookup by done.
    unfold hasProperty, getProperty. rewrite Hmerge. simpl.
    rewrite lookup_empty. destruct (state !! k) as [v|]; [|done].
    by destruct (bool_decide (k ∈ keys)).
Qed.

(** X2. Two stores in a row are one store of the two objects merged, the
    later one winning on the keys they share. *)
Theorem storeSessionState_twice (first second : gmap string JsValue)
    (w : ChatWebview) :
  storeSessionState second (storeSessionState first w)
  = storeSessionState (second ∪ first) w.
Proof.
  unfold storeSessionState at 1. rewrite sessionStateOf_store.
  unfold storeSessionState, with_sessionStateMap, sessionStateKey. simpl.
  f_equal. rewrite insert_insert_eq. by rewrite (assoc_L (∪)).
Qed.

(** X3. The state of an endpoint survives a stay at another endpoint: what
    was stored under A is fetched again after the configuration went to B,
    something was stored there, and the configuration came back to A. *)
Theorem sessionState_survives_endpoint_switch (w : ChatWebview)
    (cfgA cfgB : ServerConfig) (stateA stateB : gmap string JsValue)
    (keys : option (list string)) :
  endpoint cfgA <> endpoint cfgB ->
  let atA := storeSessionState stateA (with_currentConfig (Some cfgA) w) in
  let atB := storeSessionState stateB (with_currentConfig (Some cfgB) atA) in
  fetchSessionState keys (with_currentConfig (Some cfgA) atB)
  = fetchSessionState keys atA.
Proof.
  intros Hne atA atB.
  assert (Hpart : sessionStateOf (with_currentConfig (Some cfgA) atB)
                  = sessionStateOf atA).
  { unfold sessionStateOf, atB, storeSessionState, sessionStateKey. simpl.
    by rewrite lookup_insert_ne by done. }
  unfold fetchSessionState. by rewrite Hpart.
Qed.

Lemma sessionState_survives_endpoint_switch_witness :
  endpoint serverA <> endpoint serverB
  /\ fetchSessionState None
       (with_currentConfig (Some serverA)
          (storeSessionState {["draft" := JStr "b"]}
             (with_currentConfig (Some serverB)
                (storeSessionState {["draft" := JStr "a"]}
                   (with_currentConfig (Some serverA) blankWebview)))))
     = fetchSessionState None
         (storeSessionState {["draft" := JStr "a"]}
            (with_currentConfig (Some serverA) blankWebview)).
Proof.
  assert (Hne : endpoint serverA <> endpoint serverB) by discriminate.
  split; [exact Hne|].
  exact (sessionState_survives_endpoint_switch blankWebview serverA serverB
           {["draft" := JStr "a"]} {["draft" := JStr "b"]} None Hne).
Defined.

(** ** The queue: several operations, navigation, a handle without 0.8.0 *)

(** What [initChatPanel] returns, in full. *)
Lemma initChatPanel_unfold (isMac : bool) (c : ServerApiList) (w : ChatWebview) :
  let flushed :=
    with_pendingActions []
      (settled (Emit "didChangedStatus" "ready"
                :: flat_map (pendingEvents c) (pendingActions w))
         (flat_map (pendingRejections c) (pendingActions w))
         (with_createClientTimeout false (with_client (Some c) w))) in
  let authorization :=
    match currentConfig w with Some cfg => token cfg | None => EmptyString end in
  initChatPanel isMac c w
  = match callMethod (c !! "0.8.0") "0.8.0" M_init
            (ArgInit authorization isMac) with
    | Return es =>
        (emit (es ++ [PostMessage "showChatPanel"]) flushed, Return tt)
    | Throw e => (flushed, Throw e)
    end.
Proof.
  unfold initChatPanel. cbn zeta.
  rewrite (forEach_events c) by done. simpl.
  destruct (callMethod (c !! "0.8.0") "0.8.0" M_init _) as [es|e]; simpl;
    unfold emit, settled, with_pendingActions, with_createClientTimeout,
      with_client;
    simpl; rewrite <- ?app_assoc; done.
Qed.




Lemma callMethod_events entry version m a es (e : Event) :
  callMethod entry version m a = Return es -> In e es ->
  e = PanelCall version m a.
Proof.
  unfold callMethod. destruct entry as [api|]; [|done].
  destruct (bool_decide _); [|done]. intros [= <-] [<-|[]]. done.
Qed.

Lemma callMethodOpt_events entry version m a es (e : Event) :
  callMethodOpt entry version m a = Return es -> In e es ->
  e = PanelCall version m a.
Proof.
  unfold callMethodOpt. destruct entry as [api|].
  - apply callMethod_events.
  - by intros [= <-] [].
Qed.

(** A queued closure neither navigates nor reveals the panel. *)
Lemma pendingEvents_calls (c : ServerApiList) (fn : PendingAction) (e : Event) :
  In e (pendingEvents c fn) ->
  isNavigateCall e = false /\ isShowChatPanel e = false.
Proof.
  unfold pendingEvents. intros [<-|Hin]; [done|].
  destruct (invocation c (operationOf fn)) as [es|err] eqn:Hinv.
  - assert (Hcall : exists version m a,
               e = PanelCall version m a /\ m <> M_navigate).
    { destruct fn as [selection|context|command]; simpl in Hinv.
      - eexists _, _, _. split; [eapply callMethod_events; eauto | done].
      - destruct (kind context).
        + eexists _, _, _. split; [eapply callMethod_events; eauto | done].
        + eexists _, _, _. split; [eapply callMethodOpt_events; eauto | done].
      - destruct (String.eqb command "explain-terminal").
        + eexists _, _, _. split; [eapply callMethodOpt_events; eauto | done].
        + eexists _, _, _. split; [eapply callMethod_events; eauto | done]. }
    destruct Hcall as (version & m & a & -> & Hm). by destruct m.
  - destruct Hin.
Qed.

Lemma flush_calls (c : ServerApiList) (q : list PendingAction) (e : Event) :
  In e (flat_map (pendingEvents c) q) ->
  isNavigateCall e = false /\ isShowChatPanel e = false.
Proof.
  intros Hin. apply in_flat_map in Hin as (fn & _ & Hin).
  by apply (pendingEvents_calls c fn).
Qed.

(** X5. Navigation is not queued: [navigate] invoked while there is no
    handle changes nothing, and the [initChatPanel] that follows sends no
    [navigate] call to the panel, whatever the handle and the queue. *)
Theorem navigate_without_handle_is_dropped (view : ChatView) (w : ChatWebview)
    (c : ServerApiList) (isMac : bool) :
  client w = None ->
  navigate view w = (w, Return tt)
  /\ exists added,
       trace (fst (initChatPanel isMac c (fst (navigate view w))))
       = trace w ++ added
       /\ forall e, In e added -> isNavigateCall e = false.
Proof.
  intros Hnone.
  assert (Hnav : navigate view w = (w, Return tt))
    by (unfold navigate; by rewrite Hnone).
  split; [exact Hnav|]. rewrite Hnav. simpl.
  pose proof (initChatPanel_unfold isMac c w) as Hinit. cbn zeta in Hinit.
  rewrite Hinit.
  destruct (callMethod (c !! "0.8.0") "0.8.0" M_init _) as [es|err] eqn:Hcall;
    simpl.
  - exists ((Emit "didChangedStatus" "ready"
              :: flat_map (pendingEvents c) (pendingActions w))
             ++ es ++ [PostMessage "showChatPanel"]).
    split; [by rewrite <- (app_assoc (trace w))|].
    intros e Hin. apply in_app_or in Hin as [Hin|Hin].
    + destruct Hin as [<-|Hin]; [done|]. exact (proj1 (flush_calls c _ e Hin)).
    + apply in_app_or in Hin as [Hin|[<-|[]]]; [|done].
      by rewrite (callMethod_events _ _ _ _ _ _ Hcall Hin).
  - exists (Emit "didChangedStatus" "ready"
            :: flat_map (pendingEvents c) (pendingActions w)).
    split; [done|].
    intros e [<-|Hin]; [done|]. exact (proj1 (flush_calls c _ e Hin)).
Qed.

Lemma navigate_without_handle_witness :
  client blankWebview = None
  /\ navigate "history" blankWebview = (blankWebview, Return tt).
Proof.
  split; [reflexivity|].
  exact (proj1 (navigate_without_handle_is_dropped "history" blankWebview
                  baseHandle false eq_refl)).
Defined.

(** Without the key 0.8.0 a queued closure writes its log line and calls
    the panel under 0.10.0 at most. *)
Lemma pendingEvents_without_base_key (c : ServerApiList) (fn : PendingAction)
    (e : Event) :
  c !! "0.8.0" = None ->
  In e (pendingEvents c fn) ->
  e = LogInfo (pendingLogLine fn) \/ exists m a, e = PanelCall "0.10.0" m a.
Proof.
  intros Hkey. unfold pendingEvents. intros [<-|Hin]; [by left|]. right.
  destruct (invocation c (operationOf fn)) as [es|err] eqn:Hinv; [|done].
  destruct fn as [selection|context|command]; simpl in Hinv.
  - by rewrite Hkey in Hinv.
  - destruct (kind context); [by rewrite Hkey in Hinv|].
    eexists _, _. eapply callMethodOpt_events; eauto.
  - destruct (String.eqb command "explain-terminal"); [|by rewrite Hkey in Hinv].
    eexists _, _. eapply callMethodOpt_events; eauto.
Qed.

(** X6. On a handle that lacks the key 0.8.0, [initChatPanel] still sets the
    handle, runs the queued closures and empties the queue, then fails with
    a TypeError at the call of [init].  The trace gets the log line of every
    closure and the calls under 0.10.0, in queue order, and nothing else:
    no call under 0.8.0 reaches the panel and the panel is never told to
    show itself; the promise of every closure whose call threw is rejected,
    in queue order, with nobody awaiting it, and the queued operations are
    gone. *)
Theorem initChatPanel_without_base_key (isMac : bool) (c : ServerApiList)
    (w : ChatWebview) :
  c !! "0.8.0" = None ->
  snd (initChatPanel isMac c w)
    = Throw (TypeError "Cannot read properties of undefined")
  /\ client (fst (initChatPanel isMac c w)) = Some c
  /\ pendingActions (fst (initChatPanel isMac c w)) = []
  /\ trace (fst (initChatPanel isMac c w))
     = trace w ++ Emit "didChangedStatus" "ready"
                  :: flat_map (pendingEvents c) (pendingActions w)
  /\ rejected (fst (initChatPanel isMac c w))
     = rejected w ++ flat_map (pendingRejections c) (pendingActions w)
  /\ (forall fn e,
        In fn (pendingActions w) -> In e (pendingEvents c fn) ->
        e = LogInfo (pendingLogLine fn) \/ exists m a, e = PanelCall "0.10.0" m a)
  /\ (forall selection,
        pendingRejections c (PendingSetActiveSelection selection)
        = [TypeError "Cannot read properties of undefined"]).
Proof.
  intros Hkey.
  pose proof (initChatPanel_unfold isMac c w) as Hinit. cbn zeta in Hinit.
  rewrite Hinit, Hkey. simpl.
  repeat (split; [done|]). split.
  - intros fn e _. by apply pendingEvents_without_base_key.
  - intros selection. unfold pendingRejections. simpl. by rewrite Hkey.
Qed.

Lemma initChatPanel_without_base_key_witness :
  terminalOnlyHandle !! "0.8.0" = None
  /\ snd (initChatPanel false terminalOnlyHandle
            (invokeAll [OpSetActiveSelection fileSelection;
                        OpAddRelevantContext terminalContext] blankWebview))
     = Throw (TypeError "Cannot read properties of undefined")
  /\ rejected
       (fst (initChatPanel false terminalOnlyHandle
               (invokeAll [OpSetActiveSelection fileSelection;
                           OpAddRelevantContext terminalContext] blankWebview)))
     = rejected (invokeAll [OpSetActiveSelection fileSelection;
                            OpAddRelevantContext terminalContext] blankWebview)
       ++ flat_map (pendingRejections terminalOnlyHandle)
            (pendingActions
               (invokeAll [OpSetActiveSelection fileSelection;
                           OpAddRelevantContext terminalContext] blankWebview)).
Proof.
  assert (Hkey : terminalOnlyHandle !! "0.8.0" = None) by (vm_compute; reflexivity).
  split; [exact Hkey|]. split.
  - exact (proj1 (initChatPanel_without_base_key false terminalOnlyHandle
                    (invokeAll [OpSetActiveSelection fileSelection;
                                OpAddRelevantContext terminalContext]
                       blankWebview) Hkey)).
  - exact (proj1 (proj2 (proj2 (proj2 (proj2
      (initChatPanel_without_base_key false terminalOnlyHandle
         (invokeAll [OpSetActiveSelection fileSelection;
                     OpAddRelevantContext terminalContext] blankWebview)
         Hkey)))))).
Defined.

(** The run of the witness in full: both closures log, the terminal one
    calls the panel under 0.10.0, the other one is rejected. *)
Example initChatPanel_without_base_key_run :
  trace (fst (initChatPanel false terminalOnlyHandle
                (invokeAll [OpSetActiveSelection fileSelection;
                            OpAddRelevantContext terminalContext] blankWebview)))
  = [Emit "didChangedStatus" "ready";
     LogInfo (LogSetPendingActiveSelection fileSelection);
     LogInfo (LogAddingPendingRelevantContext terminalContext);
     PanelCall "0.10.0" M_addRelevantContext (ArgContext terminalContext)]
  /\ rejected (fst (initChatPanel false terminalOnlyHandle
                      (invokeAll [OpSetActiveSelection fileSelection;
                                  OpAddRelevantContext terminalContext]
                         blankWebview)))
     = [TypeError "Cannot read properties of undefined"].
Proof. vm_compute. split; reflexivity. Qed.

(** ** Change collection: the budget, the order, no budget *)

Lemma charCount_app (l1 l2 : list ChangeItem) :
  charCount (l1 ++ l2) = charCount l1 + charCount l2.
Proof.
  unfold charCount. rewrite fold_left_app, charCount_from.
  unfold charCount. lia.
Qed.

Lemma firstFitOrStop_sublist (budget : Z) (diffs : list string) :
  firstFitOrStop budget diffs `sublist_of` diffs.
Proof.
  destruct (firstFitOrStop_prefix budget diffs) as (k & -> & _).
  apply sublist_take.
Qed.

Lemma firstFitOrStop_within (budget : Z) (diffs : list string) :
  0 <= budget -> totalLength (firstFitOrStop budget diffs) <= budget.
Proof.
  intros Hb. destruct (firstFitOrStop_prefix budget diffs) as (k & -> & Hle & _).
  by apply Hle.
Qed.

Section ChangeBudget.

Variable G : GitProvider.

(** A phase never collects more characters than its budget. *)
Lemma getRepoChanges_within_budget (repos : list (Repository G))
    (stagedFlag : bool) (budget : Z) :
  charCount (getRepoChanges G repos stagedFlag (Some budget)) <= Z.max 0 budget.
Proof.
  revert budget. induction repos as [|repo repos IH]; intros budget.
  - rewrite getRepoChanges_nil. unfold charCount. simpl. lia.
  - destruct (Z.le_gt_cases budget 0) as [Hle|Hpos].
    + rewrite getRepoChanges_nonpositive by done. unfold charCount. simpl. lia.
    + rewrite getRepoChanges_cons by lia. cbn zeta.
      rewrite getRepoChanges_single by lia.
      rewrite charCount_changeItems.
      pose proof (firstFitOrStop_within budget
                    (default [] (getDiff G repo stagedFlag))) as Hfirst.
      destruct (budget <=? _) eqn:Hfull.
      * rewrite charCount_changeItems. lia.
      * apply Z.leb_gt in Hfull.
        rewrite charCount_app, charCount_changeItems.
        specialize (IH (budget
                        - totalLength (firstFitOrStop budget
                                         (default [] (getDiff G repo stagedFlag))))).
        lia.
Qed.

(** The diffs of a phase come out whole, in repository and diff-list order,
    each at most once. *)
Lemma getRepoChanges_sublist (repos : list (Repository G)) (stagedFlag : bool)
    (charLimit : option Z) :
  exists taken,
    getRepoChanges G repos stagedFlag charLimit = map (changeItem stagedFlag) taken
    /\ taken `sublist_of` allDiffs G repos stagedFlag.
Proof.
  destruct charLimit as [budget|].
  2:{ exists (allDiffs G repos stagedFlag). split; [|done].
      unfold getRepoChanges. simpl. by rewrite repoLoop_unlimited. }
  revert budget. induction repos as [|repo repos IH]; intros budget.
  - exists []. by rewrite getRepoChanges_nil.
  - destruct (Z.le_gt_cases budget 0) as [Hle|Hpos].
    + exists []. rewrite getRepoChanges_nonpositive by done.
      split; [done | apply sublist_nil_l].
    + rewrite getRepoChanges_cons by lia. cbn zeta.
      rewrite getRepoChanges_single by lia.
      unfold allDiffs. cbn [flat_map].
      set (diffs := default [] (getDiff G repo stagedFlag)).
      pose proof (firstFitOrStop_sublist budget diffs) as Hsub.
      destruct (budget <=? _).
      * exists (firstFitOrStop budget diffs). split; [done|].
        by apply sublist_inserts_r.
      * destruct (IH (budget
                      - charCount (map (changeItem stagedFlag)
                                     (firstFitOrStop budget diffs))))
          as (rest & -> & Hrest).
        exists (firstFitOrStop budget diffs ++ rest).
        split; [by rewrite map_app | by apply sublist_app].
Qed.

(** X7. [getChanges] keeps to its budget: the characters of all diffs
    returned, staged and unstaged together, never exceed [maxChars], and a
    budget of zero or less returns nothing. *)
Theorem getChanges_within_budget (maxChars : Z) :
  charCount (getChanges G (Some maxChars)) <= Z.max 0 maxChars
  /\ (maxChars <= 0 -> getChanges G (Some maxChars) = []).
Proof.
  unfold getChanges.
  destruct (isApiAvailable G); simpl;
    [|split; [unfold charCount; simpl; lia | done]].
  destruct (getRepositories G) as [repositories|];
    [|split; [unfold charCount; simpl; lia | done]].
  pose proof (getRepoChanges_within_budget repositories true maxChars) as Hstaged.
  pose proof (getRepoChanges_within_budget repositories false
                (maxChars
                 - charCount (getRepoChanges G repositories true (Some maxChars))))
    as Hunstaged.
  split.
  - rewrite charCount_app.
    destruct (Z.le_gt_cases maxChars 0) as [Hle|Hpos].
    + rewrite (getRepoChanges_nonpositive G repositories true) in * by done.
      unfold charCount in *. simpl in *.
      rewrite (getRepoChanges_nonpositive G repositories false) by lia.
      simpl. lia.
    + lia.
  - intros Hle.
    rewrite (getRepoChanges_nonpositive G repositories true) by done.
    unfold charCount. simpl.
    by rewrite (getRepoChanges_nonpositive G repositories false) by lia.
Qed.

(** X8. [getChanges] returns whole diffs only, the staged ones before the
    unstaged ones, and within each kind in repository order and diff-list
    order, none of them twice: the contents are a subsequence of the staged
    diffs of all repositories followed by a subsequence of the unstaged
    ones. *)
Theorem getChanges_keeps_order (maxChars : option Z) :
  exists stagedDiffs unstagedDiffs,
    getChanges G maxChars
    = map (changeItem true) stagedDiffs ++ map (changeItem false) unstagedDiffs
    /\ stagedDiffs `sublist_of` allDiffs G (default [] (getRepositories G)) true
    /\ unstagedDiffs `sublist_of` allDiffs G (default [] (getRepositories G)) false.
Proof.
  unfold getChanges.
  destruct (isApiAvailable G); simpl;
    [|exists [], []; repeat split; apply sublist_nil_l].
  destruct (getRepositories G) as [repositories|]; simpl;
    [|exists [], []; repeat split; apply sublist_nil_l].
  destruct (getRepoChanges_sublist repositories true maxChars)
    as (stagedDiffs & Hstaged & Hsub1).
  rewrite Hstaged.
  destruct (getRepoChanges_sublist repositories false
              match maxChars with
              | Some m => Some (m - charCount (map (changeItem true) stagedDiffs))
              | None => None
              end) as (unstagedDiffs & Hunstaged & Hsub2).
  rewrite Hunstaged. by exists stagedDiffs, unstagedDiffs.
Qed.

(** X9. Without [maxChars] nothing is left out: every staged diff of every
    repository, then every unstaged one; and without the git API or without
    repositories the result is empty. *)
Theorem getChanges_without_budget :
  getChanges G None
  = if isApiAvailable G
    then map (changeItem true) (allDiffs G (default [] (getRepositories G)) true)
         ++ map (changeItem false)
              (allDiffs G (default [] (getRepositories G)) false)
    else [].
Proof.
  destruct (isApiAvailable G) eqn:Havailable.
  - destruct (getRepositories G) as [repositories|] eqn:Hrepos.
    + by apply getChanges_unlimited.
    + unfold getChanges. by rewrite Havailable, Hrepos.
  - unfold getChanges. by rewrite Havailable.
Qed.

End ChangeBudget.

(** ** [listSymbols]: the bound, the merge *)

Lemma slice0_is_take {A} (l : list A) (endIndex : Z) :
  exists k, slice0 l endIndex = take k l.
Proof. unfold slice0. by eexists. Qed.

Lemma slice0_length {A} (l : list A) (endIndex : Z) :
  0 <= endIndex -> (length (slice0 l endIndex) <= Z.to_nat endIndex)%nat.
Proof.
  intros Hpos. rewrite slice0_take by done. rewrite length_take. lia.
Qed.

(** X10. [listSymbols] never returns more items than the limit in force (the
    given limit, or 20 when it is missing, zero or negative), whatever the
    query, the document and the workspace answer. *)
Theorem listSymbols_at_most_limit (U : Utils) (H : Host) (query : string)
    (limit : option Z) :
  (length (fst (listSymbols U H query limit))
   <= Z.to_nat (effectiveLimit limit))%nat.
Proof.
  pose proof (effectiveLimit_positive limit) as Hpos.
  unfold listSymbols.
  destruct (activeTextEditor H) as [editor|]; [|simpl; lia].
  destruct (executeDocumentSymbolProvider H _) as [symbols|e]; [|simpl; lia].
  destruct (String.eqb query EmptyString); simpl.
  - rewrite length_map. apply slice0_length. lia.
  - unfold mergeResults. apply slice0_length. lia.
Qed.

Section MergeResults.

Variable U : Utils.

Lemma uniqueLoop_acc (items : list (ListSymbolItem U)) (seen : gset string)
    (acc : list (ListSymbolItem U)) :
  uniqueLoop U items seen acc = acc ++ uniqueLoop U items seen [].
Proof.
  revert seen acc.
  induction items as [|item items IH]; intros seen acc; simpl.
  - by rewrite app_nil_r.
  - destruct (bool_decide (itemKey U item ∈ seen)); [apply IH|].
    rewrite IH, (IH _ [item]). by rewrite <- app_assoc.
Qed.

(** What the loop keeps comes from the input and was not seen before. *)
Lemma uniqueLoop_In (items : list (ListSymbolItem U)) (seen : gset string)
    (x : ListSymbolItem U) :
  In x (uniqueLoop U items seen []) -> In x items /\ itemKey U x ∉ seen.
Proof.
  revert seen.
  induction items as [|item items IH]; intros seen; simpl; [done|].
  case_bool_decide as Hseen.
  - intros Hin. destruct (IH _ Hin). by split; [right|].
  - rewrite uniqueLoop_acc. intros [<-|Hin]; [by split; [left|]|].
    destruct (IH _ Hin) as [Hitems Hnew]. split; [by right|].
    intros Hx. apply Hnew. by apply elem_of_union_r.
Qed.

Lemma uniqueLoop_NoDup (items : list (ListSymbolItem U)) (seen : gset string) :
  NoDup (map (itemKey U) (uniqueLoop U items seen [])).
Proof.
  revert seen.
  induction items as [|item items IH]; intros seen; simpl; [constructor|].
  case_bool_decide as Hseen; [apply IH|].
  rewrite uniqueLoop_acc. simpl. constructor; [|apply IH].
  intros Hin. apply list_elem_of_In, in_map_iff in Hin as (y & Hkey & Hy).
  apply uniqueLoop_In in Hy as [_ Hnew]. apply Hnew.
  rewrite Hkey. apply elem_of_union_l. by apply elem_of_singleton.
Qed.

(** The first item of each key text is kept. *)
Lemma uniqueLoop_first (before after : list (ListSymbolItem U))
    (x : ListSymbolItem U) (seen : gset string) :
  itemKey U x ∉ seen ->
  ~ In (itemKey U x) (map (itemKey U) before) ->
  In x (uniqueLoop U (before ++ x :: after) seen []).
Proof.
  revert seen.
  induction before as [|y before IH]; intros seen Hnew Hfirst; simpl.
  - rewrite bool_decide_eq_false_2 by done. rewrite uniqueLoop_acc. by left.
  - simpl in Hfirst. case_bool_decide as Hseen.
    + apply IH; [done | tauto].
    + rewrite uniqueLoop_acc. right. apply IH; [|tauto].
      intros Hin. apply elem_of_union in Hin as [Hin|Hin]; [|done].
      apply elem_of_singleton in Hin. apply Hfirst. by left.
Qed.

Lemma compareItems_ranked (query : string) (a b : ListSymbolItem U) :
  compareItems U query a b <= 0 <-> rankedBefore U query a b.
Proof.
  unfold compareItems, rankedBefore.
  destruct (Z.eqb_spec (getMatchScore query (item_label b))
              (getMatchScore query (item_label a))) as [Heq|Hne]; simpl; lia.
Qed.

#[local] Instance rankedBefore_transitive (query : string) :
  Transitive (rankedBefore U query).
Proof. intros a b c. unfold rankedBefore. lia. Qed.

Lemma Sorted_weaken {A} (R1 R2 : A -> A -> Prop) (l : list A) :
  (forall a b, R1 a b -> R2 a b) -> Sorted R1 l -> Sorted R2 l.
Proof.
  intros Himpl. induction 1 as [|x l Hsorted IH Hhd]; constructor; [done|].
  destruct Hhd; constructor. by apply Himpl.
Qed.

(** X12. [mergeResults] returns no two items with the same key text, and
    nothing that was not among the local or the workspace items; when the
    limit does not truncate, the first item of each key text, local items
    counting before workspace items, is among the results. *)
Theorem mergeResults_unique_from_inputs (local workspace : list (ListSymbolItem U))
    (query : string) (limit : Z) :
  NoDup (map (itemKey U) (mergeResults U local workspace query limit))
  /\ (forall x, In x (mergeResults U local workspace query limit) ->
        In x local \/ In x workspace)
  /\ (Z.of_nat (length (local ++ workspace)) <= limit ->
      forall before x after,
        local ++ workspace = before ++ x :: after ->
        ~ In (itemKey U x) (map (itemKey U) before) ->
        In x (mergeResults U local workspace query limit)).
Proof.
  unfold mergeResults.
  set (unique := uniqueLoop U (local ++ workspace) ∅ []).
  set (sorted := stableSort (compareItems U query) unique).
  assert (Hperm : Permutation unique sorted) by apply stableSort_Permutation.
  destruct (slice0_is_take sorted limit) as [k Hk]. rewrite Hk.
  split; [|split].
  - apply (sublist_NoDup _ (map (itemKey U) sorted)).
    + rewrite <- Hperm. apply uniqueLoop_NoDup.
    + rewrite <- firstn_map. apply sublist_take.
  - intros x Hin.
    assert (Hi : In x sorted).
    { rewrite <- (take_drop k sorted). apply in_or_app. by left. }
    apply (Permutation_in _ (Permutation_sym Hperm)) in Hi.
    apply uniqueLoop_In in Hi as [Hi _]. by apply in_app_or.
  - intros Hlimit before x after Hsplit Hfirst. rewrite <- Hk.
    assert (Hlen : (length sorted <= length (local ++ workspace))%nat).
    { rewrite <- (Permutation_length Hperm). unfold unique.
      assert (Hsub : forall items seen,
                 (length (uniqueLoop U items seen []) <= length items)%nat).
      { induction items as [|item items IH]; intros seen; simpl; [done|].
        case_bool_decide.
        - specialize (IH seen). lia.
        - rewrite uniqueLoop_acc. simpl. specialize (IH ({[itemKey U item]} ∪ seen)).
          lia. }
      apply Hsub. }
    rewrite slice0_take by lia. rewrite firstn_all2 by lia.
    apply (Permutation_in _ Hperm). unfold unique. rewrite Hsplit.
    apply uniqueLoop_first; [apply not_elem_of_empty | done].
Qed.

(** X13. The items of [mergeResults] are ranked: of any two, the earlier
    one has the higher score, or the same score and a label that is not
    longer. *)
Theorem mergeResults_ranked (local workspace : list (ListSymbolItem U))
    (query : string) (limit : Z) :
  StronglySorted (rankedBefore U query)
    (mergeResults U local workspace query limit).
Proof.
  unfold mergeResults.
  set (sorted := stableSort (compareItems U query) _).
  destruct (slice0_is_take sorted limit) as [k ->].
  assert (Hsorted : StronglySorted (rankedBefore U query) sorted).
  { apply Sorted_StronglySorted; [apply _|].
    apply (Sorted_weaken (fun a b => compareItems U query a b <= 0)).
    - intros a b. apply compareItems_ranked.
    - apply stableSort_Sorted. }
  rewrite <- (take_drop k sorted) in Hsorted.
  by apply StronglySorted_app_1_l in Hsorted.
Qed.

End MergeResults.

Lemma prefix_same (s : string) : String.prefix s s = true.
Proof.
  induction s as [|c s IH]; simpl; [done|].
  by destruct (ascii_dec c c).
Qed.

Lemma includes_prefix (hay needle : string) :
  String.prefix needle hay = true -> includes hay needle = true.
Proof. intros Hp. destruct hay; cbn [includes]; by rewrite Hp. Qed.

Lemma lowerChar_idempotent (c : ascii) : lowerChar (lowerChar c) = lowerChar c.
Proof. destruct c as [[] [] [] [] [] [] [] []]; vm_compute; reflexivity. Qed.

Lemma toLowerCase_idempotent (s : string) :
  toLowerCase (toLowerCase s) = toLowerCase s.
Proof.
  induction s as [|c s IH]; simpl; [done|].
  by rewrite lowerChar_idempotent, IH.
Qed.

(** X14. The score of a label ignores case, lies between 0 and 3, is 3
    exactly when label and query are equal up to case, and is above 0
    exactly when the label contains the query up to case. *)
Theorem getMatchScore_levels (query label : string) :
  0 <= getMatchScore query label <= 3
  /\ (getMatchScore query label = 3
      <-> toLowerCase label = toLowerCase query)
  /\ (0 < getMatchScore query label
      <-> includes (toLowerCase label) (toLowerCase query) = true)
  /\ getMatchScore (toLowerCase query) (toLowerCase label)
     = getMatchScore query label.
Proof.
  unfold getMatchScore, startsWith. rewrite !toLowerCase_idempotent.
  split; [|split; [|split]]; [| | |done].
  - destruct (String.eqb _ _); [lia|].
    destruct (String.prefix _ _); [lia|].
    destruct (includes _ _); lia.
  - destruct (String.eqb_spec (toLowerCase label) (toLowerCase query)) as [Heq|Hne].
    + done.
    + split; [|done].
      destruct (String.prefix _ _); [lia|].
      destruct (includes _ _); lia.
  - destruct (String.eqb_spec (toLowerCase label) (toLowerCase query)) as [Heq|Hne].
    + split; [|lia]. intros _. rewrite Heq.
      apply includes_prefix, prefix_same.
    + destruct (String.prefix _ _) eqn:Hprefix.
      * split; [|lia]. intros _. by apply includes_prefix.
      * destruct (includes _ _); split; (lia || done).
Qed.

(** ** [lookupSymbol]: no result, what a result is *)

Section LookupSymbolMore.

Variable U : Utils.
Variable H : Host.

(** X17. Nothing found is null: when the definition provider knows no
    definition at any position of the documents that the hints open (it
    answers nothing or an empty list there), the result is null and not an
    error, however many occurrences of the name these documents hold; with
    no hints this is the case. *)
Theorem lookupSymbol_nothing_found (symbol : string)
    (hints : option (list (LookupSymbolHint U))) :
  (forall hint filepath uri document position,
      In hint (default [] hints) ->
      hint_filepath hint = Some filepath ->
      chatPanelFilepathToLocalUri U filepath = Some uri ->
      openTextDocument H uri = Return (Some document) ->
      executeDefinitionProvider H (document_uri document) position = Return None
      \/ executeDefinitionProvider H (document_uri document) position
         = Return (Some [])) ->
  lookupSymbol U H symbol hints = Return None.
Proof.
  intros Hnone. unfold lookupSymbol.
  destruct (isSimpleIdentifier symbol); [|done]. simpl.
  induction (default [] hints) as [|hint rest IH]; simpl; [done|].
  assert (Hrest : hintLoop U H symbol rest = Return None).
  { apply IH. intros hint' filepath uri document position Hin.
    apply Hnone. by right. }
  destruct (hint_filepath hint) as [filepath|] eqn:Hpath; [|done].
  destruct (chatPanelFilepathToLocalUri U filepath) as [uri|] eqn:Huri; [|done].
  destruct (openTextDocument H uri) as [[document|]|e] eqn:Hopen; simpl; [|done..].
  assert (Hscan : forall offset matches,
             findSymbolLoop U H document offset matches = Return None).
  { intros offset matches. apply findSymbolLoop_no_definition. intros position.
    apply (Hnone hint filepath uri document position); by try left. }
  unfold findInHint, findSymbolInContent.
  destruct (hint_location hint) as [l|]; simpl.
  - destruct (chatPanelLocationToVSCodeRange U l); simpl;
      rewrite ?Hscan; simpl; by rewrite ?Hscan.
  - by rewrite Hscan.
Qed.

(** A hit of the scan, with the answer of the provider it was built from. *)
Lemma findSymbolLoop_answer (document : TextDocument) (offsetInDocument : nat)
    (matches : list nat) (info : SymbolInfo U) :
  findSymbolLoop U H document offsetInDocument matches = Return (Some info) ->
  exists (index : nat) (location : DefinitionResult)
         (others : list DefinitionResult),
    In index matches
    /\ executeDefinitionProvider H (document_uri document)
         (positionAt document (offsetInDocument + index))
       = Return (Some (location :: others))
    /\ info = symbolInfoAt U document
                (positionAt document (offsetInDocument + index)) location.
Proof.
  induction matches as [|index rest IH]; simpl; [discriminate|].
  destruct (executeDefinitionProvider H _ _) as [locations|e] eqn:Hprovider;
    simpl; [|discriminate].
  destruct locations as [[|location others]|].
  - intros Hrest. destruct (IH Hrest) as (i & l & o & Hin & Hp & Heq).
    exists i, l, o. by split; [right|].
  - intros [= <-]. exists index, location, others. by split; [left|].
  - intros Hrest. destruct (IH Hrest) as (i & l & o & Hin & Hp & Heq).
    exists i, l, o. by split; [right|].
Qed.

(** X18. A [SymbolInfo] that [lookupSymbol] returns is never made up: the
    name passed the guard, the document was opened from the file of one of
    the hints, and the target is the first definition that the provider
    returned at the source position in that document. *)
Theorem lookupSymbol_result_is_provider_answer (symbol : string)
    (hints : option (list (LookupSymbolHint U))) (info : SymbolInfo U) :
  lookupSymbol U H symbol hints = Return (Some info) ->
  isSimpleIdentifier symbol = true
  /\ exists hint filepath uri document position location others,
       In hint (default [] hints)
       /\ hint_filepath hint = Some filepath
       /\ chatPanelFilepathToLocalUri U filepath = Some uri
       /\ openTextDocument H uri = Return (Some document)
       /\ executeDefinitionProvider H (document_uri document) position
          = Return (Some (location :: others))
       /\ info = symbolInfoAt U document position location.
Proof.
  unfold lookupSymbol.
  destruct (isSimpleIdentifier symbol); [|discriminate]. cbn [negb].
  intros Hfound. split; [done|].
  induction (default [] hints) as [|hint rest IH]; simpl in Hfound;
    [discriminate|].
  assert (Hrest : hintLoop U H symbol rest = Return (Some info) ->
            exists hint0 filepath uri document position location others,
              In hint0 (hint :: rest)
              /\ hint_filepath hint0 = Some filepath
              /\ chatPanelFilepathToLocalUri U filepath = Some uri
              /\ openTextDocument H uri = Return (Some document)
              /\ executeDefinitionProvider H (document_uri document) position
                 = Return (Some (location :: others))
              /\ info = symbolInfoAt U document position location).
  { intros Hr. destruct (IH Hr) as (h & f & u & d & p & l & o & Hin & Hrest).
    exists h, f, u, d, p, l, o. by split; [right|]. }
  destruct (hint_filepath hint) as [filepath|] eqn:Hpath; [|by apply Hrest].
  destruct (chatPanelFilepathToLocalUri U filepath) as [uri|] eqn:Huri;
    [|by apply Hrest].
  destruct (openTextDocument H uri) as [[document|]|e] eqn:Hopen;
    simpl in Hfound; [|by apply Hrest|by apply Hrest].
  destruct (findInHint U H symbol document hint) as [[found|]|e] eqn:Hhint;
    simpl in Hfound; [|by apply Hrest|discriminate].
  injection Hfound as ->.
  assert (Hscan : exists content offset,
             findSymbolInContent U H symbol document content offset
             = Return (Some info)).
  { unfold findInHint in Hhint.
    destruct (hint_location hint) as [l|]; simpl in Hhint.
    - destruct (chatPanelLocationToVSCodeRange U l) as [location|];
        simpl in Hhint.
      + match type of Hhint with
        | bindC ?scan _ = _ =>
            destruct scan as [[inWindow|]|e] eqn:Hwindow; simpl in Hhint
        end.
        * injection Hhint as ->. eauto.
        * eauto.
        * discriminate.
      + eauto.
    - eauto. }
  destruct Hscan as (content & offset & Hscan).
  apply findSymbolLoop_answer in Hscan
    as (index & location & others & _ & Hprovider & Heq).
  exists hint, filepath, uri, document,
    (positionAt document (offset + index)), location, others.
  by split; [left|].
Qed.

End LookupSymbolMore.

Lemma lookupSymbol_result_witness :
  lookupSymbol pathUtils definitionHost "x" (Some [hintWithoutLocation])
    = Return (Some (symbolInfoAt pathUtils appDocument
                      {| line := 0; character := 0 |} definitionOfX))
  /\ isSimpleIdentifier "x" = true.
Proof.
  assert (Hfound :
    lookupSymbol pathUtils definitionHost "x" (Some [hintWithoutLocation])
    = Return (Some (symbolInfoAt pathUtils appDocument
                      {| line := 0; character := 0 |} definitionOfX)))
    by (vm_compute; reflexivity).
  split; [exact Hfound|].
  exact (proj1 (lookupSymbol_result_is_provider_answer pathUtils definitionHost
                  "x" (Some [hintWithoutLocation]) _ Hfound)).
Defined.

(** ** [readWorkspaceGitRepositories] *)

Section GitRemotes.

Variable G : GitProvider.
Variable W : GitWorkspace G.

Lemma folderLoop_unassigned (folders : list Uri) (infoList : list string) :
  folderLoop G W None folders infoList
  = infoList ++ omap (remoteOf G W) folders.
Proof.
  revert infoList.
  induction folders as [|folder folders IH]; intros infoList; simpl.
  - by rewrite app_nil_r.
  - rewrite IH. unfold remoteOf.
    destruct (getRepository W folder) as [repo|]; [|done].
    destruct (truthyString (getDefaultRemoteUrl W repo)) as [url|]; [|done].
    simpl. by rewrite <- app_assoc.
Qed.

(** X19. [readWorkspaceGitRepositories] lists the remote of the active
    editor's repository first, when there is one, then the remote of every
    workspace folder that has one, in folder order.  The remote of a folder
    is listed also when it is the remote of the active editor's repository:
    a file open in a folder of the workspace has its remote twice. *)
Theorem readWorkspaceGitRepositories_lists_remotes (H : Host) :
  readWorkspaceGitRepositories G W H
  = match activeTextEditor H with
    | Some editor =>
        match remoteOf G W (document_uri (editor_document editor)) with
        | Some url => [url]
        | None => []
        end
    | None => []
    end
    ++ omap (remoteOf G W) (default [] (workspaceFolders W))
  /\ (forall editor folder url,
        activeTextEditor H = Some editor ->
        remoteOf G W (document_uri (editor_document editor)) = Some url ->
        In folder (default [] (workspaceFolders W)) ->
        remoteOf G W folder = Some url ->
        exists between after,
          readWorkspaceGitRepositories G W H = url :: between ++ url :: after).
Proof.
  assert (Heq : readWorkspaceGitRepositories G W H
    = match activeTextEditor H with
      | Some editor =>
          match remoteOf G W (document_uri (editor_document editor)) with
          | Some url => [url]
          | None => []
          end
      | None => []
      end
      ++ omap (remoteOf G W) (default [] (workspaceFolders W))).
  { unfold readWorkspaceGitRepositories. rewrite folderLoop_unassigned.
    f_equal. unfold remoteOf.
    destruct (activeTextEditor H) as [editor|]; [|done].
    destruct (getRepository W _) as [repo|]; [|done].
    by destruct (truthyString _). }
  split; [exact Heq|].
  intros editor folder url Heditor Hactive Hin Hfolder.
  rewrite Heq, Heditor, Hactive. simpl.
  apply in_split in Hin as (before & after & Hsplit).
  rewrite Hsplit, omap_app. simpl. rewrite Hfolder.
  by exists (omap (remoteOf G W) before), (omap (remoteOf G W) after).
Qed.

End GitRemotes.

(** A file of the only workspace folder, open in the editor: its remote
    comes twice. *)
Example readWorkspaceGitRepositories_active_in_folder :
  readWorkspaceGitRepositories oneRepository oneFolder (hostWithSymbols 0)
  = ["https://example.org/app.git"; "https://example.org/app.git"].
Proof. reflexivity. Qed.

(** ** [applyInEditor] *)

Lemma splitOn_cons (sep : ascii) (s : string) :
  exists first rest, splitOn sep s = first :: rest.
Proof.
  induction s as [|c s (first & rest & IH)]; simpl; [by eexists _, _|].
  destruct (Ascii.eqb c sep); [by eexists _, _|].
  rewrite IH. by eexists _, _.
Qed.

Lemma countNewlines_append (s1 s2 : string) :
  countNewlines (s1 ++ s2)%string = (countNewlines s1 + countNewlines s2)%nat.
Proof.
  induction s1 as [|c s1 IH]; simpl; [done|].
  destruct (Ascii.eqb c newline); rewrite IH; lia.
Qed.

(** A prefix without line break joins the first line. *)
Lemma splitOn_prefix (p s first : string) (rest : list string) :
  countNewlines p = O ->
  splitOn newline s = first :: rest ->
  splitOn newline (p ++ s)%string = (p ++ first)%string :: rest.
Proof.
  intros Hp Hs. induction p as [|c p IH]; simpl in *; [done|].
  destruct (Ascii.eqb c newline); [discriminate|].
  by rewrite IH.
Qed.

Lemma splitOn_indentFollowingLines (content indent first : string)
    (rest : list string) :
  countNewlines indent = O ->
  splitOn newline content = first :: rest ->
  splitOn newline (indentFollowingLines content indent)
  = first :: map (String.append indent) rest.
Proof.
  intros Hindent. revert first rest.
  induction content as [|c content IH]; intros first rest Hsplit; simpl in *.
  - by injection Hsplit as <- <-.
  - destruct (Ascii.eqb c newline) eqn:Hc.
    + injection Hsplit as <- <-. simpl.
      destruct (splitOn_cons newline content) as (h & t & Hcontent).
      rewrite (splitOn_prefix indent _ h (map (String.append indent) t));
        [by rewrite Hcontent | done | by apply IH].
    + destruct (splitOn_cons newline content) as (h & t & Hcontent).
      rewrite Hcontent in Hsplit. injection Hsplit as <- <-.
      simpl. rewrite Hc. by rewrite (IH h t).
Qed.

Lemma indentFollowingLines_single_line (content indent : string) :
  countNewlines content = O -> indentFollowingLines content indent = content.
Proof.
  induction content as [|c content IH]; simpl; [done|].
  destruct (Ascii.eqb c newline); [discriminate|].
  intros Hc. by rewrite IH.
Qed.

Lemma substring_dropString (a n : nat) (s : string) :
  substring a n s = substring 0 n (dropString a s).
Proof.
  revert s. induction a as [|a IH]; intros s; [done|].
  destruct s as [|c s]; simpl; [by destruct n|]. apply IH.
Qed.

Lemma line_has_no_newline (s : string) :
  countNewlines (substring 0 (lineLengthFrom s) s) = O.
Proof.
  induction s as [|c s IH]; simpl; [done|].
  destruct (Ascii.eqb c newline) eqn:Hc; simpl; [done|]. by rewrite Hc.
Qed.

(** The text of a line holds no line break. *)
Lemma lineTextAt_no_newline (d : TextDocument) (n : nat) :
  countNewlines (lineTextAt d n) = O.
Proof.
  unfold lineTextAt, lineLength. rewrite substring_dropString.
  apply line_has_no_newline.
Qed.

Lemma leadingWhitespace_no_newline (s : string) :
  countNewlines s = O -> countNewlines (leadingWhitespace s) = O.
Proof.
  induction s as [|c s IH]; simpl; [done|].
  destruct (Ascii.eqb c newline) eqn:Hc; [discriminate|].
  intros Hs. destruct (isSpace c); simpl; [|done]. rewrite Hc. by apply IH.
Qed.

Lemma repeatChar_no_newline (unit : ascii) (count : nat) :
  Ascii.eqb unit newline = false -> countNewlines (repeatChar unit count) = O.
Proof.
  intros Hunit. induction count as [|count IH]; simpl; [done|].
  by rewrite Hunit.
Qed.

Lemma repeatChar_length (unit : ascii) (count : nat) :
  String.length (repeatChar unit count) = count.
Proof. induction count as [|count IH]; simpl; [done | by rewrite IH]. Qed.

(** X20. [applyInEditor] keeps the lines of the content: the first line is
    put after as many copies of the first indentation character as the
    selection start is left of the indentation of its line, and every
    following line after the whole indentation of that line; no line is
    added, dropped or changed otherwise, and the edit replaces the
    selection. *)
Theorem applyInEditor_indents_lines (d : TextDocument) (selection : Range)
    (content : string) :
  let indent := leadingWhitespace (lineTextAt d (line (range_start selection))) in
  edit_range (applyInEditor d selection content) = selection
  /\ exists firstIndent first rest,
       splitOn newline content = first :: rest
       /\ splitOn newline (edit_text (applyInEditor d selection content))
          = (firstIndent ++ first)%string :: map (String.append indent) rest
       /\ String.length firstIndent
          = (String.length indent - character (range_start selection))%nat
       /\ (forall unit rest', indent = String unit rest' ->
             firstIndent
             = repeatChar unit
                 (String.length indent - character (range_start selection))).
Proof.
  intros indent. split; [done|].
  destruct (splitOn_cons newline content) as (first & rest & Hcontent).
  assert (Hindent : countNewlines indent = O).
  { apply leadingWhitespace_no_newline, lineTextAt_no_newline. }
  simpl. unfold indentedContent. fold indent.
  destruct indent as [|unit rest'] eqn:Hi.
  - exists EmptyString, first, rest. simpl.
    split; [done|]. split; [|done].
    by apply (splitOn_indentFollowingLines content EmptyString first rest).
  - set (amount := (String.length (String unit rest')
                    - character (range_start selection))%nat).
    exists (repeatChar unit amount), first, rest.
    assert (Hunit : Ascii.eqb unit newline = false).
    { simpl in Hindent. by destruct (Ascii.eqb unit newline). }
    split; [done|]. split; [|split].
    + apply splitOn_prefix; [by apply repeatChar_no_newline|].
      by apply splitOn_indentFollowingLines.
    + apply repeatChar_length.
    + by intros unit0 rest0 [= <- <-].
Qed.

(** X21. A content of one line applied at the indentation of the line, or
    right of it, is inserted as it is. *)
Theorem applyInEditor_single_line_unchanged (d : TextDocument) (selection : Range)
    (content : string) :
  countNewlines content = O ->
  (String.length (leadingWhitespace (lineTextAt d (line (range_start selection))))
   <= character (range_start selection))%nat ->
  edit_text (applyInEditor d selection content) = content.
Proof.
  intros Hline Hright. simpl. unfold indentedContent.
  rewrite indentFollowingLines_single_line by done.
  replace (_ - _)%nat with O by lia.
  by destruct (leadingWhitespace _).
Qed.

Lemma applyInEditor_single_line_witness :
  countNewlines "return 2;" = O
  /\ (String.length (leadingWhitespace (lineTextAt indentedDocument 1)) <= 4)%nat
  /\ edit_text (applyInEditor indentedDocument (newRange 1 4 1 13) "return 2;")
     = "return 2;".
Proof.
  assert (Hright :
    (String.length
       (leadingWhitespace
          (lineTextAt indentedDocument (line (range_start (newRange 1 4 1 13)))))
     <= character (range_start (newRange 1 4 1 13)))%nat)
    by (vm_compute; lia).
  split; [reflexivity|]. split; [vm_compute; lia|].
  exact (applyInEditor_single_line_unchanged indentedDocument
           (newRange 1 4 1 13) "return 2;" eq_refl Hright).
Defined.

(** ** Server status and the page shown *)

Lemma checkStatusInfo_message (SV : SemverPackage)
    (statusInfo : option StatusInfo) (message : string) :
  checkStatusInfo SV statusInfo = Some message -> message <> EmptyString.
Proof.
  unfold checkStatusInfo. destruct statusInfo as [info|]; [|by intros [= <-]].
  repeat (destruct (String.eqb (status info) _); [by intros [= <-]|]).
  destruct (serverHealth info) as [health|]; [|by intros [= <-]].
  destruct (_ || _); [by intros [= <-]|].
  destruct (healthTruthy (health !! "version")); [|done].
  destruct (coercedVersion SV _) as [version|]; [|done].
  destruct (semver_lt SV version MIN_VERSION); [|done].
  by intros [= <-].
Qed.

(** Every message of [checkStatusInfo] counts as an error for the caller. *)
Lemma truthyString_checkStatusInfo (SV : SemverPackage)
    (statusInfo : option StatusInfo) :
  truthyString (checkStatusInfo SV statusInfo) = checkStatusInfo SV statusInfo.
Proof.
  destruct (checkStatusInfo SV statusInfo) as [message|] eqn:Hcheck; [|done].
  apply checkStatusInfo_message in Hcheck. by destruct message.
Qed.

Lemma checkStatusInfo_usable (SV : SemverPackage) (statusInfo : option StatusInfo) :
  checkStatusInfo SV statusInfo = None <-> usableServer SV statusInfo.
Proof.
  unfold checkStatusInfo, usableServer. split.
  - destruct statusInfo as [info|]; [|done].
    destruct (String.eqb (status info) "connecting") eqn:H1; [done|].
    destruct (String.eqb (status info) "unauthorized") eqn:H2; [done|].
    destruct (String.eqb (status info) "disconnected") eqn:H3; [done|].
    destruct (serverHealth info) as [health|] eqn:Hhealth; [|done].
    destruct (healthTruthy (health !! "webserver")) eqn:Hweb; [|done].
    destruct (healthTruthy (health !! "chat_model")) eqn:Hchat; [|done].
    simpl. intros Hversion. exists info, health.
    apply String.eqb_neq in H1, H2, H3.
    repeat (split; [done|]).
    intros Htrue version Hcoerced. rewrite Htrue, Hcoerced in Hversion.
    by destruct (semver_lt SV version MIN_VERSION).
  - intros (info & health & -> & H1 & H2 & H3 & Hhealth & Hweb & Hchat & Hversion).
    apply String.eqb_neq in H1, H2, H3. rewrite H1, H2, H3, Hhealth, Hweb, Hchat.
    simpl. destruct (healthTruthy (health !! "version")); [|done].
    destruct (coercedVersion SV _) as [version|] eqn:Hcoerced; [|done].
    by rewrite (Hversion eq_refl version).
Qed.

Lemma checkStatusAndLoadContent_error (SV : SemverPackage)
    (statusInfo : option StatusInfo) (config : option Config) (p : Panel)
    (message : string) :
  checkStatusInfo SV statusInfo = Some message ->
  checkStatusAndLoadContent SV statusInfo config p
  = loadErrorPage message (with_core (with_currentConfig None (core p)) p).
Proof.
  intros Hcheck. unfold checkStatusAndLoadContent.
  by rewrite truthyString_checkStatusInfo, Hcheck.
Qed.

Lemma checkStatusAndLoadContent_usable (SV : SemverPackage)
    (statusInfo : option StatusInfo) (config : Config) (p : Panel) :
  checkStatusInfo SV statusInfo = None ->
  checkStatusAndLoadContent SV statusInfo (Some config) p
  = if configChanged (currentConfig (core p)) config
    then loadChatPanel
           (with_core (with_currentConfig (Some (server config)) (core p)) p)
    else p.
Proof.
  intros Hcheck. unfold checkStatusAndLoadContent.
  by rewrite truthyString_checkStatusInfo, Hcheck.
Qed.

Lemma loadErrorPage_webview (message : string) (p : Panel) :
  webview (loadErrorPage message p) = webview p
  \/ webview (loadErrorPage message p)
     = Some {| html := Some (ErrorHtml (reloadCount p + 1) message) |}.
Proof.
  unfold loadErrorPage. destruct (webview p) as [w|] eqn:Hw; [by right|].
  left. by rewrite Hw.
Qed.

(** X22. [checkStatusAndLoadContent] puts the chat page into the webview
    only for a usable server: whenever the call leaves a main page that
    was not there before, the status is none of connecting, unauthorized
    and disconnected, the health names a web server and a chat model, a
    version that can be read is not below 0.27.0, and there is a
    configuration; the page carries the endpoint of that configuration and
    the next reload count, the configuration is the current one and the
    handle is dropped. *)
Theorem main_page_only_for_usable_server (SV : SemverPackage)
    (statusInfo : option StatusInfo) (config : option Config) (p : Panel)
    (count : N) (serverEndpoint : string) :
  webview (checkStatusAndLoadContent SV statusInfo config p)
  = Some {| html := Some (MainHtml count serverEndpoint) |} ->
  webview (checkStatusAndLoadContent SV statusInfo config p) <> webview p ->
  usableServer SV statusInfo
  /\ exists cfg,
       config = Some cfg
       /\ serverEndpoint = endpoint (server cfg)
       /\ count = (reloadCount p + 1)%N
       /\ reloadCount (checkStatusAndLoadContent SV statusInfo config p) = count
       /\ currentConfig (core (checkStatusAndLoadContent SV statusInfo config p))
          = Some (server cfg)
       /\ client (core (checkStatusAndLoadContent SV statusInfo config p)) = None.
Proof.
  destruct (checkStatusInfo SV statusInfo) as [message|] eqn:Hcheck.
  - rewrite (checkStatusAndLoadContent_error SV _ _ _ message) by done.
    intros Hmain Hnew.
    destruct (loadErrorPage_webview message
                (with_core (with_currentConfig None (core p)) p)) as [Hsame|Herror].
    + by rewrite Hsame in Hnew.
    + by rewrite Herror in Hmain.
  - destruct config as [cfg|].
    + rewrite checkStatusAndLoadContent_usable by done.
      destruct (configChanged (currentConfig (core p)) cfg); [|done].
      unfold loadChatPanel. simpl.
      destruct (webview p) as [w|] eqn:Hw; simpl; [|by rewrite Hw].
      intros [= <- <-] _. split; [by apply checkStatusInfo_usable|].
      by exists cfg.
    + unfold checkStatusAndLoadContent.
      rewrite truthyString_checkStatusInfo, Hcheck.
      intros Hmain Hnew.
      destruct (loadErrorPage_webview "Cannot get the server configuration."
                  (with_core (with_currentConfig None (core p)) p))
        as [Hsame|Herror].
      * by rewrite Hsame in Hnew.
      * by rewrite Herror in Hmain.
Qed.

Lemma main_page_witness :
  usableServer plainSemver (Some readyStatus)
  /\ exists cfg,
       Some configA = Some cfg
       /\ endpoint serverA = endpoint (server cfg)
       /\ 1%N = (reloadCount (with_webview (Some freshWebview) newPanel) + 1)%N
       /\ reloadCount
            (checkStatusAndLoadContent plainSemver (Some readyStatus)
               (Some configA) (with_webview (Some freshWebview) newPanel))
          = 1%N
       /\ currentConfig
            (core (checkStatusAndLoadContent plainSemver (Some readyStatus)
                     (Some configA) (with_webview (Some freshWebview) newPanel)))
          = Some (server cfg)
       /\ client
            (core (checkStatusAndLoadContent plainSemver (Some readyStatus)
                     (Some configA) (with_webview (Some freshWebview) newPanel)))
          = None.
Proof.
  apply (main_page_only_for_usable_server plainSemver (Some readyStatus)
           (Some configA) (with_webview (Some freshWebview) newPanel)
           1%N (endpoint serverA)).
  - vm_compute. reflexivity.
  - vm_compute. discriminate.
Defined.

(** X23. After an error page the chat page always comes back: when one
    status check finds an error and the next one finds none, the second
    call loads the main page for the endpoint of the configuration, under
    a reload count two above the one before, with the handle dropped;
    this holds whatever configuration was current before the error, the
    same one included. *)
Theorem main_page_reloaded_after_error (SV : SemverPackage)
    (bad good : option StatusInfo) (config : option Config) (cfg : Config)
    (w : Webview) (p : Panel) (message : string) :
  webview p = Some w ->
  checkStatusInfo SV bad = Some message ->
  checkStatusInfo SV good = None ->
  let p1 := checkStatusAndLoadContent SV bad config p in
  let p2 := checkStatusAndLoadContent SV good (Some cfg) p1 in
  webview p1 = Some {| html := Some (ErrorHtml (reloadCount p + 1) message) |}
  /\ currentConfig (core p1) = None
  /\ webview p2
     = Some {| html := Some (MainHtml (reloadCount p + 2)
                               (endpoint (server cfg))) |}
  /\ reloadCount p2 = (reloadCount p + 2)%N
  /\ currentConfig (core p2) = Some (server cfg)
  /\ client (core p2) = None
  /\ trace (core p2)
     = trace (core p)
       ++ [Emit "didChangedStatus" "error"; Emit "didChangedStatus" "loading"].
Proof.
  intros Hw Hbad Hgood p1 p2. unfold p2, p1.
  rewrite (checkStatusAndLoadContent_error SV bad config p message) by done.
  rewrite checkStatusAndLoadContent_usable by done.
  unfold loadErrorPage. simpl. rewrite Hw. simpl.
  replace (reloadCount p + 1 + 1)%N with (reloadCount p + 2)%N by lia.
  repeat (split; [done|]). by rewrite <- app_assoc.
Qed.

Lemma main_page_reloaded_witness :
  webview
    (checkStatusAndLoadContent plainSemver (Some readyStatus) (Some configA)
       (checkStatusAndLoadContent plainSemver (Some disconnectedStatus)
          (Some configA)
          (checkStatusAndLoadContent plainSemver (Some readyStatus)
             (Some configA) (with_webview (Some freshWebview) newPanel))))
  = Some {| html := Some (MainHtml 3 (endpoint serverA)) |}.
Proof.
  exact (proj1 (proj2 (proj2
    (main_page_reloaded_after_error plainSemver (Some disconnectedStatus)
       (Some readyStatus) (Some configA) configA
       {| html := Some (MainHtml 1 (endpoint serverA)) |}
       (checkStatusAndLoadContent plainSemver (Some readyStatus)
          (Some configA) (with_webview (Some freshWebview) newPanel))
       _ eq_refl eq_refl eq_refl)))).
Defined.

Lemma loadChatPanel_currentConfig (p : Panel) :
  currentConfig (core (loadChatPanel p)) = currentConfig (core p).
Proof. unfold loadChatPanel. by destruct (webview p). Qed.

Lemma configChanged_same (config : Config) :
  configChanged (Some (server config)) config = false.
Proof. unfold configChanged. by rewrite !String.eqb_refl. Qed.

(** X24. A configuration is loaded once: while the status checks find no
    error and the endpoint and the token stay the same, a further call of
    [checkStatusAndLoadContent] changes nothing, neither the page nor the
    handle nor the reload count. *)
Theorem unchanged_configuration_loads_once (SV : SemverPackage)
    (first second : option StatusInfo) (cfg1 cfg2 : Config) (p : Panel) :
  checkStatusInfo SV first = None ->
  checkStatusInfo SV second = None ->
  server cfg2 = server cfg1 ->
  checkStatusAndLoadContent SV second (Some cfg2)
    (checkStatusAndLoadContent SV first (Some cfg1) p)
  = checkStatusAndLoadContent SV first (Some cfg1) p.
Proof.
  intros Hfirst Hsecond Hserver.
  rewrite (checkStatusAndLoadContent_usable SV first) by done.
  rewrite checkStatusAndLoadContent_usable by done.
  assert (Hsame : forall current,
            configChanged current cfg2 = configChanged current cfg1).
  { intros current. unfold configChanged. by rewrite Hserver. }
  destruct (configChanged (currentConfig (core p)) cfg1) eqn:Hchanged.
  - rewrite Hsame, loadChatPanel_currentConfig.
    cbn [core with_core currentConfig with_currentConfig].
    by rewrite configChanged_same.
  - by rewrite Hsame, Hchanged.
Qed.

Lemma unchanged_configuration_witness :
  checkStatusAndLoadContent plainSemver (Some readyStatus) (Some configA)
    (checkStatusAndLoadContent plainSemver (Some readyStatus) (Some configA)
       (with_webview (Some freshWebview) newPanel))
  = checkStatusAndLoadContent plainSemver (Some readyStatus) (Some configA)
      (with_webview (Some freshWebview) newPanel).
Proof.
  exact (unchanged_configuration_loads_once plainSemver (Some readyStatus)
           (Some readyStatus) configA configA
           (with_webview (Some freshWebview) newPanel)
           eq_refl eq_refl eq_refl).
Defined.

(** X25. A new token for the same endpoint reloads the chat page and
    keeps the session: the page is loaded again for the endpoint under the
    next reload count, the handle is dropped, what [fetchSessionState]
    gives is what it gave before, and when the new handle arrives its
    [init] is called with the new token. *)
Theorem new_token_reloads_and_keeps_session (SV : SemverPackage)
    (statusInfo : option StatusInfo) (cfg : Config) (old : ServerConfig)
    (w : Webview) (p : Panel) (c : ServerApiList) (api : ServerApi)
    (isMac : bool) :
  webview p = Some w ->
  checkStatusInfo SV statusInfo = None ->
  currentConfig (core p) = Some old ->
  endpoint (server cfg) = endpoint old ->
  token (server cfg) <> token old ->
  c !! "0.8.0" = Some api ->
  M_init ∈ api ->
  let p1 := checkStatusAndLoadContent SV statusInfo (Some cfg) p in
  webview p1
  = Some {| html := Some (MainHtml (reloadCount p + 1) (endpoint old)) |}
  /\ client (core p1) = None
  /\ (forall keys,
        fetchSessionState keys (core p1) = fetchSessionState keys (core p))
  /\ snd (clientCreated isMac c p1) = Return tt
  /\ In (PanelCall "0.8.0" M_init (ArgInit (token (server cfg)) isMac))
        (trace (core (fst (clientCreated isMac c p1)))).
Proof.
  intros Hw Hcheck Hold Hendpoint Htoken Hentry Hinit p1. unfold p1.
  rewrite checkStatusAndLoadContent_usable by done.
  assert (Hchanged : configChanged (currentConfig (core p)) cfg = true).
  { rewrite Hold. unfold configChanged.
    apply orb_true_iff. right. apply negb_true_iff, String.eqb_neq. congruence. }
  rewrite Hchanged. unfold loadChatPanel. simpl. rewrite Hw. simpl.
  rewrite Hendpoint. split; [done|]. split; [done|]. split.
  { intros keys. unfold fetchSessionState, sessionStateOf, sessionStateKey.
    simpl. by rewrite Hold, Hendpoint. }
  unfold clientCreated. rewrite initChatPanel_unfold. cbn zeta.
  unfold callMethod. rewrite Hentry, (bool_decide_eq_true_2 _ Hinit). simpl.
  split; [done|]. apply in_or_app. right. by left.
Qed.

Lemma new_token_witness :
  In (PanelCall "0.8.0" M_init (ArgInit "tb" false))
     (trace (core (fst (clientCreated false baseHandle
        (checkStatusAndLoadContent plainSemver (Some readyStatus)
           (Some {| server := {| endpoint := endpoint serverA; token := "tb" |} |})
           (checkStatusAndLoadContent plainSemver (Some readyStatus)
              (Some configA) (with_webview (Some freshWebview) newPanel))))))).
Proof.
  assert (Htoken : token (server {| server := {| endpoint := endpoint serverA;
                                                token := "tb" |} |})
                   <> token serverA) by (vm_compute; discriminate).
  assert (Hinit : M_init ∈ allMethods) by (vm_compute; constructor).
  exact (proj2 (proj2 (proj2 (proj2
    (new_token_reloads_and_keeps_session plainSemver (Some readyStatus)
       {| server := {| endpoint := endpoint serverA; token := "tb" |} |}
       serverA {| html := Some (MainHtml 1 (endpoint serverA)) |}
       (checkStatusAndLoadContent plainSemver (Some readyStatus)
          (Some configA) (with_webview (Some freshWebview) newPanel))
       baseHandle allMethods false
       eq_refl eq_refl eq_refl eq_refl Htoken eq_refl Hinit))))).
Defined.

(** ** The life cycle: what is kept across pages, handles and disposal *)

Lemma fold_left_preserves {A B C : Type} (f : A -> B -> A) (g : A -> C)
    (l : list B) (a : A) :
  (forall a b, g (f a b) = g a) -> g (fold_left f l a) = g a.
Proof.
  intros Hstep. revert a. induction l as [|b l IH]; intros a; simpl; [done|].
  by rewrite IH.
Qed.

Lemma checkStatusAndLoadContent_keeps (SV : SemverPackage)
    (statusInfo : option StatusInfo) (config : option Config) (p : Panel) :
  sessionStateMap (core (checkStatusAndLoadContent SV statusInfo config p))
  = sessionStateMap (core p)
  /\ pendingActions (core (checkStatusAndLoadContent SV statusInfo config p))
     = pendingActions (core p).
Proof.
  unfold checkStatusAndLoadContent, loadErrorPage, loadChatPanel.
  destruct (truthyString _) as [error|]; [|destruct config as [cfg|]];
    [| destruct (configChanged _ _); [|done] |];
    simpl; by destruct (webview p).
Qed.

Lemma invoke_keeps (op : HostOperation) (w : ChatWebview) :
  sessionStateMap (fst (invoke op w)) = sessionStateMap w
  /\ exists more, pendingActions (fst (invoke op w)) = pendingActions w ++ more.
Proof.
  destruct op as [selection|context|command]; simpl;
    unfold setActiveSelection, addRelevantContext, executeCommand, perform;
    (destruct (client w) as [c|]; [|split; [done | by eexists]]).
  - destruct (callMethod _ _ _ _); (split; [done | exists []; by rewrite app_nil_r]).
  - destruct (kind context);
      [destruct (callMethod _ _ _ _) | destruct (callMethodOpt _ _ _ _)];
      (split; [done | exists []; by rewrite app_nil_r]).
  - destruct (String.eqb command "explain-terminal");
      [destruct (callMethodOpt _ _ _ _) | destruct (callMethod _ _ _ _)];
      (split; [done | exists []; by rewrite app_nil_r]).
Qed.

Lemma navigate_keeps (view : ChatView) (w : ChatWebview) :
  sessionStateMap (fst (navigate view w)) = sessionStateMap w
  /\ pendingActions (fst (navigate view w)) = pendingActions w.
Proof.
  unfold navigate, perform. destruct (client w) as [c|]; [|done].
  by destruct (callMethod _ _ _ _).
Qed.

Lemma clientCreated_sessionStateMap (isMac : bool) (c : ServerApiList) (p : Panel) :
  sessionStateMap (core (fst (clientCreated isMac c p)))
  = sessionStateMap (core p).
Proof.
  unfold clientCreated. rewrite initChatPanel_unfold. cbn zeta.
  by destruct (callMethod _ _ _ _).
Qed.

Lemma onJsCallback_core (id : string) (args : list JsValue) (p : Panel) :
  core (onJsCallback id args p) = core p.
Proof. unfold onJsCallback. by destruct (bool_decide _). Qed.

(** One step that is not the arrival of a handle. *)
Lemma lifecycleStep_keeps (SV : SemverPackage) (p : Panel) (s : LifecycleStep) :
  sessionStateMap (core (lifecycleStep SV p s)) = sessionStateMap (core p)
  /\ (isClientCreated s = false ->
      exists more,
        pendingActions (core (lifecycleStep SV p s))
        = pendingActions (core p) ++ more).
Proof.
  destruct s as [w statusInfo config| |statusInfo config|isMac c|op|view|id
                |id args]; simpl.
  - unfold init. simpl.
    destruct (checkStatusAndLoadContent_keeps SV statusInfo config
                (with_disposables (disposables p ++ [StatusListener])
                   (with_webview (Some w) p))) as [Hstate Hqueue].
    split; [exact Hstate|]. intros _. exists []. by rewrite app_nil_r.
  - split; [done|]. intros _. exists []. by rewrite app_nil_r.
  - unfold statusDidChange. split.
    + apply (fold_left_preserves _ (fun p => sessionStateMap (core p))).
      intros a []; try done. apply checkStatusAndLoadContent_keeps.
    + intros _. exists []. rewrite app_nil_r.
      apply (fold_left_preserves _ (fun p => pendingActions (core p))).
      intros a []; try done. apply checkStatusAndLoadContent_keeps.
  - split; [apply clientCreated_sessionStateMap | done].
  - destruct (invoke_keeps op (core p)) as [Hstate Hqueue]. split; [done|].
    by intros _.
  - destruct (navigate_keeps view (core p)) as [Hstate Hqueue]. split; [done|].
    intros _. exists []. by rewrite app_nil_r.
  - unfold isFocused. destruct (webview p); simpl;
      (split; [done | intros _; exists []; by rewrite app_nil_r]).
  - unfold receiveJsCallback. split.
    + apply (fold_left_preserves _ (fun p => sessionStateMap (core p))).
      intros a []; try done. by rewrite onJsCallback_core.
    + intros _. exists []. rewrite app_nil_r.
      apply (fold_left_preserves _ (fun p => pendingActions (core p))).
      intros a []; try done. by rewrite onJsCallback_core.
Qed.

(** X26. The stored session state belongs to the instance, not to the
    page: whatever happens to the instance (a first or a further [init],
    [dispose], status changes with error pages and reloads, handles that
    arrive, operations of the host, focus queries and their callbacks),
    the session state map is left as it is, so [fetchSessionState] gives
    what it gave before as soon as the endpoint is the one of before. *)
Theorem lifecycle_keeps_session_state (SV : SemverPackage)
    (steps : list LifecycleStep) (p : Panel) :
  sessionStateMap (core (lifecycle SV steps p)) = sessionStateMap (core p)
  /\ (sessionStateKey (core (lifecycle SV steps p)) = sessionStateKey (core p) ->
      forall keys,
        fetchSessionState keys (core (lifecycle SV steps p))
        = fetchSessionState keys (core p)).
Proof.
  assert (Hmap : sessionStateMap (core (lifecycle SV steps p))
                 = sessionStateMap (core p)).
  { unfold lifecycle. revert p.
    induction steps as [|s steps IH]; intros p; simpl; [done|].
    rewrite IH. apply lifecycleStep_keeps. }
  split; [exact Hmap|]. intros Hkey keys.
  unfold fetchSessionState, sessionStateOf. by rewrite Hmap, Hkey.
Qed.



(** ** Disposal, and the focus query *)

Lemma jsCallback_unknown_id (id : string) (args : list JsValue)
    (listeners : list Listener) (p : Panel) :
  id ∉ pendingCallbacks p ->
  fold_left
    (fun p listener =>
       match listener with
       | MessageListener => onJsCallback id args p
       | _ => p
       end) listeners p = p.
Proof.
  intros Hunknown. induction listeners as [|listener listeners IH]; [done|].
  simpl. assert (Hskip : onJsCallback id args p = p).
  { unfold onJsCallback. by rewrite bool_decide_eq_false_2. }
  destruct listener; by rewrite ?Hskip, IH.
Qed.

Lemma jsCallback_known_id (id : string) (args : list JsValue)
    (listeners : list Listener) (p : Panel) :
  id ∈ pendingCallbacks p ->
  In MessageListener listeners ->
  fold_left
    (fun p listener =>
       match listener with
       | MessageListener => onJsCallback id args p
       | _ => p
       end) listeners p
  = {| core := core p; webview := webview p; disposables := disposables p;
       reloadCount := reloadCount p;
       pendingCallbacks := pendingCallbacks p ∖ {[id]};
       focusResolved := focusResolved p ++ [(id, head args)] |}.
Proof.
  intros Hknown Hlistener.
  induction listeners as [|listener listeners IH]; [done|].
  assert (Hcall : onJsCallback id args p
            = {| core := core p; webview := webview p;
                 disposables := disposables p; reloadCount := reloadCount p;
                 pendingCallbacks := pendingCallbacks p ∖ {[id]};
                 focusResolved := focusResolved p ++ [(id, head args)] |}).
  { unfold onJsCallback. by rewrite bool_decide_eq_true_2. }
  destruct listener; simpl;
    try (apply IH; by destruct Hlistener as [Hhead|Htail]).
  rewrite Hcall. apply jsCallback_unknown_id. simpl.
  apply not_elem_of_difference. right. by apply elem_of_singleton.
Qed.

(** X28. Between [dispose] and the next [init] the instance is inert and
    its state is kept: a status change and a callback message change
    nothing, [isFocused] answers false at once and posts nothing; the
    next [init] with a usable server then loads the main page for the
    configured endpoint under the next reload count, whatever
    configuration was loaded before, with exactly one listener of each
    kind, and the queue and the session state of before. *)
Theorem dispose_then_init (SV : SemverPackage) (statusInfo : option StatusInfo)
    (cfg : Config) (w : Webview) (p : Panel) :
  checkStatusInfo SV statusInfo = None ->
  let disposed := dispose p in
  let again := init SV w statusInfo (Some cfg) disposed in
  (forall otherStatus otherConfig,
     statusDidChange SV otherStatus otherConfig disposed = disposed)
  /\ (forall id args, receiveJsCallback id args disposed = disposed)
  /\ (forall id, isFocused id disposed = (disposed, FocusResolved false))
  /\ webview again
     = Some {| html := Some (MainHtml (reloadCount p + 1)
                               (endpoint (server cfg))) |}
  /\ disposables again
     = [StatusListener; ActiveEditorListener; SelectionListener; MessageListener]
  /\ client (core again) = None
  /\ currentConfig (core again) = Some (server cfg)
  /\ pendingActions (core again) = pendingActions (core p)
  /\ sessionStateMap (core again) = sessionStateMap (core p).
Proof.
  intros Hcheck disposed again. unfold again, disposed, init.
  rewrite checkStatusAndLoadContent_usable by done.
  repeat (split; [done|]). done.
Qed.

Lemma dispose_then_init_witness :
  webview
    (init plainSemver freshWebview (Some readyStatus) (Some configA)
       (dispose
          (init plainSemver freshWebview (Some readyStatus) (Some configA)
             newPanel)))
  = Some {| html := Some (MainHtml 2 (endpoint serverA)) |}.
Proof.
  exact (proj1 (proj2 (proj2 (proj2
    (dispose_then_init plainSemver (Some readyStatus) configA freshWebview
       (init plainSemver freshWebview (Some readyStatus) (Some configA)
          newPanel)
       eq_refl))))).
Defined.

(** X29. A focus query is answered once, by the first callback message
    that carries its id: [isFocused] posts [checkFocused] and leaves its
    promise open; the first [jsCallback] message with the id resolves it
    with the first argument of the message and removes the callback, so
    that a second message with the id changes nothing; a message with an
    id that nobody waits for changes nothing either. *)
Theorem isFocused_answered_once (id : string) (args again : list JsValue)
    (w : Webview) (p : Panel) :
  webview p = Some w ->
  id ∉ pendingCallbacks p ->
  In MessageListener (disposables p) ->
  let asked := fst (isFocused id p) in
  let answered := receiveJsCallback id args asked in
  snd (isFocused id p) = FocusPending id
  /\ trace (core asked) = trace (core p) ++ [PostMessage "checkFocused"]
  /\ focusResolved asked = focusResolved p
  /\ focusResolved answered = focusResolved p ++ [(id, head args)]
  /\ pendingCallbacks answered = pendingCallbacks p
  /\ receiveJsCallback id again answered = answered
  /\ (forall other,
        other <> id -> other ∉ pendingCallbacks p ->
        receiveJsCallback other again asked = asked).
Proof.
  intros Hw Hfresh Hlistener asked answered.
  assert (Hasked : isFocused id p
            = ({| core := emit [PostMessage "checkFocused"] (core p);
                  webview := webview p; disposables := disposables p;
                  reloadCount := reloadCount p;
                  pendingCallbacks := {[id]} ∪ pendingCallbacks p;
                  focusResolved := focusResolved p |}, FocusPending id)).
  { unfold isFocused. by rewrite Hw. }
  unfold answered, asked. rewrite Hasked. simpl.
  split; [done|]. split; [done|]. split; [done|].
  assert (Hremoved : ({[id]} ∪ pendingCallbacks p) ∖ {[id]} = pendingCallbacks p).
  { apply leibniz_equiv. intros x.
    rewrite elem_of_difference, elem_of_union, !elem_of_singleton.
    split; [by intros [[->|Hx] Hne] | intros Hx; split; [by right|]].
    by intros ->. }
  match goal with
  | |- context [receiveJsCallback id args ?q] =>
      assert (Hanswered : receiveJsCallback id args q
                = {| core := emit [PostMessage "checkFocused"] (core p);
                     webview := webview p; disposables := disposables p;
                     reloadCount := reloadCount p;
                     pendingCallbacks := pendingCallbacks p;
                     focusResolved := focusResolved p ++ [(id, head args)] |})
  end.
  { unfold receiveJsCallback. simpl.
    rewrite jsCallback_known_id;
      [| apply elem_of_union; left; by apply elem_of_singleton | done].
    simpl. by rewrite Hremoved. }
  rewrite Hanswered. simpl. split; [done|]. split; [done|]. split.
  - unfold receiveJsCallback. simpl. by apply jsCallback_unknown_id.
  - intros other Hother Hunknown. unfold receiveJsCallback. simpl.
    apply jsCallback_unknown_id. simpl.
    rewrite elem_of_union, elem_of_singleton. by intros [?|?].
Qed.

Lemma isFocused_answered_witness :
  focusResolved
    (receiveJsCallback "id-1" [JBool true]
       (fst (isFocused "id-1"
               (init plainSemver freshWebview (Some readyStatus)
                  (Some configA) newPanel))))
  = focusResolved
      (init plainSemver freshWebview (Some readyStatus) (Some configA) newPanel)
    ++ [("id-1", head [JBool true])].
Proof.
  assert (Hfresh : "id-1" ∉ pendingCallbacks
            (init plainSemver freshWebview (Some readyStatus) (Some configA)
               newPanel)) by exact (not_elem_of_empty (C:=gset string) "id-1").
  assert (Hlistener : In MessageListener
            (disposables
               (init plainSemver freshWebview (Some readyStatus)
                  (Some configA) newPanel)))
    by (vm_compute; tauto).
  exact (proj1 (proj2 (proj2 (proj2
    (isFocused_answered_once "id-1" [JBool true] []
       {| html := Some (MainHtml 1 (endpoint serverA)) |}
       (init plainSemver freshWebview (Some readyStatus) (Some configA) newPanel)
       eq_refl Hfresh Hlistener))))).
Defined.

(** ** Instances of the conditional parts *)

Lemma getChanges_within_budget_witness :
  getChanges twoRepositories (Some 0) = [].
Proof.
  exact (proj2 (getChanges_within_budget twoRepositories 0) (Z.le_refl 0)).
Defined.

Lemma mergeResults_unique_witness :
  In (symbolItem "/work/b.ts" "foo" 1 2)
     (mergeResults pathUtils [symbolItem "/work/a.ts" "foo" 1 2]
        [symbolItem "/work/b.ts" "foo" 1 2] "foo" 20).
Proof.
  assert (Hfresh : ~ In (itemKey pathUtils (symbolItem "/work/b.ts" "foo" 1 2))
                        (map (itemKey pathUtils)
                           [symbolItem "/work/a.ts" "foo" 1 2])).
  { intros [Heq|[]]. vm_compute in Heq. discriminate. }
  assert (Hfits : Z.of_nat (length ([symbolItem "/work/a.ts" "foo" 1 2]
                                    ++ [symbolItem "/work/b.ts" "foo" 1 2]))
                  <= 20) by (vm_compute; discriminate).
  exact (proj2 (proj2
    (mergeResults_unique_from_inputs pathUtils
       [symbolItem "/work/a.ts" "foo" 1 2] [symbolItem "/work/b.ts" "foo" 1 2]
       "foo" 20))
    Hfits [symbolItem "/work/a.ts" "foo" 1 2]
    (symbolItem "/work/b.ts" "foo" 1 2) [] eq_refl Hfresh).
Defined.

Lemma readWorkspaceGitRepositories_witness :
  exists between after,
    readWorkspaceGitRepositories oneRepository oneFolder (hostWithSymbols 0)
    = "https://example.org/app.git"
      :: between ++ "https://example.org/app.git" :: after.
Proof.
  exact (proj2
    (readWorkspaceGitRepositories_lists_remotes oneRepository oneFolder
       (hostWithSymbols 0))
    {| editor_document := mainDocument |} "/work" "https://example.org/app.git"
    eq_refl eq_refl (or_introl eq_refl) eq_refl).
Defined.

(** An instance that holds a draft for endpoint A shows an error page, is
    disposed of and initialised again: the draft is fetched as before. *)
Lemma lifecycle_keeps_session_state_witness :
  properties
    (fetchSessionState (Some ["draft"]) (core panelWithDraft)) !! "draft"
  = Some (Stored (JStr "hello"))
  /\ fetchSessionState (Some ["draft"])
       (core (lifecycle plainSemver
                [StepStatusDidChange (Some disconnectedStatus) (Some configA);
                 StepDispose;
                 StepInit freshWebview (Some readyStatus) (Some configA)]
                panelWithDraft))
     = fetchSessionState (Some ["draft"]) (core panelWithDraft).
Proof.
  split; [vm_compute; reflexivity|].
  exact (proj2
    (lifecycle_keeps_session_state plainSemver
       [StepStatusDidChange (Some disconnectedStatus) (Some configA);
        StepDispose;
        StepInit freshWebview (Some readyStatus) (Some configA)]
       panelWithDraft)
    eq_refl (Some ["draft"])).
Defined.

(** A draft stored and fetched by its key, next to a key that was never
    stored. *)
Lemma storeSessionState_then_fetch_witness :
  properties
    (fetchSessionState (Some ["draft"; "title"])
       (storeSessionState {["draft" := JStr "hello"]} blankWebview)) !! "draft"
  = Some (Stored (JStr "hello")).
Proof.
  assert (Hkey : "draft" <> "__proto__") by discriminate.
  exact (proj2
    (storeSessionState_then_fetch {["draft" := JStr "hello"]} blankWebview
       "draft") Hkey ["draft"; "title"]).
Defined.

(** The name [x] occurs in [appDocument]; the provider is asked there and
    answers with an empty list. *)
Lemma lookupSymbol_nothing_found_witness :
  matchIndices "x" (document_text appDocument) = [0%nat]
  /\ lookupSymbol pathUtils emptyDefinitionHost "x" (Some [hintWithoutLocation])
     = Return None
  /\ lookupSymbol pathUtils definitionHost "x" (Some [hintWithoutLocation])
     <> Return None.
Proof.
  split; [vm_compute; reflexivity|]. split.
  - apply (lookupSymbol_nothing_found pathUtils emptyDefinitionHost "x"
             (Some [hintWithoutLocation])).
    intros hint filepath uri document position _ _ _ _. by right.
  - vm_compute. discriminate.
Defined.
